(** * yark: channel archive management (src/yark/channel.py)

    A shallow embedding of the archive manager: the schema migrator
    ([_migrate_archive]), the refresh/merge and deletion sweep
    ([_parse_metadata], [_parse_metadata_videos_comp], [_report_deleted]),
    lookup ([search]), curation ([_curate]) and the retrying batch download
    ([download], [_skip_video], [_err_dl]).

    Python objects that are shared and mutated in place (the [Video]
    instances referenced from the three collections, from the reporter's
    buckets and from the curated list) live in a heap and are named by
    their address. Console output is not part of the model. *)

From stdpp Require Import gmap strings list fin_maps sorting.
From Stdlib Require Import ZArith Lia Ascii.

Local Set Warnings "-register-all".
Local Open Scope Z_scope.

(** ** Python values and exceptions *)

(** The value of [json.load]: documents are dictionaries keyed by strings. *)
Inductive json : Type :=
| JNull
| JBool (b : bool)
| JNum (n : Z)
| JStr (s : string)
| JList (l : list json)
| JDict (d : gmap string json).

(** The exceptions the modelled code can raise or meet. *)
Inductive exn : Type :=
| KeyError (key : string)
| TypeError
| IndexError
| DownloadError (msg : string)
| VideoNotFoundException (msg : string)
| Exception (msg : string)
| NameError (name : string).

(** [errors._err_msg] is imported from another module. In this file it is
    followed by [sys.exit(1)] in [_migrate_archive] and in [_err_dl], and by
    nothing in [_parse_metadata]; whether the call itself returns is a
    parameter of the model. *)
Inductive err_msg_behaviour : Type :=
| ErrMsgReturns
| ErrMsgExits (code : Z).

(** ARCHIVE_COMPAT = 3 *)
Definition ARCHIVE_COMPAT : Z := 3.

(** ** Value histories (video.Element) *)

(** Modelled from the spec: the class [Element] of yark/video.py is not in
    channel.py. A value history is an ordered sequence of (timestamp, value)
    snapshots, seeded with an initial snapshot at creation, so it is never
    empty; [seed] is the first snapshot and [later] the ones appended
    after it, oldest first. *)
Record Element (A : Type) : Type := mkElement {
  seed : Z * A;
  later : list (Z * A)
}.
Arguments mkElement {A} _ _.
Arguments seed {A} _.
Arguments later {A} _.

(** Modelled from the spec: [Element.new] seeds the history with one
    snapshot taken at creation time. *)
Definition Element_new {A} (now : Z) (data : A) : Element A :=
  mkElement (now, data) [].

Definition snapshots {A} (e : Element A) : list (Z * A) := seed e :: later e.

(** Modelled from the spec: [current()] returns the value of the last
    snapshot. *)
Definition current {A} (e : Element A) : A :=
  snd (List.last (later e) (seed e)).

(** Modelled from the spec: [update(timestamp_or_now, new_value)] appends a
    snapshot only if [new_value != current()]. *)
Definition Element_update {A} `{EqDecision A} (now : Z) (data : A) (e : Element A)
  : Element A :=
  if decide (current e = data) then e
  else mkElement (seed e) (later e ++ [(now, data)]).

(** Modelled from the spec: the persisted form of a history is
    [{history: [[timestamp, value], ...]}] (section 6 of the design). *)
Definition Element_to_dict {A} (enc : A -> json) (e : Element A) : json :=
  JDict {[ "history" :=
    JList ((fun s : Z * A => JList [JNum (fst s); enc (snd s)]) <$> snapshots e) ]}.

(** ** Schema migration: [_migrate_archive] *)

Module Migrate.

(** How a call ends: with the returned dictionary, by [sys.exit], or by an
    exception. [encoded] is mutated in place, so the last two carry the
    state of the dictionary when control left the function. *)
Inductive outcome : Type :=
| Returned (encoded : gmap string json)
| Exited (code : Z) (encoded : gmap string json)
| Raised (e : exn) (encoded : gmap string json).

Definition channel_url_prefix : string := "https://www.youtube.com/channel/".

(** [video.Video._new_empty] is imported from another module. The step
    from version 2 calls it once per record, before anything is written to
    the record, and uses its result only as the owner of the new history;
    whether the call returns or raises is a parameter of the model. *)
Inductive new_empty_behaviour : Type :=
| NewEmptyReturns
| NewEmptyRaises (e : exn).

(** Modelled from the spec: [Element.new(video, False)._to_dict()] for a
    [video] that [Video._new_empty()] has returned, the clock read at
    [now]. The class [Element] of yark/video.py is not in channel.py: a new
    history holds one snapshot, taken at creation, and is persisted as
    [{history: [[timestamp, value]]}]. *)
Definition fresh_deleted (now : Z) : json :=
  Element_to_dict JBool (Element_new now false).

(** The values a [for] loop draws from a JSON value; [None] when the value
    is not iterable. Strings yield their characters and dictionaries their
    keys: either way the items are strings. *)
Definition py_iter (v : json) : option (list json) :=
  match v with
  | JList l => Some l
  | JStr s => Some ((fun c => JStr (String c EmptyString)) <$> String.list_ascii_of_string s)
  | JDict d => Some ((fun kv : string * json => JStr (fst kv)) <$> map_to_list d)
  | _ => None
  end.

(** [video["deleted"] = value]: item assignment by a string key works on
    dictionaries only. *)
Definition set_deleted (value : json) (video : json) : option json :=
  match video with
  | JDict d => Some (JDict (<["deleted" := value]> d))
  | _ => None
  end.

Section WithClock.

(** [clock k] is the k-th reading of [datetime.utcnow()] during the run. *)
Variable clock : nat -> Z.
Variable em : err_msg_behaviour.
(** What [Video._new_empty()] does. *)
Variable ne : new_empty_behaviour.

(** [for video in videos:
       video["deleted"] = Element.new(Video._new_empty(), False)._to_dict()].
    The right-hand side is evaluated before the assignment, and in it
    [Video._new_empty()] before [Element.new] reads the clock. Returns the
    records as the loop left them, the number of clock readings made, and
    the exception that stopped the loop if any. *)
Fixpoint add_deleted (tick : nat) (videos : list json)
  : list json * nat * option exn :=
  match videos with
  | [] => ([], tick, None)
  | video :: rest =>
      match ne with
      | NewEmptyRaises e => (video :: rest, tick, Some e)
      | NewEmptyReturns =>
          match set_deleted (fresh_deleted (clock tick)) video with
          | None => (video :: rest, S tick, Some TypeError)
          | Some video' =>
              let '(rest', tick', e) := add_deleted (S tick) rest in
              (video' :: rest', tick', e)
          end
      end
  end.

(** One loop of the 2 -> 3 step over the collection stored under [key]. *)
Definition add_deleted_in (key : string) (tick : nat) (encoded : gmap string json)
  : gmap string json * nat * option exn :=
  match encoded !! key with
  | None => (encoded, tick, Some (KeyError key))
  | Some coll =>
      match py_iter coll with
      | None => (encoded, tick, Some TypeError)
      | Some items =>
          let '(items', tick', e) := add_deleted tick items in
          match coll with
          | JList _ => (<[key := JList items']> encoded, tick', e)
          | _ => (encoded, tick', e)
          end
      end
  end.

(** The branch [cur == 1]: channel id to url, empty livestreams/shorts. *)
Definition v1_to_v2 (encoded : gmap string json) : gmap string json + exn :=
  match encoded !! "id" with
  | None => inr (KeyError "id")
  | Some (JStr id) =>
      inl (<["shorts" := JList []]>
            (<["livestreams" := JList []]>
              (delete "id" (<["url" := JStr (channel_url_prefix +:+ id)]> encoded))))
  | Some _ => inr TypeError
  end.

(** The branch [cur == 2]: a deleted status on every video, livestream and
    short. On an exception the dictionary is returned as mutated so far. *)
Definition v2_to_v3 (tick : nat) (encoded : gmap string json)
  : gmap string json * nat * option exn :=
  match add_deleted_in "videos" tick encoded with
  | (enc1, t1, Some e) => (enc1, t1, Some e)
  | (enc1, t1, None) =>
      match add_deleted_in "livestreams" t1 enc1 with
      | (enc2, t2, Some e) => (enc2, t2, Some e)
      | (enc2, t2, None) => add_deleted_in "shorts" t2 enc2
      end
  end.

(** The branch for an unknown version: [_err_msg(...)] then [sys.exit(1)]. *)
Definition unknown_version (encoded : gmap string json) : outcome :=
  match em with
  | ErrMsgExits code => Exited code encoded
  | ErrMsgReturns => Exited 1 encoded
  end.

(** [migrate_step], the recursion of the source bounded by [fuel] calls;
    [None] when the bound is reached. *)
Fixpoint migrate_step (fuel : nat) (expected_version : Z) (tick : nat)
    (cur : Z) (encoded : gmap string json) : option outcome :=
  match fuel with
  | O => None
  | S fuel' =>
      if cur =? expected_version then Some (Returned encoded)
      else if cur =? 1 then
        match v1_to_v2 encoded with
        | inr e => Some (Raised e encoded)
        | inl enc' =>
            migrate_step fuel' expected_version tick (cur + 1)
              (<["version" := JNum (cur + 1)]> enc')
        end
      else if cur =? 2 then
        match v2_to_v3 tick encoded with
        | (enc', _, Some e) => Some (Raised e enc')
        | (enc', tick', None) =>
            migrate_step fuel' expected_version tick' (cur + 1)
              (<["version" := JNum (cur + 1)]> enc')
        end
      else Some (unknown_version encoded)
  end.

(** A chain 1 -> 2 -> 3 and a last call that returns or exits: three calls
    of [migrate_step] at most. *)
Definition migrate_depth : nat := 3.

Definition _migrate_archive (current_version expected_version : Z)
    (encoded : gmap string json) : option outcome :=
  migrate_step migrate_depth expected_version 0 current_version encoded.

(** [Channel.load], from the decoded file to the dictionary handed to
    [Channel._from_dict]: the version check and the migration. A [bool] is
    an [int] in Python; any other non-number differs from every version. *)
Definition load_encoded (encoded : gmap string json) : option outcome :=
  match encoded !! "version" with
  | None => Some (Raised (KeyError "version") encoded)
  | Some (JNum archive_version) =>
      if archive_version =? ARCHIVE_COMPAT then Some (Returned encoded)
      else _migrate_archive archive_version ARCHIVE_COMPAT encoded
  | Some (JBool b) =>
      _migrate_archive (Z.b2z b) ARCHIVE_COMPAT encoded
  | Some _ => Some (unknown_version encoded)
  end.

End WithClock.

(** A version-1 document as [commit] wrote it: the channel id is a string
    and the videos are a list of records. *)
Definition is_record (v : json) : bool :=
  match v with JDict _ => true | _ => false end.

Definition v1_document (encoded : gmap string json) : Prop :=
  (exists id, encoded !! "id" = Some (JStr id)) /\
  (exists videos, encoded !! "videos" = Some (JList videos) /\
                  forallb is_record videos = true).

End Migrate.

(** ** Strings *)

(** [needle in hay] on Python strings. *)
Fixpoint str_in (needle hay : string) : bool :=
  String.prefix needle hay ||
  match hay with
  | EmptyString => false
  | String _ hay' => str_in needle hay'
  end.

(** [s.split(sep)] for a non-empty [sep]: separators are found left to
    right and do not overlap. [skip] counts the characters of a separator
    still to be passed over, [cur] holds the current piece reversed. *)
Fixpoint split_go (sep s : string) (skip : nat) (cur : list ascii) : list string :=
  match s with
  | EmptyString => [String.string_of_list_ascii (rev cur)]
  | String c s' =>
      match skip with
      | S k => split_go sep s' k cur
      | O =>
          if String.prefix sep s
          then String.string_of_list_ascii (rev cur)
                 :: split_go sep s' (Nat.pred (String.length sep)) []
          else split_go sep s' O (c :: cur)
      end
  end.

Definition split (sep s : string) : list string := split_go sep s O [].

(** [s.lower()] on the ASCII letters. *)
Definition lower_ascii (c : ascii) : ascii :=
  let n := nat_of_ascii c in
  if ((65 <=? n)%nat && (n <=? 90)%nat)%bool then ascii_of_nat (n + 32) else c.

Fixpoint lower (s : string) : string :=
  match s with
  | EmptyString => EmptyString
  | String c s' => String (lower_ascii c) (lower s')
  end.

(** [title.split(" - ")[-1].lower()] *)
Definition kind_of_title (title : string) : string :=
  lower (List.last (split " - " title) EmptyString).

(** ** Data model *)

(** Addresses of [Video] objects. *)
Definition addr : Type := nat.

(** A metadata entry of the extraction engine, as far as the archive reads
    it. [formats] is [None] when the dictionary has no "formats" key. *)
Record Entry : Type := mkEntry {
  entry_id : string;
  entry_title : string;
  entry_description : string;
  entry_view_count : Z;
  entry_like_count : Z;
  entry_thumbnail : string;
  entry_upload_date : Z;
  formats : option (list string)
}.

(** A top-level element of [res["entries"]]: a metadata dictionary that may
    carry an "entries" list of its own (a group of the channel's tabs). *)
Record TopEntry : Type := mkTopEntry {
  top : Entry;
  entries : option (list Entry)
}.

Module Video.

(** Modelled from the spec: the class [Video] of yark/video.py is not in
    channel.py. An item has a stable identifier, an upload timestamp, and
    value histories for title, description, view count, like count,
    thumbnail and the deletion flag; [known_not_deleted] is the mark
    "observed in this refresh pass" read by [_report_deleted]. *)
Record t : Type := mk {
  id : string;
  uploaded : Z;
  title : Element string;
  description : Element string;
  views : Element Z;
  likes : Element Z;
  thumbnail : Element string;
  deleted : Element bool;
  known_not_deleted : bool
}.

Definition set_deleted (d : Element bool) (v : t) : t :=
  mk (id v) (uploaded v) (title v) (description v) (views v) (likes v)
     (thumbnail v) d (known_not_deleted v).

(** Modelled from the spec: an item is created when a refresh first
    observes an entry with its identifier; every history is seeded from the
    entry, the deletion flag with false, and the item counts as observed in
    the pass that created it. *)
Definition new (now : Z) (entry : Entry) : t :=
  mk (entry_id entry) (entry_upload_date entry)
     (Element_new now (entry_title entry))
     (Element_new now (entry_description entry))
     (Element_new now (entry_view_count entry))
     (Element_new now (entry_like_count entry))
     (Element_new now (entry_thumbnail entry))
     (Element_new now false)
     true.

(** Modelled from the spec: [update(rawEntry)] updates each mapped value
    history and marks the item as observed in this refresh pass. *)
Definition update (now : Z) (entry : Entry) (v : t) : t :=
  mk (id v) (uploaded v)
     (Element_update now (entry_title entry) (title v))
     (Element_update now (entry_description entry) (description v))
     (Element_update now (entry_view_count entry) (views v))
     (Element_update now (entry_like_count entry) (likes v))
     (Element_update now (entry_thumbnail entry) (thumbnail v))
     (deleted v)
     true.

Definition dummy : t :=
  mk EmptyString 0 (Element_new 0 EmptyString) (Element_new 0 EmptyString)
     (Element_new 0 0) (Element_new 0 0) (Element_new 0 EmptyString)
     (Element_new 0 false) false.

End Video.

#[global] Instance Video_inhabited : Inhabited Video.t := populate Video.dummy.

Module Reporter.

(** The two buckets the archive appends to. *)
Record t : Type := mk {
  added : list addr;
  deleted : list addr
}.

End Reporter.

(** class DownloadConfig *)
Record DownloadConfig : Type := mkDownloadConfig {
  max_videos : option Z;
  max_livestreams : option Z;
  max_shorts : option Z;
  skip_download : bool;
  skip_metadata : bool;
  format : option string
}.

(** The three collections of a channel. *)
Inductive category : Type := Videos | Livestreams | Shorts.

#[global] Instance category_eq_dec : EqDecision category.
Proof. solve_decision. Defined.

(** class Channel; the lists hold the addresses of the [Video] objects. *)
Record Channel : Type := mkChannel {
  version : Z;
  url : string;
  videos : list addr;
  livestreams : list addr;
  shorts : list addr;
  reporter : Reporter.t
}.

(** What the process does to the outside, in order. *)
Inductive event : Type :=
| Curated (not_downloaded : list addr)
| Fetch (urls : list string)
| Skipped (video : addr) (warning : bool)
| Sleep (seconds : Z).

(** The state a call runs in: the heap of [Video] objects, the channel,
    the identifiers that have a media file under [<path>/videos], the
    number of clock readings and of fetch calls made so far, and the
    events so far, oldest first. *)
Record World : Type := mkWorld {
  heap : list Video.t;
  self : Channel;
  media : gset string;
  ticks : nat;
  fetches : nat;
  trace : list event
}.

(** How a call ends. *)
Inductive result (A : Type) : Type :=
| Ok (a : A)
| Raise (e : exn)
| Exit (code : Z).
Arguments Ok {A} _.
Arguments Raise {A} _.
Arguments Exit {A} _.

(** What one call of the fetch engine did: the identifiers whose media
    file it wrote, and the exception it raised if any. *)
Record fetched : Type := mkFetched {
  written : list string;
  failure : option exn
}.

Definition bucket_of (k : category) (c : Channel) : list addr :=
  match k with
  | Videos => videos c
  | Livestreams => livestreams c
  | Shorts => shorts c
  end.

Definition set_bucket (k : category) (l : list addr) (c : Channel) : Channel :=
  match k with
  | Videos => mkChannel (version c) (url c) l (livestreams c) (shorts c) (reporter c)
  | Livestreams => mkChannel (version c) (url c) (videos c) l (shorts c) (reporter c)
  | Shorts => mkChannel (version c) (url c) (videos c) (livestreams c) l (reporter c)
  end.

Definition set_reporter (r : Reporter.t) (c : Channel) : Channel :=
  mkChannel (version c) (url c) (videos c) (livestreams c) (shorts c) r.

Definition set_heap (h : list Video.t) (w : World) : World :=
  mkWorld h (self w) (media w) (ticks w) (fetches w) (trace w).

Definition set_self (c : Channel) (w : World) : World :=
  mkWorld (heap w) c (media w) (ticks w) (fetches w) (trace w).

Definition log (e : event) (w : World) : World :=
  mkWorld (heap w) (self w) (media w) (ticks w) (fetches w) (trace w ++ [e]).

(** The object at an address. *)
Definition deref (w : World) (a : addr) : Video.t := heap w !!! a.

(** Modelled from the spec: [downloaded()] is true iff a media file
    matching the item's identifier exists in the media directory. *)
Definition downloaded (w : World) (a : addr) : bool :=
  bool_decide (Video.id (deref w a) ∈ media w).

(** [reporter.deleted.append(video)] *)
Definition report_deleted (a : addr) (w : World) : World :=
  let r := reporter (self w) in
  set_self (set_reporter (Reporter.mk (Reporter.added r) (Reporter.deleted r ++ [a]))
                         (self w)) w.

(** [reporter.added.append(video)] *)
Definition report_added (a : addr) (w : World) : World :=
  let r := reporter (self w) in
  set_self (set_reporter (Reporter.mk (Reporter.added r ++ [a]) (Reporter.deleted r))
                         (self w)) w.

(** ** Operations of [Channel] *)

Section Archive.

(** [clock k] is the k-th reading of the clock during the run. *)
Variable clock : nat -> Z.
(** What [_err_msg] does. *)
Variable em : err_msg_behaviour.
(** Modelled from the spec: [Video.url()] derives the canonical content URL
    from the identifier; pure, no side effects. *)
Variable watch_url : string -> string.
(** The fetch engine: what the k-th call of [ydl.download(urls)] does. *)
Variable ydl_download : nat -> list string -> fetched.

Definition now (w : World) : Z := clock (ticks w).

Definition tick (w : World) : World :=
  mkWorld (heap w) (self w) (media w) (S (ticks w)) (fetches w) (trace w).

(** [video.deleted.update(None, True)] *)
Definition mark_deleted (a : addr) (w : World) : World :=
  let v := deref w a in
  tick (set_heap
          (<[a := Video.set_deleted (Element_update (now w) true (Video.deleted v)) v]>
             (heap w)) w).

(** *** search *)

Fixpoint search_in (w : World) (id : string) (l : list addr) : result addr :=
  match l with
  | [] => Raise (VideoNotFoundException ("Couldn't find " +:+ id +:+ " inside archive"))
  | video :: rest =>
      if decide (Video.id (deref w video) = id) then Ok video
      else search_in w id rest
  end.

Definition search (id : string) (w : World) : result addr :=
  search_in w id (videos (self w)).

(** *** _curate *)

(** [for ind in range(fixed_maximum): new_videos.append(videos[ind])] *)
Fixpoint take_indices (videos : list addr) (inds : list nat) : result (list addr) :=
  match inds with
  | [] => Ok []
  | ind :: rest =>
      match videos !! ind with
      | None => Raise IndexError
      | Some video =>
          match take_indices videos rest with
          | Ok new_videos => Ok (video :: new_videos)
          | r => r
          end
      end
  end.

(** [range(n)] *)
Definition py_range (n : Z) : list nat := seq 0 (Z.to_nat n).

Definition curate_list (w : World) (videos : list addr) (maximum : option Z)
  : result (list addr) :=
  let available :=
    match maximum with
    | Some maximum =>
        let fixed_maximum :=
          Z.min (Z.max (Z.of_nat (length videos) - 1) 0) maximum in
        take_indices videos (py_range fixed_maximum)
    | None => Ok videos
    end in
  match available with
  | Ok videos => Ok (List.filter (fun video => negb (downloaded w video)) videos)
  | r => r
  end.

Definition _curate (config : DownloadConfig) (w : World) : result (list addr) :=
  match curate_list w (videos (self w)) (max_videos config) with
  | Ok l1 =>
      match curate_list w (livestreams (self w)) (max_livestreams config) with
      | Ok l2 =>
          match curate_list w (shorts (self w)) (max_shorts config) with
          | Ok l3 => Ok (l1 ++ l2 ++ l3)
          | r => r
          end
      | r => r
      end
  | r => r
  end.

(** *** _parse_metadata_videos_comp *)

(** ["formats" not in entry or len(entry["formats"]) == 0] *)
Definition no_formats (entry : Entry) : bool :=
  match formats entry with
  | None => true
  | Some l => (length l =? 0)%nat
  end.

(** [for video in bucket: if video.id == entry["id"]: ... break] *)
Fixpoint find_by_id (w : World) (id : string) (bucket : list addr) : option addr :=
  match bucket with
  | [] => None
  | video :: rest =>
      if decide (Video.id (deref w video) = id) then Some video
      else find_by_id w id rest
  end.

(** Modelled from the spec: items compare by upload timestamp, newest
    first, and ties keep their order; [bucket.sort(reverse=True)] is a
    stable sort under that comparison. *)
Fixpoint insert_newest (w : World) (a : addr) (l : list addr) : list addr :=
  match l with
  | [] => [a]
  | b :: l' =>
      if Video.uploaded (deref w b) <=? Video.uploaded (deref w a)
      then a :: l
      else b :: insert_newest w a l'
  end.

Fixpoint sort_newest (w : World) (l : list addr) : list addr :=
  match l with
  | [] => []
  | a :: l' => insert_newest w a (sort_newest w l')
  end.

(** The body of the loop over the entries of one category. *)
Definition merge_entry (k : category) (entry : Entry) (w : World) : World :=
  if no_formats entry then w
  else
    match find_by_id w (entry_id entry) (bucket_of k (self w)) with
    | Some video =>
        tick (set_heap (<[video := Video.update (now w) entry (deref w video)]> (heap w)) w)
    | None =>
        let video := length (heap w) in
        let w1 := tick (set_heap (heap w ++ [Video.new (now w) entry]) w) in
        let w2 := set_self (set_bucket k (bucket_of k (self w1) ++ [video]) (self w1)) w1 in
        report_added video w2
    end.

Fixpoint merge_entries (k : category) (i : list Entry) (w : World) : World :=
  match i with
  | [] => w
  | entry :: rest => merge_entries k rest (merge_entry k entry w)
  end.

Definition _parse_metadata_videos_comp (i : list Entry) (k : category) (w : World)
  : World :=
  let w1 := merge_entries k i w in
  set_self (set_bucket k (sort_newest w1 (bucket_of k (self w1))) (self w1)) w1.

(** [_parse_metadata_videos] runs the computation on a worker and waits for
    it: leaving the executor's [with] block joins the worker on every
    path. *)
Definition _parse_metadata_videos (i : list Entry) (k : category) (w : World) : World :=
  _parse_metadata_videos_comp i k w.

(** *** _report_deleted *)

Definition report_deleted_one (video : addr) (w : World) : World :=
  if (negb (current (Video.deleted (deref w video)))
      && negb (Video.known_not_deleted (deref w video)))%bool
  then mark_deleted video (report_deleted video w)
  else w.

Fixpoint report_deleted_loop (videos : list addr) (w : World) : World :=
  match videos with
  | [] => w
  | video :: rest => report_deleted_loop rest (report_deleted_one video w)
  end.

Definition _report_deleted (k : category) (w : World) : World :=
  report_deleted_loop (bucket_of k (self w)) w.

(** *** _parse_metadata *)

(** The loop over the groups of a nested document; the accumulator holds
    the locals [videos], [livestreams] and [shorts]. *)
Fixpoint normalize_groups (groups : list TopEntry)
    (acc : list Entry * list Entry * list Entry)
  : result (list Entry * list Entry * list Entry) :=
  match groups with
  | [] => Ok acc
  | entry :: rest =>
      let '(vs, ls, ss) := acc in
      let kind := kind_of_title (entry_title (top entry)) in
      if decide (kind = "videos") then
        match entries entry with
        | None => Raise (KeyError "entries")
        | Some es => normalize_groups rest (es, ls, ss)
        end
      else if decide (kind = "live") then
        match entries entry with
        | None => Raise (KeyError "entries")
        | Some es => normalize_groups rest (vs, es, ss)
        end
      else if decide (kind = "shorts") then
        match entries entry with
        | None => Raise (KeyError "entries")
        | Some es => normalize_groups rest (vs, ls, es)
        end
      else
        match em with
        | ErrMsgReturns => normalize_groups rest acc
        | ErrMsgExits code => Exit code
        end
  end.

(** [res] is the list [res["entries"]]. *)
Definition normalize (res : list TopEntry)
  : result (list Entry * list Entry * list Entry) :=
  match res with
  | [] => Raise IndexError
  | first :: _ =>
      match entries first with
      | None => Ok (top <$> res, [], [])
      | Some _ => normalize_groups res ([], [], [])
      end
  end.

Definition merge_all (n : list Entry * list Entry * list Entry) (w : World) : World :=
  let '(vs, ls, ss) := n in
  _parse_metadata_videos ss Shorts
    (_parse_metadata_videos ls Livestreams
       (_parse_metadata_videos vs Videos w)).

Definition sweep_all (w : World) : World :=
  _report_deleted Shorts (_report_deleted Livestreams (_report_deleted Videos w)).

Definition _parse_metadata (res : list TopEntry) (w : World) : result unit * World :=
  match normalize res with
  | Ok n => (Ok tt, sweep_all (merge_all n w))
  | Raise e => (Raise e, w)
  | Exit code => (Exit code, w)
  end.

(** *** _skip_video *)

Fixpoint _skip_video (w : World) (videos : list addr) : result (list addr * addr) :=
  match videos with
  | [] =>
      Raise (Exception
        "We expected to skip a video and return it but nothing to skip was found")
  | video :: rest =>
      if negb (downloaded w video) then Ok (rest, video)
      else _skip_video w rest
  end.

(** *** _err_dl *)

(** The message only depends on [name] and [exception]; what follows it
    depends on [retrying]: [time.sleep(5)], or [_err_msg] and
    [sys.exit(1)]. *)
Definition _err_dl (name : string) (exception : exn) (retrying : bool) (w : World)
  : result unit * World :=
  if retrying then (Ok tt, log (Sleep 5) w)
  else
    match em with
    | ErrMsgReturns => (Exit 1, w)
    | ErrMsgExits code => (Exit code, w)
    end.

(** *** download *)

Definition is_private_or_removed (msg : string) : bool :=
  str_in "Private video" msg
  || str_in "This video has been removed by the uploader" msg.

Definition is_too_short (msg : string) : bool :=
  str_in " bytes, expected " msg.

(** One round of the loop [while True]: it ends the loop with a result, or
    goes round again with a shorter list. *)
Inductive round : Type :=
| Done (r : result unit) (w : World)
| Again (not_downloaded : list addr) (w : World).

Definition fetch (urls : list string) (w : World) : option exn * World :=
  let r := ydl_download (fetches w) urls in
  (failure r,
   mkWorld (heap w) (self w) (media w ∪ list_to_set (written r)) (ticks w)
           (S (fetches w)) (trace w ++ [Fetch urls])).

Definition fetch_round (not_downloaded : list addr) (w : World) : round :=
  let urls := (fun video => watch_url (Video.id (deref w video))) <$> not_downloaded in
  match fetch urls w with
  | (None, w1) => Done (Ok tt) w1
  | (Some (DownloadError msg), w1) =>
      if is_private_or_removed msg then
        match _skip_video w1 not_downloaded with
        | Ok (rest, video) =>
            let w2 := log (Skipped video false) w1 in
            if negb (current (Video.deleted (deref w2 video)))
            then Again rest (mark_deleted video (report_deleted video w2))
            else Again rest w2
        | Raise e => Done (Raise e) w1
        | Exit code => Done (Exit code) w1
        end
      else if is_too_short msg then
        match _skip_video w1 not_downloaded with
        | Ok (rest, video) => Again rest (log (Skipped video true) w1)
        | Raise e => Done (Raise e) w1
        | Exit code => Done (Exit code) w1
        end
      else Done (Raise (DownloadError msg)) w1
  | (Some e, w1) => Done (Raise e) w1
  end.

(** The loop [while True], bounded by [fuel] rounds; [None] when the bound
    is reached. *)
Fixpoint fetch_loop (fuel : nat) (not_downloaded : list addr) (w : World)
  : option (result unit * World) :=
  match fuel with
  | O => None
  | S fuel' =>
      match fetch_round not_downloaded w with
      | Done r w' => Some (r, w')
      | Again rest w' => fetch_loop fuel' rest w'
      end
  end.

(** The body of the [try] of one attempt. Every round but the last drops
    an item of the list, so one round more than the list is long is
    enough. *)
Definition attempt (config : DownloadConfig) (w : World)
  : option (result unit * World) :=
  match _curate config w with
  | Ok not_downloaded =>
      let w1 := log (Curated not_downloaded) w in
      if (length not_downloaded =? 0)%nat then Some (Ok tt, w1)
      else fetch_loop (S (length not_downloaded)) not_downloaded w1
  | Raise e => Some (Raise e, w)
  | Exit code => Some (Exit code, w)
  end.

(** [for i in range(5)], from attempt [i] with [remaining] attempts to
    go. *)
Fixpoint download_loop (remaining : nat) (i : Z) (config : DownloadConfig) (w : World)
  : option (result unit * World) :=
  match remaining with
  | O => Some (Ok tt, w)
  | S remaining' =>
      match attempt config w with
      | None => None
      | Some (Ok _, w1) => Some (Ok tt, w1)
      | Some (Exit code, w1) => Some (Exit code, w1)
      | Some (Raise exception, w1) =>
          match _err_dl "videos" exception (negb (i =? 4)) w1 with
          | (Ok _, w2) => download_loop remaining' (i + 1) config w2
          | (r, w2) => Some (r, w2)
          end
      end
  end.

(** [download], from the point where the downloader is attached. *)
Definition download (config : DownloadConfig) (w : World)
  : option (result unit * World) :=
  download_loop 5 0 config w.

End Archive.

(** ** Predicates of the statements *)

(** The items of the three collections, in the order they are swept. *)
Definition all_videos (c : Channel) : list addr :=
  videos c ++ livestreams c ++ shorts c.

(** The collections hold live, pairwise distinct objects. *)
Definition well_formed (w : World) : Prop :=
  NoDup (all_videos (self w)) /\
  forall a, a ∈ all_videos (self w) -> (a < length (heap w))%nat.

(** Not marked as observed, and the deletion history not already true. *)
Definition unseen_undeleted (w : World) (a : addr) : bool :=
  negb (current (Video.deleted (deref w a)))
  && negb (Video.known_not_deleted (deref w a)).

(** [a] may stand before [b] in a collection sorted newest first. *)
Definition newest_first (w : World) (a b : addr) : Prop :=
  Video.uploaded (deref w b) <= Video.uploaded (deref w a).

(** The entries of a normalized document that belong to a category. *)
Definition entries_of (k : category) (n : list Entry * list Entry * list Entry)
  : list Entry :=
  match k with
  | Videos => n.1.1
  | Livestreams => n.1.2
  | Shorts => n.2
  end.

(** The identifiers of the entries that have a format. *)
Definition observed_ids (i : list Entry) : list string :=
  entry_id <$> List.filter (fun entry => negb (no_formats entry)) i.

(** The attempts and the delays in a sequence of events. *)
Definition curations (t : list event) : nat :=
  length (List.filter (fun e => match e with Curated _ => true | _ => false end) t).

Definition sleeps (t : list event) : list Z :=
  omap (fun e => match e with Sleep s => Some s | _ => None end) t.

(** What a merge leaves alone: the objects that exist keep their identity,
    upload time and deletion history, a mark is never taken back, and the
    "deleted" bucket is not written. *)
Definition merge_preserves (w w' : World) : Prop :=
  (length (heap w) <= length (heap w'))%nat /\
  Reporter.deleted (reporter (self w')) = Reporter.deleted (reporter (self w)) /\
  all_videos (self w')
    ≡ₚ all_videos (self w) ++ seq (length (heap w)) (length (heap w') - length (heap w)) /\
  forall a, (a < length (heap w))%nat ->
    Video.id (deref w' a) = Video.id (deref w a) /\
    Video.uploaded (deref w' a) = Video.uploaded (deref w a) /\
    Video.deleted (deref w' a) = Video.deleted (deref w a) /\
    (Video.known_not_deleted (deref w a) = true ->
     Video.known_not_deleted (deref w' a) = true).

(** Events of the fetch rounds only: no curation and no delay. *)
Definition quiet (t : list event) : Prop := curations t = 0%nat /\ sleeps t = [].

(** The status the process ends with after [_err_msg] and [sys.exit(1)]. *)
Definition exit_code (em : err_msg_behaviour) : Z :=
  match em with ErrMsgReturns => 1 | ErrMsgExits code => code end.

(** The records [l'] are the records [l], each with a "deleted" history of
    one snapshot holding false, taken at the clock readings from [offset]
    on, and otherwise as it was. *)
Definition stamped (clock : nat -> Z) (offset : nat) (l l' : list json) : Prop :=
  length l' = length l /\
  forall k d, l !! k = Some (JDict d) ->
    l' !! k = Some (JDict (<["deleted" :=
                 JDict {[ "history" :=
                   JList [JList [JNum (clock (offset + k)%nat); JBool false]] ]}]> d)).

(** A failure of the fetch engine that is of neither class the inner loop
    handles: not "private or removed" and not "bytes, expected". *)
Definition unclassified (e : exn) : Prop :=
  forall msg, e = DownloadError msg ->
    is_private_or_removed msg = false /\ is_too_short msg = false.

(** The events of [k] failed attempts on the curated list [l], each
    followed by its delay. *)
Definition failed_attempts (l : list addr) (urls : list string) (k : nat) : list event :=
  concat (replicate k [Curated l; Fetch urls; Sleep 5]).

(** ** Sample data *)

Module Sample.

Definition clock (k : nat) : Z := 1700000000 + Z.of_nat k.

Definition watch_url (id : string) : string :=
  "https://www.youtube.com/watch?v=" +:+ id.

Definition entry (id : string) (date : Z) (fmts : option (list string)) : Entry :=
  mkEntry id id "about" 0 0 "thumb" date fmts.

(** An item as it is after the archive was loaded: not marked as observed,
    not deleted. *)
Definition video (id : string) (date : Z) : Video.t :=
  Video.mk id date (Element_new 0 id) (Element_new 0 "about") (Element_new 0 0)
    (Element_new 0 0) (Element_new 0 "thumb") (Element_new 0 false) false.

(** Three videos and one livestream, none of them downloaded. *)
Definition world : World :=
  mkWorld [video "a" 30; video "b" 20; video "c" 10; video "x" 5]
    (mkChannel 3 "https://www.youtube.com/channel/UCabc" [0%nat; 1%nat; 2%nat] [3%nat] []
       (Reporter.mk [] []))
    ∅ 0 0 [].

(** An empty archive. *)
Definition empty : World :=
  mkWorld [] (mkChannel 3 "https://www.youtube.com/channel/UCabc" [] [] []
                (Reporter.mk [] []))
    ∅ 0 0 [].

Definition config (m : option Z) : DownloadConfig :=
  mkDownloadConfig m None None false false None.

(** A fetch engine whose first call writes the media of "a" and then fails
    on a video removed by its owner; the later calls fetch everything. *)
Definition engine_removed (k : nat) (urls : list string) : fetched :=
  match k with
  | O => mkFetched ["a"]
           (Some (DownloadError "ERROR: [youtube] b: This video has been removed by the uploader"))
  | _ => mkFetched ["c"; "x"] None
  end.

(** A fetch engine whose first call fails on a truncated file. *)
Definition engine_too_short (k : nat) (urls : list string) : fetched :=
  match k with
  | O => mkFetched [] (Some (DownloadError "ERROR: Did not get any data blocks; 10 bytes, expected 20"))
  | _ => mkFetched ["a"; "b"; "c"; "x"] None
  end.

(** A fetch engine whose first call writes every media file and then
    fails on a private video. *)
Definition engine_private (k : nat) (urls : list string) : fetched :=
  match k with
  | O => mkFetched ["a"; "b"; "c"; "x"]
           (Some (DownloadError "ERROR: [youtube] c: Private video. Sign in"))
  | _ => mkFetched [] None
  end.

(** A fetch engine that fetches whatever it is given. *)
Definition engine_ok (k : nat) (urls : list string) : fetched :=
  mkFetched ["a"; "b"; "c"; "x"] None.

(** A fetch engine that cannot reach the server. *)
Definition engine_down (k : nat) (urls : list string) : fetched :=
  mkFetched [] (Some (DownloadError "<urlopen error timed out>")).

(** A fetch engine that cannot reach the server twice and then fetches
    everything. *)
Definition engine_flaky (k : nat) (urls : list string) : fetched :=
  match k with
  | 0%nat | 1%nat => mkFetched [] (Some (DownloadError "<urlopen error timed out>"))
  | _ => mkFetched ["a"; "b"; "c"; "x"] None
  end.



(** A nested metadata document: the tab of the ordinary videos and a tab
    the archive does not know. *)
Definition group (title : string) (es : list Entry) : TopEntry :=
  mkTopEntry (mkEntry "UCabc" title "about" 0 0 "thumb" 0 None) (Some es).

Definition nested : list TopEntry :=
  [ group "Some channel - Videos" [entry "a" 30 (Some ["mp4"])];
    group "Some channel - Podcasts" [entry "p" 40 (Some ["mp4"])] ].

(** A version-1 archive document with one video. *)
Definition v1 : gmap string json :=
  {[ "version" := JNum 1;
     "id" := JStr "UCabc";
     "videos" := JList [JDict {[ "id" := JStr "a"; "uploaded" := JNum 30 ]}] ]}.

(** A version-1 archive document without videos. *)
Definition v1_empty : gmap string json :=
  {[ "version" := JNum 1; "id" := JStr "UCabc"; "videos" := JList [] ]}.

(** An environment in which [Video._new_empty()] raises. *)
Definition new_empty_broken : Migrate.new_empty_behaviour :=
  Migrate.NewEmptyRaises (NameError "Channel").

(** A document of a version the code does not know. *)
Definition v7 : gmap string json :=
  {[ "version" := JNum 7; "url" := JStr "https://www.youtube.com/channel/UCabc";
     "videos" := JList []; "livestreams" := JList []; "shorts" := JList [] ]}.

(** A codec for the sample items that keeps the identifier and the upload
    time. *)
Definition video_to_dict (v : Video.t) : json :=
  JDict {[ "id" := JStr (Video.id v); "uploaded" := JNum (Video.uploaded v) ]}.

Definition video_from_dict (j : json) : result Video.t :=
  match j with
  | JDict d =>
      match d !! "id", d !! "uploaded" with
      | Some (JStr id), Some (JNum date) => Ok (video id date)
      | _, _ => Raise (KeyError "id")
      end
  | _ => Raise TypeError
  end.

(** An extraction engine that fails twice and then returns a flat
    document. *)
Definition extract_third (i : nat) : result (list TopEntry) :=
  match i with
  | 2%nat => Ok [mkTopEntry (entry "a" 30 (Some ["mp4"])) None]
  | _ => Raise (DownloadError "<urlopen error timed out>")
  end.

(** An extraction engine that always fails. *)
Definition extract_never (i : nat) : result (list TopEntry) :=
  Raise (DownloadError "HTTP Error 404: Not Found").

(** A version-2 archive document with one record in each collection. *)
Definition v2 : gmap string json :=
  {[ "version" := JNum 2;
     "url" := JStr "https://www.youtube.com/channel/UCabc";
     "videos" := JList [JDict {[ "id" := JStr "a" ]}];
     "livestreams" := JList [JDict {[ "id" := JStr "x" ]}];
     "shorts" := JList [JDict {[ "id" := JStr "s" ]}] ]}.

(** A version-2 archive document without items. *)
Definition v2_empty : gmap string json :=
  {[ "version" := JNum 2;
     "url" := JStr "https://www.youtube.com/channel/UCabc";
     "videos" := JList []; "livestreams" := JList []; "shorts" := JList [] ]}.

End Sample.

(** ** The rest of the module *)

(** [DownloadConfig.__init__] *)
Definition DownloadConfig_init : DownloadConfig :=
  mkDownloadConfig None None None false false None.

(** [maximum == 0] on an optional integer: [None == 0] is false. *)
Definition is_zero (maximum : option Z) : bool :=
  match maximum with
  | Some n => n =? 0
  | None => false
  end.

(** [DownloadConfig.submit] *)
Definition submit (config : DownloadConfig) : DownloadConfig :=
  let no_maximums :=
    (bool_decide (max_videos config = None)
     && bool_decide (max_livestreams config = None)
     && bool_decide (max_shorts config = None))%bool in
  let config1 :=
    if negb no_maximums then
      mkDownloadConfig
        (match max_videos config with None => Some 0 | m => m end)
        (match max_livestreams config with None => Some 0 | m => m end)
        (match max_shorts config with None => Some 0 | m => m end)
        (skip_download config) (skip_metadata config) (format config)
    else config in
  if (is_zero (max_videos config1) && is_zero (max_livestreams config1)
      && is_zero (max_shorts config1))%bool
  then mkDownloadConfig (max_videos config1) (max_livestreams config1)
         (max_shorts config1) true (skip_metadata config1) (format config1)
  else config1.

Section Metadata.

Variable clock : nat -> Z.
Variable em : err_msg_behaviour.
(** The extraction engine: what the call [ydl.extract_info(self.url,
    download=False)] of attempt [i] does, the result being the list
    [res["entries"]]. *)
Variable extract_info : nat -> result (list TopEntry).

(** [_download_metadata]: [for i in range(3)], from attempt [i] with
    [remaining] attempts to go. [Ok None] is the end of the loop, where the
    function returns nothing. *)
Fixpoint _download_metadata_loop (remaining : nat) (i : nat) (w : World)
  : result (option (list TopEntry)) * World :=
  match remaining with
  | O => (Ok None, w)
  | S remaining' =>
      match extract_info i with
      | Ok res => (Ok (Some res), w)
      | Exit code => (Exit code, w)
      | Raise exception =>
          match _err_dl em "metadata" exception (negb (i =? 2)%nat) w with
          | (Ok _, w1) => _download_metadata_loop remaining' (S i) w1
          | (Raise e, w1) => (Raise e, w1)
          | (Exit code, w1) => (Exit code, w1)
          end
      end
  end.

Definition _download_metadata (w : World) : result (option (list TopEntry)) * World :=
  _download_metadata_loop 3 0 w.

(** [metadata]: the download runs on a worker whose result, exception or
    exit is taken over by [future.result()]; then the result is parsed.
    Subscripting [None] raises TypeError. *)
Definition metadata (w : World) : result unit * World :=
  match _download_metadata w with
  | (Ok (Some res), w1) => _parse_metadata clock em res w1
  | (Ok None, w1) => (Raise TypeError, w1)
  | (Raise e, w1) => (Raise e, w1)
  | (Exit code, w1) => (Exit code, w1)
  end.

End Metadata.

Section Codec.

(** [Video._to_dict] and [Video._from_dict] belong to yark/video.py. *)
Variable Video_to_dict : Video.t -> json.
Variable Video_from_dict : json -> result Video.t.

(** [Channel._to_dict] *)
Definition _to_dict (w : World) : gmap string json :=
  let encode := fun l : list addr => JList ((fun a => Video_to_dict (deref w a)) <$> l) in
  <["version" := JNum (version (self w))]>
    (<["url" := JStr (url (self w))]>
       (<["videos" := encode (videos (self w))]>
          (<["livestreams" := encode (livestreams (self w))]>
             (<["shorts" := encode (shorts (self w))]> ∅)))).

(** [[Video._from_dict(video, channel) for video in items]]: the decoded
    objects are allocated at the end of the heap, in order. *)
Fixpoint decode_all (h : list Video.t) (items : list json)
  : result (list Video.t * list addr) :=
  match items with
  | [] => Ok (h, [])
  | video :: rest =>
      match Video_from_dict video with
      | Ok v =>
          match decode_all (h ++ [v]) rest with
          | Ok (h', l) => Ok (h', length h :: l)
          | r => r
          end
      | Raise e => Raise e
      | Exit code => Exit code
      end
  end.

(** The comprehension over [encoded[key]]. [None] stands for a case the
    model leaves out: a non-empty dictionary in the place of the list, whose
    keys Python would visit in insertion order. *)
Definition decode_key (key : string) (encoded : gmap string json) (h : list Video.t)
  : option (result (list Video.t * list addr)) :=
  match encoded !! key with
  | None => Some (Raise (KeyError key))
  | Some (JList items) => Some (decode_all h items)
  | Some (JStr s) =>
      Some (decode_all h
              ((fun c => JStr (String c EmptyString)) <$> String.list_ascii_of_string s))
  | Some (JDict d) => if decide (d = ∅) then Some (Ok (h, [])) else None
  | Some _ => Some (Raise TypeError)
  end.

(** [Channel._from_dict], on the heap [h]. The class declares
    [version: int] and [url: str]; a document whose version is not an
    integer or whose url is not a string decodes to a channel that has no
    counterpart here, which is the second case the model leaves out. The
    reporter of the new channel has empty buckets. *)
Definition _from_dict (encoded : gmap string json) (h : list Video.t)
  : option (result (list Video.t * Channel)) :=
  match encoded !! "version" with
  | None => Some (Raise (KeyError "version"))
  | Some v =>
      match encoded !! "url" with
      | None => Some (Raise (KeyError "url"))
      | Some u =>
          match decode_key "videos" encoded h with
          | None => None
          | Some (Raise e) => Some (Raise e)
          | Some (Exit code) => Some (Exit code)
          | Some (Ok (h1, vs)) =>
              match decode_key "livestreams" encoded h1 with
              | None => None
              | Some (Raise e) => Some (Raise e)
              | Some (Exit code) => Some (Exit code)
              | Some (Ok (h2, ls)) =>
                  match decode_key "shorts" encoded h2 with
                  | None => None
                  | Some (Raise e) => Some (Raise e)
                  | Some (Exit code) => Some (Exit code)
                  | Some (Ok (h3, ss)) =>
                      match v, u with
                      | JNum n, JStr s =>
                          Some (Ok (h3, mkChannel n s vs ls ss (Reporter.mk [] [])))
                      | _, _ => None
                      end
                  end
              end
          end
      end
  end.

End Codec.

(** ** Predicates of the further statements *)

(** What a download leaves alone: the collections, the "added" bucket,
    the objects' identity, upload time, mark and every history but the
    deletion flag, which is never taken back; media files are only added
    and the "deleted" bucket and the events only grow. *)
Definition download_preserves (w w' : World) : Prop :=
  length (heap w') = length (heap w) /\
  videos (self w') = videos (self w) /\
  livestreams (self w') = livestreams (self w) /\
  shorts (self w') = shorts (self w) /\
  Reporter.added (reporter (self w')) = Reporter.added (reporter (self w)) /\
  media w ⊆ media w' /\
  (fetches w <= fetches w')%nat /\
  (exists t, trace w' = trace w ++ t) /\
  (exists l, Reporter.deleted (reporter (self w'))
             = Reporter.deleted (reporter (self w)) ++ l) /\
  forall a,
    Video.set_deleted (Video.deleted (deref w a)) (deref w' a) = deref w a /\
    (current (Video.deleted (deref w a)) = true ->
     Video.deleted (deref w' a) = Video.deleted (deref w a)).

(** The identifiers of a collection are pairwise distinct. *)
Definition unique_ids (w : World) (l : list addr) : Prop :=
  NoDup ((fun a => Video.id (deref w a)) <$> l).

(** The addresses of a collection are live. *)
Definition live (w : World) (l : list addr) : Prop :=
  forall a, a ∈ l -> (a < length (heap w))%nat.

(** The number of items a maximum allows. *)
Definition allowance (maximum : option Z) (available : nat) : nat :=
  match maximum with
  | Some n => Z.to_nat n
  | None => available
  end.

(** The items [l] were appended to the "deleted" bucket between [w] and
    [w']: each is an item of the collections, appended once, whose deletion
    flag was not true before and is true after. *)
Definition newly_deleted (w w' : World) (l : list addr) : Prop :=
  Reporter.deleted (reporter (self w')) = Reporter.deleted (reporter (self w)) ++ l /\
  NoDup l /\
  forall a, a ∈ l ->
    a ∈ all_videos (self w) /\
    current (Video.deleted (deref w a)) = false /\
    current (Video.deleted (deref w' a)) = true.

(** The world after [k] delays of five seconds. *)
Definition after_delays (k : nat) (w : World) : World :=
  Nat.iter k (log (Sleep 5)) w.

(** The "entries" of the last group of a kind, [default] when no group is
    of that kind. *)
Fixpoint last_of_kind (kind : string) (groups : list TopEntry) (default : list Entry)
  : list Entry :=
  match groups with
  | [] => default
  | group :: rest =>
      last_of_kind kind rest
        (if decide (kind_of_title (entry_title (top group)) = kind)
         then List.concat (option_list (entries group))
         else default)
  end.

(** A group the archive knows, with its "entries". *)
Definition known_group (group : TopEntry) : Prop :=
  kind_of_title (entry_title (top group)) ∈ ["videos"; "live"; "shorts"] /\
  entries group <> None.

(** Some item of the collection [l] has the identifier [id]. *)
Definition present (w : World) (l : list addr) (id : string) : Prop :=
  exists a, a ∈ l /\ Video.id (deref w a) = id.

(** What a merge adds: the "added" bucket grows by the addresses of the
    objects allocated, in the order of allocation, and these objects are
    marked as observed. *)
Definition merge_adds (w w' : World) : Prop :=
  Reporter.added (reporter (self w'))
    = Reporter.added (reporter (self w))
      ++ seq (length (heap w)) (length (heap w') - length (heap w)) /\
  forall a, (length (heap w) <= a < length (heap w'))%nat ->
            Video.known_not_deleted (deref w' a) = true.

(** * The model on the sample data *)

Example kind_of_title_videos : kind_of_title "Some channel - Videos" = "videos".
Proof. reflexivity. Qed.

Example kind_of_title_plain : kind_of_title "Shorts" = "shorts".
Proof. reflexivity. Qed.

Example split_left_to_right : split " - " "a - - b" = ["a"; "- b"].
Proof. reflexivity. Qed.

Example split_trailing : split " - " "a - b - " = ["a"; "b"; EmptyString].
Proof. reflexivity. Qed.

Example str_in_private : str_in "Private video" "ERROR: Private video. Sign in" = true.
Proof. reflexivity. Qed.

Example str_in_absent : str_in " bytes, expected " "HTTP Error 404: Not Found" = false.
Proof. reflexivity. Qed.

(** Three undownloaded videos: a maximum of 2 keeps the first two, a
    maximum of 0 or below keeps none, no maximum keeps them all. *)
Example curate_list_max_2 :
  curate_list Sample.world [0%nat; 1%nat; 2%nat] (Some 2) = Ok [0%nat; 1%nat].
Proof. vm_compute. reflexivity. Qed.

Example curate_list_max_0 :
  curate_list Sample.world [0%nat; 1%nat; 2%nat] (Some 0) = Ok [].
Proof. vm_compute. reflexivity. Qed.

Example curate_list_max_negative :
  curate_list Sample.world [0%nat; 1%nat; 2%nat] (Some (-1)) = Ok [].
Proof. vm_compute. reflexivity. Qed.

Example curate_list_no_max :
  curate_list Sample.world [0%nat; 1%nat; 2%nat] None = Ok [0%nat; 1%nat; 2%nat].
Proof. vm_compute. reflexivity. Qed.

Example _curate_all :
  _curate (Sample.config None) Sample.world = Ok [0%nat; 1%nat; 2%nat; 3%nat].
Proof. vm_compute. reflexivity. Qed.

(** A first refresh of an empty archive from a flat document with one
    entry: one video, reported as added once, nothing reported deleted. *)
Example refresh_first_entry :
  exists w',
    _parse_metadata Sample.clock ErrMsgReturns
      [mkTopEntry (Sample.entry "a" 30 (Some ["mp4"])) None] Sample.empty = (Ok tt, w') /\
    videos (self w') = [0%nat] /\
    Video.id (deref w' 0%nat) = "a" /\
    downloaded w' 0%nat = false /\
    Reporter.added (reporter (self w')) = [0%nat] /\
    Reporter.deleted (reporter (self w')) = [].
Proof. eexists. split; [vm_compute; reflexivity|]. repeat split. Qed.

(** A document without entries: [res["entries"][0]] raises. *)
Example refresh_no_entries :
  _parse_metadata Sample.clock ErrMsgReturns [] Sample.world
    = (Raise IndexError, Sample.world).
Proof. reflexivity. Qed.

(** The second of four items was removed by its owner: it is flagged and
    reported, the two items after it are fetched by a second call, and the
    download returns within the first attempt. *)
Example download_removed_second :
  exists w',
    download Sample.clock ErrMsgReturns Sample.watch_url Sample.engine_removed
      (Sample.config None) Sample.world = Some (Ok tt, w') /\
    trace w' =
      [ Curated [0%nat; 1%nat; 2%nat; 3%nat];
        Fetch (Sample.watch_url <$> ["a"; "b"; "c"; "x"]);
        Skipped 1%nat false;
        Fetch (Sample.watch_url <$> ["c"; "x"]) ] /\
    current (Video.deleted (deref w' 1%nat)) = true /\
    Reporter.deleted (reporter (self w')) = [1%nat].
Proof. eexists. split; [vm_compute; reflexivity|]. repeat split. Qed.

(** An engine that never reaches the server: five attempts, four delays,
    and the process ends with status 1. *)
Example download_server_down :
  exists w',
    download Sample.clock ErrMsgReturns Sample.watch_url Sample.engine_down
      (Sample.config None) Sample.world = Some (Exit 1, w') /\
    curations (trace w') = 5%nat /\
    sleeps (trace w') = [5; 5; 5; 5].
Proof. eexists. split; [vm_compute; reflexivity|]. repeat split. Qed.

(** A version-2 document whose videos are not records: if
    [Video._new_empty()] returns, the loop stops at the first of them with
    a TypeError; if it raises, with its exception. *)
Example migrate_v2_ill_typed :
  Migrate._migrate_archive Sample.clock ErrMsgReturns Migrate.NewEmptyReturns
    2 ARCHIVE_COMPAT {[ "version" := JNum 2; "videos" := JList [JNum 1] ]}
  = Some (Migrate.Raised TypeError {[ "version" := JNum 2; "videos" := JList [JNum 1] ]})
  /\
  Migrate._migrate_archive Sample.clock ErrMsgReturns Sample.new_empty_broken
    2 ARCHIVE_COMPAT {[ "version" := JNum 2; "videos" := JList [JNum 1] ]}
  = Some (Migrate.Raised (NameError "Channel")
            {[ "version" := JNum 2; "videos" := JList [JNum 1] ]}).
Proof. split; vm_compute; reflexivity. Qed.
(** * Properties of the schema migration *)

Section MigrateFacts.
Import Migrate.
Variable clock : nat -> Z.
Variable em : err_msg_behaviour.
Variable ne : new_empty_behaviour.

Lemma add_deleted_records tick videos :
  ne = NewEmptyReturns \/ videos = [] ->
  forallb is_record videos = true ->
  exists videos',
    add_deleted clock ne tick videos = (videos', (tick + length videos)%nat, None) /\
    stamped clock tick videos videos'.
Proof.
  intros [Hne | Hnil] Hrec.
  2:{ subst videos. exists []. cbn. rewrite Nat.add_0_r. split; [done|]. split; [done|].
      intros k d Hk. by rewrite lookup_nil in Hk. }
  revert tick Hrec. induction videos as [|v rest IH]; intros tick Hrec.
  - exists []. cbn. rewrite Nat.add_0_r. split; [done|]. split; [done|].
    intros k d Hk. by rewrite lookup_nil in Hk.
  - cbn in Hrec. apply andb_prop in Hrec as [Hv Hrest].
    destruct v as [| | | | |d0]; try discriminate Hv.
    destruct (IH (S tick) Hrest) as (rest' & Heq & Hlen & Hlk).
    exists (JDict (<["deleted" := fresh_deleted (clock tick)]> d0) :: rest').
    rewrite Hne in Heq |- *. cbn [add_deleted set_deleted]. rewrite Heq. split.
    { replace (tick + length (JDict d0 :: rest))%nat
        with (S tick + length rest)%nat by (cbn; lia). done. }
    split; [cbn; lia|].
    intros [|k] d Hk; rewrite lookup_cons in Hk |- *.
    + injection Hk as ->. by rewrite Nat.add_0_r.
    + rewrite (Hlk k d Hk).
      replace (tick + S k)%nat with (S tick + k)%nat by lia. done.
Qed.

Lemma add_deleted_in_records key tick encoded videos :
  encoded !! key = Some (JList videos) ->
  ne = NewEmptyReturns \/ videos = [] ->
  forallb is_record videos = true ->
  exists videos',
    add_deleted_in clock ne key tick encoded
      = (<[key := JList videos']> encoded, (tick + length videos)%nat, None) /\
    stamped clock tick videos videos'.
Proof.
  intros Hkey Hne Hrec. unfold add_deleted_in. rewrite Hkey. cbn [py_iter].
  destruct (add_deleted_records tick videos Hne Hrec) as (videos' & Heq & Hst).
  exists videos'. by rewrite Heq.
Qed.

Lemma add_deleted_in_empty key tick encoded :
  encoded !! key = Some (JList []) ->
  add_deleted_in clock ne key tick encoded = (encoded, tick, None).
Proof.
  intros Hkey. unfold add_deleted_in. rewrite Hkey. cbn.
  by rewrite insert_id.
Qed.

Lemma add_deleted_in_missing key tick encoded :
  encoded !! key = None ->
  add_deleted_in clock ne key tick encoded = (encoded, tick, Some (KeyError key)).
Proof. intros Hkey. unfold add_deleted_in. by rewrite Hkey. Qed.

(** When [Video._new_empty()] raises, the loop over a collection that has
    an item stops at the first of them, before anything is written. *)
Lemma add_deleted_in_raises key tick encoded e videos :
  ne = NewEmptyRaises e ->
  encoded !! key = Some (JList videos) ->
  videos <> [] ->
  add_deleted_in clock ne key tick encoded = (encoded, tick, Some e).
Proof.
  intros Hne Hkey Hvs. unfold add_deleted_in. rewrite Hkey. cbn [py_iter].
  destruct videos as [|video rest]; [done|].
  cbn [add_deleted]. rewrite Hne. by rewrite insert_id.
Qed.

(** The recursion never needs more than [migrate_depth] calls. *)
Ltac zeqs :=
  repeat match goal with
         | |- context [Z.eqb ?a ?b] => destruct (Z.eqb_spec a b); try lia
         end.

Lemma migrate_step_fuel expected tick cur encoded :
  exists o, forall fuel, (migrate_depth <= fuel)%nat ->
    migrate_step clock em ne fuel expected tick cur encoded = Some o.
Proof.
  unfold migrate_depth.
  destruct (Z.eqb_spec cur expected) as [->|Hne].
  { eexists. intros [|f] Hf; [lia|]. cbn [migrate_step]. by rewrite Z.eqb_refl. }
  destruct (Z.eqb_spec cur 1) as [->|Hne1].
  - destruct (v1_to_v2 encoded) as [enc1|e] eqn:H1.
    2:{ eexists. intros [|f] Hf; [lia|]. cbn [migrate_step]. zeqs. by rewrite H1. }
    change (1 + 1) with 2.
    destruct (Z.eqb_spec 2 expected) as [<-|Hne2].
    { eexists. intros [|[|f]] Hf; try lia. cbn [migrate_step]. zeqs. rewrite H1.
      change (1 + 1) with 2. zeqs. reflexivity. }
    destruct (v2_to_v3 clock ne tick (<["version" := JNum 2]> enc1))
      as [[enc2 t2] [e|]] eqn:H2.
    { eexists. intros [|[|f]] Hf; try lia. cbn [migrate_step]. zeqs. rewrite H1.
      change (1 + 1) with 2. zeqs. by rewrite H2. }
    destruct (Z.eqb_spec 3 expected) as [<-|Hne3];
      (eexists; intros [|[|[|f]]] Hf; try lia; cbn [migrate_step]; zeqs; rewrite H1;
       change (1 + 1) with 2; zeqs; rewrite H2; change (2 + 1) with 3; zeqs; reflexivity).
  - destruct (Z.eqb_spec cur 2) as [->|Hne2].
    + destruct (v2_to_v3 clock ne tick encoded) as [[enc2 t2] [e|]] eqn:H2.
      { eexists. intros [|f] Hf; [lia|]. cbn [migrate_step]. zeqs. by rewrite H2. }
      destruct (Z.eqb_spec 3 expected) as [<-|Hne3];
        (eexists; intros [|[|f]] Hf; try lia; cbn [migrate_step]; zeqs;
         rewrite H2; change (2 + 1) with 3; zeqs; reflexivity).
    + eexists. intros [|f] Hf; [lia|]. cbn [migrate_step]. zeqs. reflexivity.
Qed.

(** A migration to version 3 that returns went through the steps from
    version 1 or 2 and has written the version. *)
Lemma migrate_returns_version cur encoded out :
  cur <> ARCHIVE_COMPAT ->
  _migrate_archive clock em ne cur ARCHIVE_COMPAT encoded = Some (Returned out) ->
  out !! "version" = Some (JNum 3) /\ (cur = 1 \/ cur = 2).
Proof.
  unfold _migrate_archive, migrate_depth, ARCHIVE_COMPAT. intros Hne.
  cbn [migrate_step]. zeqs.
  - destruct (v1_to_v2 encoded) as [enc1|err]; [|done].
    change (1 + 1) with 2. zeqs.
    destruct (v2_to_v3 clock ne 0 _) as [[enc2 t2] [err|]]; [done|].
    change (2 + 1) with 3. zeqs. intros [= <-]. split; [by simplify_map_eq|by left].
  - destruct (v2_to_v3 clock ne 0 _) as [[enc2 t2] [err|]]; [done|].
    change (2 + 1) with 3. zeqs. intros [= <-]. split; [by simplify_map_eq|by right].
  - unfold unknown_version. by destruct em.
Qed.

(** The document a version-1 archive is after the step to version 2. *)
Lemma v1_step encoded id :
  encoded !! "id" = Some (JStr id) ->
  v1_to_v2 encoded
    = inl (<["shorts" := JList []]> (<["livestreams" := JList []]>
             (delete "id" (<["url" := JStr (channel_url_prefix +:+ id)]> encoded)))).
Proof. intros Hid. unfold v1_to_v2. by rewrite Hid. Qed.

Lemma v1_chain encoded id videos :
  encoded !! "id" = Some (JStr id) ->
  encoded !! "videos" = Some (JList videos) ->
  ne = NewEmptyReturns \/ videos = [] ->
  forallb is_record videos = true ->
  exists enc1 videos',
    v1_to_v2 encoded = inl enc1 /\
    enc1 = <["shorts" := JList []]> (<["livestreams" := JList []]>
             (delete "id" (<["url" := JStr (channel_url_prefix +:+ id)]> encoded))) /\
    v2_to_v3 clock ne 0 (<["version" := JNum 2]> enc1)
      = (<["videos" := JList videos']> (<["version" := JNum 2]> enc1),
         length videos, None) /\
    stamped clock 0 videos videos'.
Proof.
  intros Hid Hvideos Hne Hrec.
  set (enc1 := <["shorts" := JList []]> (<["livestreams" := JList []]>
             (delete "id" (<["url" := JStr (channel_url_prefix +:+ id)]> encoded)))).
  exists enc1. rewrite (v1_step encoded id Hid). fold enc1.
  assert (Hv : <["version" := JNum 2]> enc1 !! "videos" = Some (JList videos)).
  { subst enc1. by simplify_map_eq. }
  destruct (add_deleted_in_records "videos" 0 _ videos Hv Hne Hrec)
    as (videos' & Heq & Hst).
  exists videos'. split; [done|]. split; [done|].
  unfold v2_to_v3. rewrite Heq.
  rewrite add_deleted_in_empty; [|subst enc1; by simplify_map_eq].
  rewrite add_deleted_in_empty; [|subst enc1; by simplify_map_eq].
  done.
Qed.

(** C5, on the code. Migrating a version-1 document (the channel id a
    string, the videos a list of records) to version 3 first applies the
    step 1 -> 2: "id" is replaced by "url", the channel-URL prefix
    followed by the old id, "livestreams" and "shorts" become empty lists
    and "version" 2. The step 2 -> 3 calls [Video._new_empty()] for the
    first record. If that call returns, or if there is no record, the
    chain is completed at the third call of the recursion: every record
    of "videos" has got a "deleted" history of one snapshot holding false,
    taken at the clock reading of its turn, and is otherwise as it was,
    "version" is 3, and every other field of the document is unchanged.
    If that call raises and there is a record, the migration ends with its
    exception: the document is left at version 2, its records without a
    "deleted" history, and no version-3 document is returned. *)
Theorem migrate_v1_to_current encoded id videos :
  encoded !! "id" = Some (JStr id) ->
  encoded !! "videos" = Some (JList videos) ->
  forallb is_record videos = true ->
  let enc1 := <["shorts" := JList []]> (<["livestreams" := JList []]>
                (delete "id" (<["url" := JStr (channel_url_prefix +:+ id)]> encoded))) in
  v1_to_v2 encoded = inl enc1 /\
  (ne = NewEmptyReturns \/ videos = [] ->
   exists enc2 t out videos',
     v2_to_v3 clock ne 0 (<["version" := JNum 2]> enc1) = (enc2, t, None) /\
     out = <["version" := JNum 3]> enc2 /\
     _migrate_archive clock em ne 1 ARCHIVE_COMPAT encoded = Some (Returned out) /\
     migrate_step clock em ne 2 ARCHIVE_COMPAT 0 1 encoded = None /\
     out !! "id" = None /\
     out !! "url" = Some (JStr (channel_url_prefix +:+ id)) /\
     out !! "livestreams" = Some (JList []) /\
     out !! "shorts" = Some (JList []) /\
     out !! "version" = Some (JNum 3) /\
     out !! "videos" = Some (JList videos') /\
     length videos' = length videos /\
     (forall k d, videos !! k = Some (JDict d) ->
        videos' !! k
          = Some (JDict (<["deleted" :=
                    JDict {[ "history" :=
                      JList [JList [JNum (clock k); JBool false]] ]}]> d))) /\
     (forall key, key ∉ ["id"; "url"; "livestreams"; "shorts"; "version"; "videos"] ->
        out !! key = encoded !! key)) /\
  (forall e, ne = NewEmptyRaises e -> videos <> [] ->
     let enc2 := <["version" := JNum 2]> enc1 in
     _migrate_archive clock em ne 1 ARCHIVE_COMPAT encoded = Some (Raised e enc2) /\
     enc2 !! "version" = Some (JNum 2) /\
     enc2 !! "id" = None /\
     enc2 !! "url" = Some (JStr (channel_url_prefix +:+ id)) /\
     enc2 !! "videos" = Some (JList videos)).
Proof.
  intros Hid Hvideos Hrec. cbn zeta.
  split; [by apply v1_step|]. split.
  - intros Hne.
    destruct (v1_chain encoded id videos Hid Hvideos Hne Hrec)
      as (enc1 & videos' & H1 & Henc1 & H2 & Hlen & Hlk).
    subst enc1.
    eexists _, (length videos), _, videos'.
    split; [exact H2|]. split; [reflexivity|].
    split.
    { unfold _migrate_archive, migrate_depth, ARCHIVE_COMPAT. cbn [migrate_step].
      zeqs. rewrite H1. change (1 + 1) with 2. zeqs. rewrite H2.
      change (2 + 1) with 3. zeqs. reflexivity. }
    split.
    { unfold ARCHIVE_COMPAT. cbn [migrate_step].
      zeqs. rewrite H1. change (1 + 1) with 2. zeqs. rewrite H2. reflexivity. }
    repeat split; try (by simplify_map_eq); try done.
    intros key Hkey.
    repeat (apply not_elem_of_cons in Hkey as [? Hkey]).
    by simplify_map_eq.
  - intros e Hne Hvs. split.
    + unfold _migrate_archive, migrate_depth, ARCHIVE_COMPAT. cbn [migrate_step].
      zeqs. rewrite (v1_step encoded id Hid). change (1 + 1) with 2. zeqs.
      unfold v2_to_v3.
      rewrite (add_deleted_in_raises "videos" 0 _ e videos Hne); [done| |done].
      by simplify_map_eq.
    + repeat split; by simplify_map_eq.
Qed.

(** C7. A stored version that is not 3, 1 or 2 is fatal: the migration
    ends the process, with status 1 when [_err_msg] returns, and the
    document is left as it was; so does loading a document that carries
    such a version. *)
Theorem unknown_version_is_fatal cur encoded :
  cur <> ARCHIVE_COMPAT -> cur <> 1 -> cur <> 2 ->
  exists code,
    _migrate_archive clock em ne cur ARCHIVE_COMPAT encoded = Some (Exited code encoded) /\
    (encoded !! "version" = Some (JNum cur) ->
       load_encoded clock em ne encoded = Some (Exited code encoded)) /\
    (em = ErrMsgReturns -> code = 1).
Proof.
  intros H3 H1 H2.
  exists (match em with ErrMsgReturns => 1 | ErrMsgExits c => c end).
  assert (Hm : _migrate_archive clock em ne cur ARCHIVE_COMPAT encoded
               = Some (unknown_version em encoded)).
  { unfold _migrate_archive, migrate_depth. cbn [migrate_step]. zeqs. reflexivity. }
  split; [|split].
  - rewrite Hm. unfold unknown_version. by destruct em.
  - intros Hv. unfold load_encoded. rewrite Hv. zeqs.
    rewrite Hm. unfold unknown_version. by destruct em.
  - by intros ->.
Qed.

(** C8. At the target version the migration step returns the document
    unchanged, whatever the document and without calling anything.
    Whenever the migration of a document from version 1 returns, its
    output carries version 3, and migrating that output again, or loading
    it, returns it unchanged. The migration from version 1 does return
    for a document whose id is a string and whose videos are a list of
    records, when there is no record or [Video._new_empty()] returns. *)
Theorem migration_idempotent_at_target :
  (forall fuel expected tick encoded,
     migrate_step clock em ne (S fuel) expected tick expected encoded
       = Some (Returned encoded)) /\
  (forall encoded out,
     _migrate_archive clock em ne 1 ARCHIVE_COMPAT encoded = Some (Returned out) ->
     out !! "version" = Some (JNum ARCHIVE_COMPAT) /\
     _migrate_archive clock em ne ARCHIVE_COMPAT ARCHIVE_COMPAT out
       = Some (Returned out) /\
     load_encoded clock em ne out = Some (Returned out)) /\
  (forall encoded id videos,
     encoded !! "id" = Some (JStr id) ->
     encoded !! "videos" = Some (JList videos) ->
     forallb is_record videos = true ->
     ne = NewEmptyReturns \/ videos = [] ->
     exists out,
       _migrate_archive clock em ne 1 ARCHIVE_COMPAT encoded = Some (Returned out)).
Proof.
  split; [|split].
  - intros fuel expected tick encoded. cbn [migrate_step]. by rewrite Z.eqb_refl.
  - intros encoded out Hm.
    apply migrate_returns_version in Hm as [Hv _]; [|done].
    split; [done|]. split.
    + unfold _migrate_archive, migrate_depth. cbn [migrate_step].
      by rewrite Z.eqb_refl.
    + unfold load_encoded. rewrite Hv. unfold ARCHIVE_COMPAT. zeqs. reflexivity.
  - intros encoded id videos Hid Hvideos Hrec Hne.
    destruct (v1_chain encoded id videos Hid Hvideos Hne Hrec)
      as (enc1 & videos' & H1 & Henc1 & H2 & Hst).
    eexists.
    unfold _migrate_archive, migrate_depth, ARCHIVE_COMPAT. cbn [migrate_step].
    zeqs. rewrite H1. change (1 + 1) with 2. zeqs. rewrite H2.
    change (2 + 1) with 3. zeqs. reflexivity.
Qed.

End MigrateFacts.

(** * Properties of the archive operations *)

Section ArchiveFacts.
Variable clock : nat -> Z.
Variable em : err_msg_behaviour.
Variable watch_url : string -> string.
Variable ydl_download : nat -> list string -> fetched.

(** *** search *)

Lemma search_in_none w id l :
  (forall a, a ∈ l -> Video.id (deref w a) <> id) ->
  search_in w id l
    = Raise (VideoNotFoundException ("Couldn't find " +:+ id +:+ " inside archive")).
Proof.
  induction l as [|a l IH]; intros Hall; [done|].
  cbn [search_in]. destruct (decide _) as [Heq|_].
  - exfalso. eapply Hall; [left|done].
  - apply IH. intros b Hb. apply Hall. by right.
Qed.

Lemma search_in_first w id pre a post :
  Video.id (deref w a) = id ->
  (forall b, b ∈ pre -> Video.id (deref w b) <> id) ->
  search_in w id (pre ++ a :: post) = Ok a.
Proof.
  intros Ha. induction pre as [|b pre IH]; intros Hpre; cbn [search_in app].
  - by rewrite decide_True.
  - rewrite decide_False; [|apply Hpre; left].
    apply IH. intros c Hc. apply Hpre. by right.
Qed.

(** C10. Searching only scans the collection of ordinary videos: when no
    item of that collection has the identifier, the search raises
    VideoNotFoundException, even if a livestream or a short has it;
    otherwise it returns the first item of the collection that has it. *)
Theorem search_scans_videos_only id w :
  (forall a, (a ∈ livestreams (self w) \/ a ∈ shorts (self w)) ->
     Video.id (deref w a) = id ->
     (forall b, b ∈ videos (self w) -> Video.id (deref w b) <> id) ->
     search id w
       = Raise (VideoNotFoundException ("Couldn't find " +:+ id +:+ " inside archive")))
  /\ (forall pre a post,
        videos (self w) = pre ++ a :: post ->
        Video.id (deref w a) = id ->
        (forall b, b ∈ pre -> Video.id (deref w b) <> id) ->
        search id w = Ok a).
Proof.
  split.
  - intros a _ _ Hv. by apply search_in_none.
  - intros pre a post Hl Ha Hpre. unfold search. rewrite Hl.
    by apply search_in_first.
Qed.

(** *** _curate *)

Lemma take_indices_seq videos i n :
  (i + n <= length videos)%nat ->
  take_indices videos (seq i n) = Ok (take n (drop i videos)).
Proof.
  revert i. induction n as [|n IH]; intros i Hn; cbn [seq take_indices].
  - by rewrite take_0.
  - destruct (lookup_lt_is_Some_2 videos i) as [v Hv]; [lia|].
    rewrite Hv, IH by lia.
    rewrite (drop_S videos v i Hv). done.
Qed.

Lemma curate_list_capped w videos maximum :
  curate_list w videos (Some maximum)
    = Ok (List.filter (fun video => negb (downloaded w video))
            (take (Z.to_nat (Z.min (Z.max (Z.of_nat (length videos) - 1) 0) maximum))
                  videos)).
Proof.
  unfold curate_list, py_range.
  rewrite take_indices_seq by lia. by rewrite drop_0.
Qed.

Lemma curate_list_ok w videos maximum :
  exists l, curate_list w videos maximum = Ok l.
Proof.
  destruct maximum as [m|].
  - eexists. apply curate_list_capped.
  - eexists. reflexivity.
Qed.

Lemma _curate_ok config w : exists l, _curate config w = Ok l.
Proof.
  unfold _curate.
  destruct (curate_list_ok w (videos (self w)) (max_videos config)) as [l1 ->].
  destruct (curate_list_ok w (livestreams (self w)) (max_livestreams config)) as [l2 ->].
  destruct (curate_list_ok w (shorts (self w)) (max_shorts config)) as [l3 ->].
  by eexists.
Qed.

(** C1, on the code. With a maximum above the number of items before the
    last one, the candidates are the collection without its last item: the
    cap is the length less one. When the last item is not downloaded the
    result differs from the undownloaded items of the whole collection,
    which is what the first N items, N at least the length, would give. *)
Theorem curate_list_reserves_last w videos last maximum :
  Z.of_nat (length videos) < maximum ->
  downloaded w last = false ->
  curate_list w (videos ++ [last]) (Some maximum)
    = Ok (List.filter (fun video => negb (downloaded w video)) videos)
  /\ curate_list w (videos ++ [last]) (Some maximum)
     <> Ok (List.filter (fun video => negb (downloaded w video)) (videos ++ [last])).
Proof.
  intros Hmax Hlast.
  assert (Heq : curate_list w (videos ++ [last]) (Some maximum)
    = Ok (List.filter (fun video => negb (downloaded w video)) videos)).
  { rewrite curate_list_capped. rewrite length_app. cbn [length].
    replace (Z.to_nat _) with (length videos) by lia.
    by rewrite take_app_length. }
  split; [done|]. rewrite Heq. intros Habs. injection Habs as Habs.
  apply (f_equal length) in Habs.
  rewrite List.filter_app, length_app in Habs. cbn in Habs.
  rewrite Hlast in Habs. cbn in Habs. lia.
Qed.

(** *** Value histories *)

Lemma current_update {A} `{EqDecision A} now (data : A) (e : Element A) :
  current (Element_update now data e) = data.
Proof.
  unfold Element_update. case_decide as Hc; [done|].
  unfold current. cbn [later seed]. by rewrite last_last.
Qed.

Lemma update_same {A} `{EqDecision A} now (e : Element A) :
  Element_update now (current e) e = e.
Proof. unfold Element_update. by rewrite decide_True. Qed.

(** *** _report_deleted *)

Lemma deref_insert_eq w a v :
  (a < length (heap w))%nat -> deref (set_heap (<[a := v]> (heap w)) w) a = v.
Proof. intros Ha. unfold deref. cbn. by apply list_lookup_total_insert_eq. Qed.

Lemma deref_insert_ne w a b v :
  a <> b -> deref (set_heap (<[a := v]> (heap w)) w) b = deref w b.
Proof. intros Hab. unfold deref. cbn. by apply list_lookup_total_insert_ne. Qed.

Lemma report_deleted_one_unfold video w :
  report_deleted_one clock video w
    = if unseen_undeleted w video
      then mark_deleted clock video (report_deleted video w) else w.
Proof. reflexivity. Qed.

Lemma report_deleted_one_skip video w :
  unseen_undeleted w video = false -> report_deleted_one clock video w = w.
Proof. intros H. by rewrite report_deleted_one_unfold, H. Qed.

Lemma report_deleted_one_frame video w :
  let w' := report_deleted_one clock video w in
  length (heap w') = length (heap w) /\
  videos (self w') = videos (self w) /\
  livestreams (self w') = livestreams (self w) /\
  shorts (self w') = shorts (self w) /\
  Reporter.added (reporter (self w')) = Reporter.added (reporter (self w)) /\
  media w' = media w /\ fetches w' = fetches w /\ trace w' = trace w.
Proof.
  cbn zeta. rewrite report_deleted_one_unfold.
  destruct (unseen_undeleted w video); [|done].
  cbn. by rewrite length_insert.
Qed.

Lemma report_deleted_one_bucket video w :
  Reporter.deleted (reporter (self (report_deleted_one clock video w)))
    = Reporter.deleted (reporter (self w))
      ++ (if unseen_undeleted w video then [video] else []).
Proof.
  rewrite report_deleted_one_unfold.
  destruct (unseen_undeleted w video); cbn; [done|by rewrite app_nil_r].
Qed.

Lemma report_deleted_one_other video w b :
  b <> video -> deref (report_deleted_one clock video w) b = deref w b.
Proof.
  intros Hb. rewrite report_deleted_one_unfold.
  destruct (unseen_undeleted w video); [|done].
  unfold mark_deleted, deref. cbn.
  by rewrite list_lookup_total_insert_ne.
Qed.

Lemma report_deleted_one_self video w :
  (video < length (heap w))%nat ->
  unseen_undeleted w video = true ->
  let v' := deref (report_deleted_one clock video w) video in
  current (Video.deleted v') = true /\
  Video.known_not_deleted v' = Video.known_not_deleted (deref w video) /\
  Video.id v' = Video.id (deref w video) /\
  Video.uploaded v' = Video.uploaded (deref w video).
Proof.
  intros Hlt Hc. cbn zeta. rewrite report_deleted_one_unfold, Hc.
  unfold mark_deleted, deref. cbn.
  rewrite list_lookup_total_insert_eq by done. cbn.
  by rewrite current_update.
Qed.

Lemma unseen_undeleted_ext w w' a :
  deref w' a = deref w a -> unseen_undeleted w' a = unseen_undeleted w a.
Proof. unfold unseen_undeleted. by intros ->. Qed.

Lemma report_deleted_loop_app l1 l2 w :
  report_deleted_loop clock (l1 ++ l2) w
    = report_deleted_loop clock l2 (report_deleted_loop clock l1 w).
Proof. revert w. induction l1 as [|a l1 IH]; intros w; cbn; [done|apply IH]. Qed.

Lemma report_deleted_loop_frame l w :
  let w' := report_deleted_loop clock l w in
  length (heap w') = length (heap w) /\
  videos (self w') = videos (self w) /\
  livestreams (self w') = livestreams (self w) /\
  shorts (self w') = shorts (self w) /\
  Reporter.added (reporter (self w')) = Reporter.added (reporter (self w)) /\
  media w' = media w /\ fetches w' = fetches w /\ trace w' = trace w.
Proof.
  revert w. induction l as [|a l IH]; intros w; cbn [report_deleted_loop]; [done|].
  cbn zeta in *.
  destruct (IH (report_deleted_one clock a w)) as (-> & -> & -> & -> & -> & -> & -> & ->).
  apply report_deleted_one_frame.
Qed.

Lemma report_deleted_loop_other l w b :
  b ∉ l -> deref (report_deleted_loop clock l w) b = deref w b.
Proof.
  revert w. induction l as [|a l IH]; intros w Hb; cbn [report_deleted_loop]; [done|].
  apply not_elem_of_cons in Hb as [Hba Hb].
  rewrite IH by done. by apply report_deleted_one_other.
Qed.

Lemma report_deleted_loop_skip l w b :
  unseen_undeleted w b = false -> deref (report_deleted_loop clock l w) b = deref w b.
Proof.
  revert w. induction l as [|a l IH]; intros w Hb; cbn [report_deleted_loop]; [done|].
  destruct (decide (b = a)) as [->|Hne].
  - rewrite report_deleted_one_skip by done. by apply IH.
  - rewrite IH.
    + by apply report_deleted_one_other.
    + rewrite <- Hb. apply unseen_undeleted_ext. by apply report_deleted_one_other.
Qed.

Lemma filter_ext_elem {A} (f g : A -> bool) (l : list A) :
  (forall a, a ∈ l -> f a = g a) -> List.filter f l = List.filter g l.
Proof.
  intros H. apply List.filter_ext_in. intros a Ha. apply H.
  by apply list_elem_of_In.
Qed.

Lemma report_deleted_loop_bucket l w :
  NoDup l ->
  Reporter.deleted (reporter (self (report_deleted_loop clock l w)))
    = Reporter.deleted (reporter (self w)) ++ List.filter (unseen_undeleted w) l.
Proof.
  revert w. induction l as [|a l IH]; intros w Hnd; cbn [report_deleted_loop List.filter].
  { by rewrite app_nil_r. }
  apply NoDup_cons in Hnd as [Ha Hnd].
  rewrite IH by done. rewrite report_deleted_one_bucket.
  rewrite (filter_ext_elem (unseen_undeleted (report_deleted_one clock a w))
             (unseen_undeleted w)).
  - destruct (unseen_undeleted w a); [by rewrite <- app_assoc|by rewrite app_nil_r].
  - intros b Hb. apply unseen_undeleted_ext, report_deleted_one_other.
    by intros ->.
Qed.

Lemma report_deleted_loop_marks l w b :
  b ∈ l -> (b < length (heap w))%nat ->
  unseen_undeleted w b = true ->
  let v' := deref (report_deleted_loop clock l w) b in
  current (Video.deleted v') = true /\
  Video.known_not_deleted v' = Video.known_not_deleted (deref w b) /\
  Video.id v' = Video.id (deref w b) /\
  Video.uploaded v' = Video.uploaded (deref w b).
Proof.
  revert w. induction l as [|a l IH]; intros w Hb Hlt Hc; [by apply elem_of_nil in Hb|].
  cbn [report_deleted_loop]. cbn zeta.
  destruct (decide (b = a)) as [->|Hne].
  - destruct (report_deleted_one_self a w Hlt Hc) as (H1 & H2 & H3 & H4).
    rewrite report_deleted_loop_skip; [done|].
    unfold unseen_undeleted. by rewrite H1.
  - apply elem_of_cons in Hb as [?|Hb]; [done|].
    assert (Hd : deref (report_deleted_one clock a w) b = deref w b)
      by by apply report_deleted_one_other.
    rewrite <- Hd. apply IH; [done| |].
    + by rewrite (proj1 (report_deleted_one_frame a w)).
    + rewrite <- Hc. by apply unseen_undeleted_ext.
Qed.

Lemma sweep_all_loop w :
  sweep_all clock w = report_deleted_loop clock (all_videos (self w)) w.
Proof.
  unfold sweep_all, _report_deleted, all_videos.
  rewrite !report_deleted_loop_app. cbn [bucket_of].
  destruct (report_deleted_loop_frame (videos (self w)) w) as (_ & _ & -> & H3 & _).
  destruct (report_deleted_loop_frame (livestreams (self w))
              (report_deleted_loop clock (videos (self w)) w)) as (_ & _ & _ & -> & _).
  by rewrite H3.
Qed.

(** *** _parse_metadata_videos_comp *)

Lemma find_by_id_Some w id l a :
  find_by_id w id l = Some a <->
  exists pre post, l = pre ++ a :: post /\ Video.id (deref w a) = id /\
                   forall b, b ∈ pre -> Video.id (deref w b) <> id.
Proof.
  split.
  - induction l as [|b l IH]; cbn [find_by_id]; [done|].
    case_decide as Hb.
    + intros [= ->]. exists [], l. split; [done|]. split; [done|].
      intros c Hc. by apply elem_of_nil in Hc.
    + intros Hf. destruct (IH Hf) as (pre & post & -> & Ha & Hpre).
      exists (b :: pre), post. split; [done|]. split; [done|].
      intros c [->|Hc]%elem_of_cons; auto.
  - intros (pre & post & -> & Ha & Hpre).
    induction pre as [|b pre IH]; cbn [find_by_id app].
    + by rewrite decide_True.
    + rewrite decide_False by (apply Hpre; left).
      apply IH. intros c Hc. apply Hpre. by right.
Qed.

Lemma find_by_id_None w id l :
  find_by_id w id l = None <-> forall b, b ∈ l -> Video.id (deref w b) <> id.
Proof.
  induction l as [|b l IH]; cbn [find_by_id].
  - split; [|done]. intros _ c Hc. by apply elem_of_nil in Hc.
  - case_decide as Hb.
    + split; [done|]. intros H. exfalso. apply (H b); [left|done].
    + rewrite IH. split.
      * intros H c [->|Hc]%elem_of_cons; auto.
      * intros H c Hc. apply H. by right.
Qed.

Lemma bucket_of_set_bucket k k' l c :
  bucket_of k' (set_bucket k l c) = if decide (k' = k) then l else bucket_of k' c.
Proof. by destruct k, k'. Qed.

Lemma all_videos_set_bucket_app k fresh c :
  all_videos (set_bucket k (bucket_of k c ++ fresh) c) ≡ₚ all_videos c ++ fresh.
Proof.
  unfold all_videos. destruct k; cbn.
  - rewrite <- !app_assoc. apply Permutation_app_head.
    rewrite (app_assoc (livestreams c)). by rewrite (Permutation_app_comm fresh).
  - rewrite <- !app_assoc. do 2 apply Permutation_app_head.
    apply Permutation_app_comm.
  - by rewrite <- !app_assoc.
Qed.

Lemma all_videos_set_bucket_perm k l c :
  l ≡ₚ bucket_of k c -> all_videos (set_bucket k l c) ≡ₚ all_videos c.
Proof. intros Hl. unfold all_videos. destruct k; cbn in *; by rewrite Hl. Qed.

Lemma merge_preserves_refl w : merge_preserves w w.
Proof.
  unfold merge_preserves. rewrite Nat.sub_diag. cbn [seq]. rewrite app_nil_r.
  repeat split; done.
Qed.

Lemma merge_preserves_trans w1 w2 w3 :
  merge_preserves w1 w2 -> merge_preserves w2 w3 -> merge_preserves w1 w3.
Proof.
  intros (Hl1 & Hd1 & Hp1 & Ha1) (Hl2 & Hd2 & Hp2 & Ha2).
  split; [lia|]. split; [congruence|]. split.
  - rewrite Hp2, Hp1. rewrite <- app_assoc. apply Permutation_app_head.
    replace (length (heap w3) - length (heap w1))%nat
      with ((length (heap w2) - length (heap w1)) + (length (heap w3) - length (heap w2)))%nat
      by lia.
    rewrite seq_app.
    by replace (length (heap w1) + (length (heap w2) - length (heap w1)))%nat
      with (length (heap w2)) by lia.
  - intros a Ha.
    destruct (Ha2 a ltac:(lia)) as (-> & -> & -> & Hk2).
    destruct (Ha1 a Ha) as (-> & -> & -> & Hk1).
    repeat split; auto.
Qed.

Lemma merge_entry_preserves k entry w :
  merge_preserves w (merge_entry clock k entry w).
Proof.
  unfold merge_entry. destruct (no_formats entry); [apply merge_preserves_refl|].
  destruct (find_by_id _ _ _) as [video|] eqn:Hf.
  - unfold merge_preserves, deref. cbn. rewrite length_insert, Nat.sub_diag.
    cbn [seq]. rewrite app_nil_r. repeat split; try done.
    all: destruct (decide (video = a)) as [->|Hne];
      [rewrite list_lookup_total_insert_eq by done
      |rewrite list_lookup_total_insert_ne by done]; done.
  - unfold merge_preserves, deref. cbn.
    rewrite length_app. cbn [length].
    replace (length (heap w) + 1 - length (heap w))%nat with 1%nat by lia.
    split; [lia|]. split; [by destruct k|]. split.
    + apply (all_videos_set_bucket_app k [length (heap w)] (self w)).
    + intros a Ha. by rewrite lookup_total_app_l.
Qed.

Lemma merge_entries_preserves k i w :
  merge_preserves w (merge_entries clock k i w).
Proof.
  revert w. induction i as [|entry i IH]; intros w; cbn [merge_entries].
  - apply merge_preserves_refl.
  - eapply merge_preserves_trans; [apply merge_entry_preserves|apply IH].
Qed.

(** Sorting. *)

Lemma insert_newest_perm w a l : insert_newest w a l ≡ₚ a :: l.
Proof.
  induction l as [|b l IH]; cbn [insert_newest]; [done|].
  destruct (_ <=? _); [done|]. rewrite IH. apply Permutation_swap.
Qed.

Lemma sort_newest_perm w l : sort_newest w l ≡ₚ l.
Proof.
  induction l as [|a l IH]; cbn [sort_newest]; [done|].
  by rewrite insert_newest_perm, IH.
Qed.

Lemma insert_newest_sorted w a l :
  StronglySorted (newest_first w) l ->
  StronglySorted (newest_first w) (insert_newest w a l).
Proof.
  induction l as [|b l IH]; intros Hs; cbn [insert_newest].
  - repeat constructor.
  - apply StronglySorted_inv in Hs as [Hs Hb].
    destruct (Z.leb_spec (Video.uploaded (deref w b)) (Video.uploaded (deref w a)))
      as [Hle|Hlt].
    + constructor; [by constructor|].
      constructor; [done|].
      eapply Forall_impl; [exact Hb|]. unfold newest_first. cbn. intros c Hc. lia.
    + constructor; [by apply IH|].
      rewrite insert_newest_perm. constructor; [|done].
      unfold newest_first. lia.
Qed.

Lemma sort_newest_sorted w l : StronglySorted (newest_first w) (sort_newest w l).
Proof.
  induction l as [|a l IH]; cbn [sort_newest]; [constructor|].
  by apply insert_newest_sorted.
Qed.

(** Ties keep the order they had: a sorted collection is left as it is. *)
Lemma sort_newest_id w l :
  StronglySorted (newest_first w) l -> sort_newest w l = l.
Proof.
  induction l as [|a l IH]; intros Hs; [done|].
  apply StronglySorted_inv in Hs as [Hs Ha].
  cbn [sort_newest]. rewrite IH by done.
  destruct l as [|b l]; [done|]. cbn [insert_newest].
  apply Forall_cons in Ha as [Hab _]. unfold newest_first in Hab.
  by rewrite (proj2 (Z.leb_le _ _) Hab).
Qed.

Lemma comp_preserves i k w :
  merge_preserves w (_parse_metadata_videos_comp clock i k w).
Proof.
  unfold _parse_metadata_videos_comp.
  destruct (merge_entries_preserves k i w) as (Hl & Hd & Hp & Ha).
  set (w1 := merge_entries clock k i w) in *.
  split; [done|]. split; [by destruct k|]. split; [|done].
  cbn. rewrite <- Hp. apply all_videos_set_bucket_perm, sort_newest_perm.
Qed.

Lemma merge_all_preserves n w : merge_preserves w (merge_all clock n w).
Proof.
  destruct n as [[vs ls] ss]. unfold merge_all, _parse_metadata_videos.
  eapply merge_preserves_trans; [|apply comp_preserves].
  eapply merge_preserves_trans; [|apply comp_preserves].
  apply comp_preserves.
Qed.

Lemma merge_preserves_well_formed w w' :
  merge_preserves w w' -> well_formed w -> well_formed w'.
Proof.
  intros (Hl & Hd & Hp & Ha) [Hnd Hlt]. split.
  - rewrite Hp. apply NoDup_app. split; [done|]. split; [|apply NoDup_seq].
    intros a Hin Hseq. apply Hlt in Hin. apply elem_of_seq in Hseq. lia.
  - intros a Hin. rewrite Hp in Hin. apply elem_of_app in Hin as [Hin|Hin].
    + apply Hlt in Hin. lia.
    + apply elem_of_seq in Hin. lia.
Qed.


(** Other collections are not touched by the merge of one category. *)
Lemma merge_entry_other_bucket k k' entry w :
  k' <> k -> bucket_of k' (self (merge_entry clock k entry w)) = bucket_of k' (self w).
Proof.
  intros Hk. unfold merge_entry. destruct (no_formats entry); [done|].
  destruct (find_by_id _ _ _); [done|]. cbn.
  by destruct k, k'.
Qed.

Lemma merge_entries_other_bucket k k' i w :
  k' <> k -> bucket_of k' (self (merge_entries clock k i w)) = bucket_of k' (self w).
Proof.
  intros Hk. revert w. induction i as [|entry i IH]; intros w; cbn [merge_entries]; [done|].
  rewrite IH. by apply merge_entry_other_bucket.
Qed.

Lemma comp_other_bucket k k' i w :
  k' <> k ->
  bucket_of k' (self (_parse_metadata_videos_comp clock i k w)) = bucket_of k' (self w).
Proof.
  intros Hk. unfold _parse_metadata_videos_comp, set_self. cbn [self].
  rewrite bucket_of_set_bucket, decide_False by done.
  by apply merge_entries_other_bucket.
Qed.




Lemma observed_ids_cons entry i :
  observed_ids (entry :: i)
    = if no_formats entry then observed_ids i else entry_id entry :: observed_ids i.
Proof. unfold observed_ids. cbn. by destruct (no_formats entry). Qed.




Lemma merge_entries_filter k i w :
  merge_entries clock k i w
    = merge_entries clock k (List.filter (fun entry => negb (no_formats entry)) i) w.
Proof.
  revert w. induction i as [|entry i IH]; intros w; [done|].
  cbn [merge_entries List.filter].
  destruct (no_formats entry) eqn:Hfmt; cbn [negb merge_entries].
  - unfold merge_entry at 1. rewrite Hfmt. apply IH.
  - apply IH.
Qed.


Lemma sweep_all_frame w :
  length (heap (sweep_all clock w)) = length (heap w) /\
  all_videos (self (sweep_all clock w)) = all_videos (self w).
Proof.
  rewrite sweep_all_loop.
  destruct (report_deleted_loop_frame (all_videos (self w)) w)
    as (H0 & H1 & H2 & H3 & _).
  split; [done|].
  unfold all_videos at 1 3. by rewrite H1, H2, H3.
Qed.

(** *** download *)

Lemma _skip_video_Ok w l rest video :
  _skip_video w l = Ok (rest, video) <->
  exists pre, l = pre ++ video :: rest /\ downloaded w video = false /\
              forall b, b ∈ pre -> downloaded w b = true.
Proof.
  split.
  - induction l as [|a l IH]; cbn [_skip_video]; [done|].
    destruct (downloaded w a) eqn:Hd; cbn [negb].
    + intros Hs. destruct (IH Hs) as (pre & -> & Hv & Hpre).
      exists (a :: pre). split; [done|]. split; [done|].
      intros b [->|Hb]%elem_of_cons; auto.
    + intros [= <- <-]. exists []. split; [done|]. split; [done|].
      intros b Hb. by apply elem_of_nil in Hb.
  - intros (pre & -> & Hv & Hpre).
    induction pre as [|a pre IH]; cbn [_skip_video app].
    + by rewrite Hv.
    + rewrite (Hpre a) by left. cbn [negb]. apply IH.
      intros b Hb. apply Hpre. by right.
Qed.

Lemma _skip_video_shorter w l rest video :
  _skip_video w l = Ok (rest, video) -> (length rest < length l)%nat.
Proof.
  intros Hs. apply _skip_video_Ok in Hs as (pre & -> & _).
  rewrite length_app. cbn. lia.
Qed.

Lemma _skip_video_no_exit w l code : _skip_video w l <> Exit code.
Proof.
  induction l as [|a l IH]; cbn [_skip_video]; [done|].
  by destruct (negb (downloaded w a)).
Qed.

Lemma quiet_nil : quiet [].
Proof. done. Qed.

Lemma quiet_app t1 t2 : quiet t1 -> quiet t2 -> quiet (t1 ++ t2).
Proof.
  unfold quiet, curations, sleeps. intros [H1 H2] [H3 H4].
  rewrite List.filter_app, length_app, omap_app, H1, H2, H3, H4. done.
Qed.

Lemma mark_deleted_trace a w : trace (mark_deleted clock a w) = trace w.
Proof. done. Qed.

Lemma fetch_round_spec not_downloaded w :
  match fetch_round clock watch_url ydl_download not_downloaded w with
  | Done r w' =>
      (forall code, r <> Exit code) /\
      exists t, trace w' = trace w ++ t /\ quiet t
  | Again rest w' =>
      (length rest < length not_downloaded)%nat /\
      exists t, trace w' = trace w ++ t /\ quiet t
  end.
Proof.
  unfold fetch_round, fetch.
  set (urls := _ <$> not_downloaded).
  destruct (failure (ydl_download (fetches w) urls)) as [e|]; cbn [fst snd].
  2:{ split; [done|]. by exists [Fetch urls]. }
  set (w1 := mkWorld _ _ _ _ _ _).
  destruct e as [key| | |msg|msg|msg|name];
    try (split; [done|]; by exists [Fetch urls]).
  destruct (is_private_or_removed msg).
  - destruct (_skip_video w1 not_downloaded) as [[rest video]|e|code] eqn:Hs.
    + apply _skip_video_shorter in Hs.
      destruct (negb _); (split; [done|]);
        by exists [Fetch urls; Skipped video false]; cbn; rewrite <- app_assoc.
    + split; [done|]. by exists [Fetch urls].
    + by apply _skip_video_no_exit in Hs.
  - destruct (is_too_short msg).
    + destruct (_skip_video w1 not_downloaded) as [[rest video]|e|code] eqn:Hs.
      * apply _skip_video_shorter in Hs. split; [done|].
        by exists [Fetch urls; Skipped video true]; cbn; rewrite <- app_assoc.
      * split; [done|]. by exists [Fetch urls].
      * by apply _skip_video_no_exit in Hs.
    + split; [done|]. by exists [Fetch urls].
Qed.

(** The loop ends within one round more than the list is long. *)
Lemma fetch_loop_total fuel not_downloaded w :
  (length not_downloaded < fuel)%nat ->
  exists r w' t,
    fetch_loop clock watch_url ydl_download fuel not_downloaded w = Some (r, w') /\
    (forall code, r <> Exit code) /\
    trace w' = trace w ++ t /\ quiet t.
Proof.
  revert not_downloaded w. induction fuel as [|fuel IH]; intros nd w Hlen; [lia|].
  cbn [fetch_loop].
  pose proof (fetch_round_spec nd w) as Hr.
  destruct (fetch_round clock watch_url ydl_download nd w) as [r w'|rest w'].
  - destruct Hr as (Hne & t & Ht & Hq). by exists r, w', t.
  - destruct Hr as (Hshort & t & Ht & Hq).
    destruct (IH rest w' ltac:(lia)) as (r & w'' & t' & -> & Hne & Ht' & Hq').
    exists r, w'', (t ++ t'). split; [done|]. split; [done|].
    split; [by rewrite Ht', Ht, app_assoc|by apply quiet_app].
Qed.

Lemma curations_app t1 t2 : curations (t1 ++ t2) = (curations t1 + curations t2)%nat.
Proof. unfold curations. by rewrite List.filter_app, length_app. Qed.

Lemma sleeps_app t1 t2 : sleeps (t1 ++ t2) = sleeps t1 ++ sleeps t2.
Proof. apply omap_app. Qed.

Lemma attempt_spec config w :
  exists r w' t,
    attempt clock watch_url ydl_download config w = Some (r, w') /\
    (forall code, r <> Exit code) /\
    trace w' = trace w ++ t /\ curations t = 1%nat /\ sleeps t = [].
Proof.
  unfold attempt. destruct (_curate_ok config w) as [nd ->].
  destruct (length nd =? 0)%nat.
  - exists (Ok tt), (log (Curated nd) w), [Curated nd]. done.
  - destruct (fetch_loop_total (S (length nd)) nd (log (Curated nd) w) ltac:(lia))
      as (r & w' & t & -> & Hne & Ht & Hc & Hs).
    exists r, w', (Curated nd :: t). split; [done|]. split; [done|].
    split; [by rewrite Ht; cbn; rewrite <- app_assoc|].
    split.
    + change (Curated nd :: t) with ([Curated nd] ++ t).
      rewrite curations_app, Hc. done.
    + cbn. done.
Qed.

Lemma download_loop_spec remaining config w :
  (remaining <= 5)%nat ->
  exists r w' t,
    download_loop clock em watch_url ydl_download remaining (5 - Z.of_nat remaining) config w
      = Some (r, w') /\
    trace w' = trace w ++ t /\
    (curations t <= remaining)%nat /\
    (1 <= remaining -> 1 <= curations t)%nat /\
    sleeps t = replicate (curations t - 1) 5 /\
    (r = Ok tt \/ (r = Exit (exit_code em) /\ curations t = remaining)).
Proof.
  revert w. induction remaining as [|remaining IH]; intros w Hle.
  - exists (Ok tt), w, []. cbn. rewrite app_nil_r. repeat split; auto; lia.
  - cbn [download_loop].
    destruct (attempt_spec config w) as (r & w1 & t & -> & Hne & Ht & Hc & Hs).
    destruct r as [[]|e|code].
    + exists (Ok tt), w1, t. rewrite Hc, Hs. repeat split; auto; lia.
    + unfold _err_dl.
      destruct (Z.eqb_spec (5 - Z.of_nat (S remaining)) 4) as [Hlast|Hmore]; cbn [negb].
      * assert (remaining = 0%nat) as -> by lia.
        exists (Exit (exit_code em)), w1, t. rewrite Hc, Hs.
        split; [unfold exit_code; by destruct em|]. repeat split; auto; lia.
      * replace (5 - Z.of_nat (S remaining) + 1) with (5 - Z.of_nat remaining) by lia.
        destruct (IH (log (Sleep 5) w1) ltac:(lia))
          as (r & w2 & t2 & -> & Ht2 & Hc2 & Hc2' & Hs2 & Hr).
        assert (1 <= curations t2)%nat as Hpos by (apply Hc2'; lia).
        exists r, w2, (t ++ [Sleep 5] ++ t2).
        split; [done|].
        split; [rewrite Ht2; cbn; rewrite Ht; by rewrite <- !app_assoc|].
        rewrite !curations_app, !sleeps_app, Hc, Hs, Hs2.
        change (curations [Sleep 5]) with 0%nat. cbn [sleeps omap app Nat.add].
        split; [lia|]. split; [lia|]. split.
        { destruct (curations t2) as [|c]; [lia|]. cbn. by rewrite Nat.sub_0_r. }
        destruct Hr as [->|[-> Hr]]; [by left|right]. split; [done|lia].
    + by destruct (Hne code).
Qed.

(** Curation reads the objects, the channel and the media files only. *)
Lemma _curate_ext config w w' :
  heap w' = heap w -> self w' = self w -> media w' = media w ->
  _curate config w' = _curate config w.
Proof.
  intros Hh Hs Hm. unfold _curate, curate_list, downloaded, deref.
  by rewrite Hh, Hs, Hm.
Qed.

(** An attempt whose first call of the engine fails with a failure of
    neither class ends with that failure, after the curation and the
    call. *)
Lemma attempt_fails config w l e :
  _curate config w = Ok l -> l <> [] ->
  let urls := (fun video => watch_url (Video.id (deref w video))) <$> l in
  failure (ydl_download (fetches w) urls) = Some e ->
  unclassified e ->
  attempt clock watch_url ydl_download config w
    = Some (Raise e, (fetch ydl_download urls (log (Curated l) w)).2).
Proof.
  intros Hcur Hl urls Hfail Hun. unfold attempt. rewrite Hcur.
  destruct l as [|a l']; [done|]. cbn [length Nat.eqb fetch_loop].
  unfold fetch_round, fetch. cbn [fetches log heap deref].
  change ((fun video => watch_url (Video.id (deref (log (Curated (a :: l')) w) video)))
            <$> a :: l') with urls.
  rewrite Hfail. cbn [snd].
  destruct e as [key| | |msg|msg|msg|name]; try done.
  destruct (Hun msg eq_refl) as [-> ->]. done.
Qed.

(** An attempt whose first call of the engine does not fail ends
    normally, after the curation and the call. *)
Lemma attempt_succeeds config w l :
  _curate config w = Ok l -> l <> [] ->
  let urls := (fun video => watch_url (Video.id (deref w video))) <$> l in
  failure (ydl_download (fetches w) urls) = None ->
  attempt clock watch_url ydl_download config w
    = Some (Ok tt, (fetch ydl_download urls (log (Curated l) w)).2).
Proof.
  intros Hcur Hl urls Hfail. unfold attempt. rewrite Hcur.
  destruct l as [|a l']; [done|]. cbn [length Nat.eqb fetch_loop].
  unfold fetch_round, fetch. cbn [fetches log heap deref].
  change ((fun video => watch_url (Video.id (deref (log (Curated (a :: l')) w) video)))
            <$> a :: l') with urls.
  by rewrite Hfail.
Qed.

Lemma failed_attempts_S l urls k :
  failed_attempts l urls (S k)
    = [Curated l; Fetch urls; Sleep 5] ++ failed_attempts l urls k.
Proof. reflexivity. Qed.

(** [k] attempts fail without writing a media file, then one succeeds or
    the attempts are used up. *)
Lemma download_loop_failures remaining k config w l :
  (1 <= remaining <= 5)%nat ->
  _curate config w = Ok l -> l <> [] ->
  let urls := (fun video => watch_url (Video.id (deref w video))) <$> l in
  (forall j, (j < k)%nat -> (j < remaining)%nat ->
     exists e, failure (ydl_download (fetches w + j) urls) = Some e /\
               unclassified e /\
               written (ydl_download (fetches w + j) urls) = []) ->
  ((k < remaining)%nat -> failure (ydl_download (fetches w + k) urls) = None) ->
  exists w',
    download_loop clock em watch_url ydl_download remaining (5 - Z.of_nat remaining)
      config w
      = Some (if decide (k < remaining)%nat then Ok tt else Exit (exit_code em), w') /\
    heap w' = heap w /\ self w' = self w /\
    media w' = (if decide (k < remaining)%nat
                then media w ∪ list_to_set (written (ydl_download (fetches w + k) urls))
                else media w) /\
    fetches w' = (fetches w + Nat.min (S k) remaining)%nat /\
    trace w' = trace w ++ failed_attempts l urls (Nat.min k (remaining - 1))
                 ++ [Curated l; Fetch urls].
Proof.
  intros Hrem Hcur Hl. cbn zeta.
  revert k w Hrem Hcur.
  induction remaining as [|remaining IH]; intros k w Hrem Hcur Hfails Hok; [lia|].
  set (urls := (fun video => watch_url (Video.id (deref w video))) <$> l) in *.
  cbn [download_loop].
  destruct k as [|k].
  - (* the first call succeeds *)
    rewrite (attempt_succeeds config w l Hcur Hl).
    2:{ fold urls. rewrite <- (Nat.add_0_r (fetches w)). apply Hok. lia. }
    fold urls. eexists. split; [by rewrite decide_True by lia|].
    rewrite decide_True by lia. rewrite Nat.add_0_r.
    unfold fetch. cbn. rewrite <- app_assoc.
    repeat split; try done. lia.
  - (* the first call fails *)
    destruct (Hfails 0%nat ltac:(lia) ltac:(lia)) as (e & Hfail & Hun & Hwr).
    rewrite Nat.add_0_r in Hfail, Hwr.
    rewrite (attempt_fails config w l e Hcur Hl Hfail Hun). fold urls.
    set (w1 := (fetch ydl_download urls (log (Curated l) w)).2).
    assert (Hm1 : media w1 = media w).
    { subst w1. unfold fetch. cbn. rewrite Hwr. cbn. by rewrite (right_id_L ∅ (∪)). }
    unfold _err_dl.
    destruct (Z.eqb_spec (5 - Z.of_nat (S remaining)) 4) as [Hlast|Hmore]; cbn [negb].
    + assert (remaining = 0%nat) as -> by lia.
      exists w1. rewrite !decide_False by lia.
      split; [unfold exit_code; by destruct em|].
      split; [done|]. split; [done|]. split; [done|].
      subst w1. unfold fetch. cbn. rewrite <- app_assoc.
      split; [lia|done].
    + replace (5 - Z.of_nat (S remaining) + 1) with (5 - Z.of_nat remaining) by lia.
      set (w2 := log (Sleep 5) w1).
      assert (Hcur2 : _curate config w2 = Ok l).
      { rewrite <- Hcur. by apply _curate_ext. }
      assert (Hf2 : fetches w2 = S (fetches w)) by done.
      destruct (IH k w2 ltac:(lia) Hcur2) as (w' & Hd & Hh & Hs & Hm & Hf & Ht).
      { intros j Hj Hjr. rewrite Hf2.
        replace (S (fetches w) + j)%nat with (fetches w + S j)%nat by lia.
        apply Hfails; lia. }
      { intros Hk. rewrite Hf2.
        replace (S (fetches w) + k)%nat with (fetches w + S k)%nat by lia.
        apply Hok. lia. }
      exists w'. rewrite Hd.
      change ((fun video => watch_url (Video.id (deref w2 video))) <$> l) with urls
        in Hm, Ht.
      split.
      { destruct (decide (k < remaining)%nat);
          [by rewrite decide_True by lia|by rewrite decide_False by lia]. }
      split; [by rewrite Hh|]. split; [by rewrite Hs|]. split.
      { rewrite Hm, Hf2.
        replace (S (fetches w) + k)%nat with (fetches w + S k)%nat by lia.
        destruct (decide (k < remaining)%nat);
          [rewrite decide_True by lia|rewrite decide_False by lia];
          by rewrite <- Hm1. }
      split; [rewrite Hf, Hf2; lia|].
      rewrite Ht.
      replace (Nat.min (S k) (S remaining - 1)) with (S (Nat.min k (remaining - 1)))
        by lia.
      rewrite failed_attempts_S.
      subst w2 w1. unfold fetch. cbn. by rewrite <- !app_assoc.
Qed.

(** C6. The download makes at most five attempts, each starting with a
    curation of the state it finds, and always ends: normally, or by
    ending the process after five failed attempts, with status 1 when
    [_err_msg] returns; the delays are one fewer than the attempts, all
    of five seconds. An attempt curates and passes the locators of the
    curated list to the fetch engine. When the call fails with a failure
    of neither class of the inner loop the attempt has failed: before
    the fifth, a delay of five seconds and the next attempt follow, which
    curates again; at the fifth the process ends. When the call does
    not fail the operation returns normally, and so it does, without a
    call, when the curated list is empty, whichever attempt it is. So an
    engine that fails five times without writing a media file makes the
    operation curate five times, call the engine five times with the same
    locators, wait four times and end the process; and an engine that
    fails [k] times, [k] below five, and then succeeds makes it curate and
    call [k + 1] times, wait [k] times and return normally. *)
Theorem download_bounded_retries config w :
  (exists r w' t,
     download clock em watch_url ydl_download config w = Some (r, w') /\
     trace w' = trace w ++ t /\
     (1 <= curations t <= 5)%nat /\
     sleeps t = replicate (curations t - 1) 5 /\
     (r = Ok tt \/ (r = Exit (exit_code em) /\ curations t = 5%nat))) /\
  (forall remaining i w0 l e,
     _curate config w0 = Ok l -> l <> [] ->
     let urls := (fun video => watch_url (Video.id (deref w0 video))) <$> l in
     failure (ydl_download (fetches w0) urls) = Some e ->
     unclassified e ->
     let w1 := (fetch ydl_download urls (log (Curated l) w0)).2 in
     download_loop clock em watch_url ydl_download (S remaining) i config w0
       = if decide (i = 4) then Some (Exit (exit_code em), w1)
         else download_loop clock em watch_url ydl_download remaining (i + 1) config
                (log (Sleep 5) w1)) /\
  (forall remaining i w0 l,
     _curate config w0 = Ok l -> l <> [] ->
     let urls := (fun video => watch_url (Video.id (deref w0 video))) <$> l in
     failure (ydl_download (fetches w0) urls) = None ->
     download_loop clock em watch_url ydl_download (S remaining) i config w0
       = Some (Ok tt, (fetch ydl_download urls (log (Curated l) w0)).2)) /\
  (forall remaining i w0,
     _curate config w0 = Ok [] ->
     download_loop clock em watch_url ydl_download (S remaining) i config w0
       = Some (Ok tt, log (Curated []) w0)) /\
  (forall l k,
     _curate config w = Ok l -> l <> [] ->
     let urls := (fun video => watch_url (Video.id (deref w video))) <$> l in
     (forall j, (j < k)%nat -> (j < 5)%nat ->
        exists e, failure (ydl_download (fetches w + j) urls) = Some e /\
                  unclassified e /\
                  written (ydl_download (fetches w + j) urls) = []) ->
     ((k < 5)%nat -> failure (ydl_download (fetches w + k) urls) = None) ->
     exists w',
       download clock em watch_url ydl_download config w
         = Some (if decide (k < 5)%nat then Ok tt else Exit (exit_code em), w') /\
       heap w' = heap w /\ self w' = self w /\
       fetches w' = (fetches w + Nat.min (S k) 5)%nat /\
       trace w' = trace w ++ failed_attempts l urls (Nat.min k 4)
                    ++ [Curated l; Fetch urls]).
Proof.
  split; [|split; [|split; [|split]]].
  - destruct (download_loop_spec 5 config w ltac:(lia))
      as (r & w' & t & Hd & Ht & Hc & Hc' & Hs & Hr).
    exists r, w', t. split; [exact Hd|]. split; [done|].
    split; [split; [apply Hc'; lia|done]|]. done.
  - intros remaining i w0 l e Hcur Hl urls Hfail Hun w1. cbn [download_loop].
    rewrite (attempt_fails config w0 l e Hcur Hl Hfail Hun). fold urls. fold w1.
    unfold _err_dl, exit_code.
    destruct (Z.eqb_spec i 4) as [->|Hne]; cbn [negb].
    + rewrite decide_True by done. by destruct em.
    + by rewrite decide_False.
  - intros remaining i w0 l Hcur Hl urls Hfail. cbn [download_loop].
    by rewrite (attempt_succeeds config w0 l Hcur Hl Hfail).
  - intros remaining i w0 Hcur. cbn [download_loop]. unfold attempt.
    by rewrite Hcur.
  - intros l k Hcur Hl urls Hfails Hok.
    destruct (download_loop_failures 5 k config w l ltac:(lia) Hcur Hl Hfails Hok)
      as (w' & Hd & Hh & Hs & _ & Hf & Ht).
    exists w'. split; [exact Hd|]. done.
Qed.
Lemma _skip_video_none w0 l :
  (forall b, b ∈ l -> downloaded w0 b = true) ->
  _skip_video w0 l
    = Raise (Exception
        "We expected to skip a video and return it but nothing to skip was found").
Proof.
  induction l as [|a l IH]; intros Hall; cbn [_skip_video]; [done|].
  rewrite (Hall a) by left. cbn [negb]. apply IH.
  intros b Hb. apply Hall. by right.
Qed.

(** C3, as the code has it. When the fetch engine raises a failure
    classified as the item being private or removed by its owner and the
    pending list has an undownloaded item, the first such item and every
    item before it are removed from the pending list; the item's deletion
    history gets a true snapshot if and only if it was not already true,
    and the item is appended to the "deleted" bucket exactly in that case;
    the loop goes round again on the remainder within the same attempt:
    the only events are the fetch and the skip, no curation and no delay.
    A failure of the class "bytes, expected" that is not of the first
    class, met when the pending list has an undownloaded item, removes
    the first such item and every item before it from the pending list
    with a warning, leaves every object and the channel as they were, and
    the loop goes round again in the same way. A failure of either class
    met when no pending item is undownloaded ends the round with the
    exception of [_skip_video], raised to the outer retry loop. A failure
    that is of neither class is raised to the outer retry loop. *)
Theorem private_or_removed_is_skipped not_downloaded w :
  let urls := (fun video => watch_url (Video.id (deref w video))) <$> not_downloaded in
  let w1 := (fetch ydl_download urls w).2 in
  let bucket := fun w => Reporter.deleted (reporter (self w)) in
  (forall msg pre video rest,
     failure (ydl_download (fetches w) urls) = Some (DownloadError msg) ->
     is_private_or_removed msg = true ->
     not_downloaded = pre ++ video :: rest ->
     (forall b, b ∈ pre -> downloaded w1 b = true) ->
     downloaded w1 video = false ->
     (video < length (heap w))%nat ->
     exists w',
       fetch_round clock watch_url ydl_download not_downloaded w = Again rest w' /\
       (forall fuel,
          fetch_loop clock watch_url ydl_download (S fuel) not_downloaded w
            = fetch_loop clock watch_url ydl_download fuel rest w') /\
       current (Video.deleted (deref w' video)) = true /\
       (if current (Video.deleted (deref w video))
        then Video.deleted (deref w' video) = Video.deleted (deref w video) /\
             bucket w' = bucket w
        else later (Video.deleted (deref w' video))
               = later (Video.deleted (deref w video)) ++ [(clock (ticks w), true)] /\
             bucket w' = bucket w ++ [video]) /\
       (forall b, b <> video -> deref w' b = deref w b) /\
       trace w' = trace w ++ [Fetch urls; Skipped video false]) /\
  (forall msg pre video rest,
     failure (ydl_download (fetches w) urls) = Some (DownloadError msg) ->
     is_private_or_removed msg = false ->
     is_too_short msg = true ->
     not_downloaded = pre ++ video :: rest ->
     (forall b, b ∈ pre -> downloaded w1 b = true) ->
     downloaded w1 video = false ->
     fetch_round clock watch_url ydl_download not_downloaded w
       = Again rest (log (Skipped video true) w1) /\
     (forall fuel,
        fetch_loop clock watch_url ydl_download (S fuel) not_downloaded w
          = fetch_loop clock watch_url ydl_download fuel rest
              (log (Skipped video true) w1)) /\
     heap (log (Skipped video true) w1) = heap w /\
     self (log (Skipped video true) w1) = self w /\
     trace (log (Skipped video true) w1) = trace w ++ [Fetch urls; Skipped video true]) /\
  (forall msg,
     failure (ydl_download (fetches w) urls) = Some (DownloadError msg) ->
     is_private_or_removed msg = true \/ is_too_short msg = true ->
     (forall b, b ∈ not_downloaded -> downloaded w1 b = true) ->
     fetch_round clock watch_url ydl_download not_downloaded w
       = Done (Raise (Exception
           "We expected to skip a video and return it but nothing to skip was found"))
           w1) /\
  (forall e,
     failure (ydl_download (fetches w) urls) = Some e ->
     (forall msg, e = DownloadError msg ->
        is_private_or_removed msg = false /\ is_too_short msg = false) ->
     fetch_round clock watch_url ydl_download not_downloaded w = Done (Raise e) w1).
Proof.
  cbn zeta. split; [|split; [|split]].
  - intros msg pre video rest Hfail Hclass Hl Hpre Hv Hlt.
    assert (Hskip : _skip_video (fetch ydl_download
                       ((fun video => watch_url (Video.id (deref w video)))
                          <$> not_downloaded) w).2 not_downloaded = Ok (rest, video)).
    { apply _skip_video_Ok. by exists pre. }
    assert (Hround : exists w',
      fetch_round clock watch_url ydl_download not_downloaded w = Again rest w' /\
      current (Video.deleted (deref w' video)) = true /\
      (if current (Video.deleted (deref w video))
       then Video.deleted (deref w' video) = Video.deleted (deref w video) /\
            Reporter.deleted (reporter (self w')) = Reporter.deleted (reporter (self w))
       else later (Video.deleted (deref w' video))
              = later (Video.deleted (deref w video)) ++ [(clock (ticks w), true)] /\
            Reporter.deleted (reporter (self w'))
              = Reporter.deleted (reporter (self w)) ++ [video]) /\
      (forall b, b <> video -> deref w' b = deref w b) /\
      trace w' = trace w ++ [Fetch ((fun video => watch_url (Video.id (deref w video)))
                                      <$> not_downloaded); Skipped video false]).
    { unfold fetch_round. unfold fetch in *. cbn [snd] in Hskip.
      rewrite Hfail, Hclass, Hskip.
      unfold deref at 1. cbn [heap log].
      change (heap w !!! video) with (deref w video).
      destruct (current (Video.deleted (deref w video))) eqn:Hcur; cbn [negb].
      - eexists. split; [done|]. unfold deref. cbn.
        rewrite <- app_assoc. repeat split; try done.
      - eexists. split; [done|]. unfold mark_deleted, deref. cbn.
        rewrite list_lookup_total_insert_eq by done. cbn.
        rewrite current_update, <- app_assoc.
        split; [done|]. split.
        + split; [|done]. unfold Element_update.
          change (heap w !!! video) with (deref w video).
          rewrite decide_False; [done|]. by rewrite Hcur.
        + split; [|done]. intros b Hb.
          by rewrite list_lookup_total_insert_ne. }
    destruct Hround as (w' & Hr & Hc & Hd & Ho & Ht).
    exists w'. split; [done|]. split; [|done].
    intros fuel. cbn [fetch_loop]. by rewrite Hr.
  - intros msg pre video rest Hfail Hclass Hshort Hl Hpre Hv.
    assert (Hskip : _skip_video (fetch ydl_download
                       ((fun video => watch_url (Video.id (deref w video)))
                          <$> not_downloaded) w).2 not_downloaded = Ok (rest, video)).
    { apply _skip_video_Ok. by exists pre. }
    assert (Hround :
      fetch_round clock watch_url ydl_download not_downloaded w
        = Again rest (log (Skipped video true)
            (fetch ydl_download
               ((fun video => watch_url (Video.id (deref w video)))
                  <$> not_downloaded) w).2)).
    { unfold fetch_round. unfold fetch in *. cbn [snd] in Hskip |- *.
      by rewrite Hfail, Hclass, Hshort, Hskip. }
    split; [exact Hround|]. split.
    { intros fuel. cbn [fetch_loop]. by rewrite Hround. }
    split; [done|]. split; [done|].
    unfold fetch. cbn. by rewrite <- app_assoc.
  - intros msg Hfail Hclass Hall.
    assert (Hskip : _skip_video (fetch ydl_download
                       ((fun video => watch_url (Video.id (deref w video)))
                          <$> not_downloaded) w).2 not_downloaded
                    = Raise (Exception
           "We expected to skip a video and return it but nothing to skip was found")).
    { by apply _skip_video_none. }
    unfold fetch_round. unfold fetch in *. cbn [snd] in Hskip |- *.
    rewrite Hfail.
    destruct (is_private_or_removed msg) eqn:Hp.
    + by rewrite Hskip.
    + destruct Hclass as [Hc|Hc]; [done|]. by rewrite Hc, Hskip.
  - intros e Hfail Hclass. unfold fetch_round, fetch. rewrite Hfail. cbn [snd].
    destruct e as [key| | |msg|msg|msg|name]; try done.
    destruct (Hclass msg eq_refl) as [-> ->]. done.
Qed.
(** *** _parse_metadata *)

(** C2, on the code. When [_err_msg] returns, a group whose trailing token
    is none of "videos", "live" and "shorts" is passed over and the loop
    over the groups goes on, so the refresh merges the other groups and
    sweeps; the refresh stops there only if [_err_msg] itself ends the
    process. On the sample document, which has a "Videos" tab and a
    "Podcasts" tab, the refresh returns normally, the video "a" of the
    first tab is marked as observed and the three items that were not
    observed are reported as deleted. *)
Theorem unknown_kind_does_not_abort :
  (forall group rest acc,
     let kind := kind_of_title (entry_title (top group)) in
     kind <> "videos" -> kind <> "live" -> kind <> "shorts" ->
     normalize_groups ErrMsgReturns (group :: rest) acc
       = normalize_groups ErrMsgReturns rest acc /\
     forall code, normalize_groups (ErrMsgExits code) (group :: rest) acc = Exit code) /\
  (exists w',
     _parse_metadata Sample.clock ErrMsgReturns Sample.nested Sample.world = (Ok tt, w') /\
     Video.known_not_deleted (deref w' 0%nat) = true /\
     Reporter.deleted (reporter (self w')) = [1%nat; 2%nat; 3%nat]).
Proof.
  split.
  - intros group rest [[vs ls] ss] kind H1 H2 H3. subst kind.
    split; [|intros code]; cbn [normalize_groups]; by rewrite !decide_False by done.
  - eexists. split; [vm_compute; reflexivity|]. split; reflexivity.
Qed.

End ArchiveFacts.

(** * The statements at the sample data *)

Lemma sample_world_well_formed : well_formed Sample.world.
Proof.
  split.
  - apply (bool_decide_unpack _). vm_compute. reflexivity.
  - intros a Ha. cbn in Ha.
    repeat (apply elem_of_cons in Ha as [->|Ha]); cbn; try lia.
    by apply elem_of_nil in Ha.
Qed.

(** Searching the sample archive for the livestream "x" fails, and
    searching it for the video "b" returns the object at address 1. *)
Lemma search_scans_videos_only_witness :
  search "x" Sample.world
    = Raise (VideoNotFoundException "Couldn't find x inside archive")
  /\ search "b" Sample.world = Ok 1%nat.
Proof.
  split.
  - apply (proj1 (search_scans_videos_only "x" Sample.world) 3%nat).
    + left. cbn. left.
    + reflexivity.
    + intros b Hb. cbn in Hb.
      repeat (apply elem_of_cons in Hb as [->|Hb]); try (vm_compute; discriminate).
      by apply elem_of_nil in Hb.
  - apply (proj2 (search_scans_videos_only "b" Sample.world) [0%nat] 1%nat [2%nat]).
    + reflexivity.
    + reflexivity.
    + intros b Hb. apply list_elem_of_singleton in Hb as ->. vm_compute. discriminate.
Defined.

(** With three undownloaded videos and a maximum of 3, the third video is
    not curated. *)
Lemma curate_list_reserves_last_witness :
  curate_list Sample.world [0%nat; 1%nat; 2%nat] (Some 3) = Ok [0%nat; 1%nat]
  /\ curate_list Sample.world [0%nat; 1%nat; 2%nat] (Some 3)
     <> Ok [0%nat; 1%nat; 2%nat].
Proof.
  apply (curate_list_reserves_last Sample.world [0%nat; 1%nat] 2%nat 3).
  - cbn. lia.
  - vm_compute. reflexivity.
Defined.

(** The "Podcasts" tab of the sample document is passed over when
    [_err_msg] returns. *)
Lemma unknown_kind_does_not_abort_witness :
  normalize_groups ErrMsgReturns Sample.nested ([], [], [])
    = Ok ([Sample.entry "a" 30 (Some ["mp4"])], [], []).
Proof.
  pose proof (proj1 unknown_kind_does_not_abort) as H.
  specialize (H (Sample.group "Some channel - Podcasts"
                   [Sample.entry "p" 40 (Some ["mp4"])])
                [] ([Sample.entry "a" 30 (Some ["mp4"])], [], [])).
  cbn zeta in H.
  destruct H as [H _]; [vm_compute; discriminate ..|].
  unfold Sample.nested, Sample.group. cbn [normalize_groups top entries].
  rewrite decide_True by (vm_compute; reflexivity). exact H.
Defined.

(** In the sample archive the first call of the engine fetches "a" and
    fails on "b", removed by its owner: "a" and "b" leave the pending
    list, "b" is flagged and reported, and the loop goes on. A truncated
    file makes the loop skip "a" and go on, nothing flagged. A private
    video met when every pending item has its media file, and a server
    that cannot be reached, end the round with an exception. *)
Lemma private_or_removed_is_skipped_witness :
  let nd := [0%nat; 1%nat; 2%nat; 3%nat] in
  let urls := (fun video => Sample.watch_url (Video.id (deref Sample.world video)))
                <$> nd in
  (exists w',
     fetch_round Sample.clock Sample.watch_url Sample.engine_removed nd Sample.world
       = Again [2%nat; 3%nat] w' /\
     current (Video.deleted (deref w' 1%nat)) = true /\
     Reporter.deleted (reporter (self w')) = [1%nat]) /\
  (exists w',
     fetch_round Sample.clock Sample.watch_url Sample.engine_too_short nd Sample.world
       = Again [1%nat; 2%nat; 3%nat] w' /\
     heap w' = heap Sample.world /\ self w' = self Sample.world) /\
  fetch_round Sample.clock Sample.watch_url Sample.engine_private nd Sample.world
    = Done (Raise (Exception
        "We expected to skip a video and return it but nothing to skip was found"))
        (fetch Sample.engine_private urls Sample.world).2 /\
  fetch_round Sample.clock Sample.watch_url Sample.engine_down nd Sample.world
    = Done (Raise (DownloadError "<urlopen error timed out>"))
        (fetch Sample.engine_down urls Sample.world).2.
Proof.
  cbn zeta. split; [|split; [|split]].
  - destruct (proj1 (private_or_removed_is_skipped Sample.clock Sample.watch_url
                       Sample.engine_removed [0%nat; 1%nat; 2%nat; 3%nat] Sample.world)
                "ERROR: [youtube] b: This video has been removed by the uploader"
                [0%nat] 1%nat [2%nat; 3%nat])
      as (w' & Hr & _ & Hc & Hd & _).
    + reflexivity.
    + vm_compute. reflexivity.
    + reflexivity.
    + intros b Hb. apply list_elem_of_singleton in Hb as ->. vm_compute. reflexivity.
    + vm_compute. reflexivity.
    + cbn. lia.
    + exists w'. split; [exact Hr|]. split; [exact Hc|].
      change (current (Video.deleted (deref Sample.world 1%nat))) with false in Hd.
      exact (proj2 Hd).
  - destruct (proj1 (proj2 (private_or_removed_is_skipped Sample.clock Sample.watch_url
                       Sample.engine_too_short [0%nat; 1%nat; 2%nat; 3%nat] Sample.world))
                "ERROR: Did not get any data blocks; 10 bytes, expected 20"
                [] 0%nat [1%nat; 2%nat; 3%nat])
      as (Hr & _ & Hh & Hs & _).
    + reflexivity.
    + vm_compute. reflexivity.
    + vm_compute. reflexivity.
    + reflexivity.
    + intros b Hb. by apply elem_of_nil in Hb.
    + vm_compute. reflexivity.
    + eexists. split; [exact Hr|]. split; [exact Hh|exact Hs].
  - apply (proj1 (proj2 (proj2 (private_or_removed_is_skipped Sample.clock
                    Sample.watch_url Sample.engine_private
                    [0%nat; 1%nat; 2%nat; 3%nat] Sample.world)))
             "ERROR: [youtube] c: Private video. Sign in").
    + reflexivity.
    + left. vm_compute. reflexivity.
    + intros b Hb.
      repeat (apply elem_of_cons in Hb as [->|Hb]); try (vm_compute; reflexivity).
      by apply elem_of_nil in Hb.
  - apply (proj2 (proj2 (proj2 (private_or_removed_is_skipped Sample.clock
                    Sample.watch_url Sample.engine_down
                    [0%nat; 1%nat; 2%nat; 3%nat] Sample.world)))).
    + reflexivity.
    + intros msg [= <-]. split; vm_compute; reflexivity.
Defined.




(** The sample archive with an engine that cannot reach the server: five
    curations, five calls with the four locators, four delays, then the
    process ends with status 1. With an engine that fails twice and then
    fetches: three curations and calls, two delays, and a normal return.
    With nothing to download the first attempt ends the operation. *)
Lemma download_bounded_retries_witness :
  let l := [0%nat; 1%nat; 2%nat; 3%nat] in
  let urls := Sample.watch_url <$> ["a"; "b"; "c"; "x"] in
  (exists w',
     download Sample.clock ErrMsgReturns Sample.watch_url Sample.engine_down
       (Sample.config None) Sample.world = Some (Exit 1, w') /\
     fetches w' = 5%nat /\
     trace w' = failed_attempts l urls 4 ++ [Curated l; Fetch urls]) /\
  (exists w',
     download Sample.clock ErrMsgReturns Sample.watch_url Sample.engine_flaky
       (Sample.config None) Sample.world = Some (Ok tt, w') /\
     fetches w' = 3%nat /\
     trace w' = failed_attempts l urls 2 ++ [Curated l; Fetch urls]) /\
  (exists r w' t,
     download Sample.clock ErrMsgReturns Sample.watch_url Sample.engine_down
       (Sample.config None) Sample.world = Some (r, w') /\
     trace w' = trace Sample.world ++ t /\ (1 <= curations t <= 5)%nat) /\
  download_loop Sample.clock ErrMsgReturns Sample.watch_url Sample.engine_down
    5 0 (Sample.config None) Sample.empty
    = Some (Ok tt, log (Curated []) Sample.empty).
Proof.
  cbn zeta.
  destruct (download_bounded_retries Sample.clock ErrMsgReturns Sample.watch_url
              Sample.engine_down (Sample.config None) Sample.world)
    as (H1 & _ & _ & _ & H5).
  destruct (download_bounded_retries Sample.clock ErrMsgReturns Sample.watch_url
              Sample.engine_flaky (Sample.config None) Sample.world)
    as (_ & _ & _ & _ & H5').
  destruct (download_bounded_retries Sample.clock ErrMsgReturns Sample.watch_url
              Sample.engine_down (Sample.config None) Sample.empty)
    as (_ & _ & _ & H4 & _).
  split; [|split; [|split]].
  - destruct (H5 [0%nat; 1%nat; 2%nat; 3%nat] 5%nat) as (w' & Hd & _ & _ & Hf & Ht).
    + vm_compute. reflexivity.
    + discriminate.
    + intros j Hj _. eexists. split; [reflexivity|]. split; [|reflexivity].
      intros msg [= <-]. split; vm_compute; reflexivity.
    + lia.
    + exists w'. split; [exact Hd|]. split; [exact Hf|exact Ht].
  - destruct (H5' [0%nat; 1%nat; 2%nat; 3%nat] 2%nat) as (w' & Hd & _ & _ & Hf & Ht).
    + vm_compute. reflexivity.
    + discriminate.
    + intros [|[|j]] Hj _; [| |lia];
        (eexists; split; [reflexivity|]; split; [|reflexivity];
         intros msg [= <-]; split; vm_compute; reflexivity).
    + intros _. reflexivity.
    + exists w'. split; [exact Hd|]. split; [exact Hf|exact Ht].
  - destruct H1 as (r & w' & t & Hd & Ht & Hc & _).
    exists r, w', t. split; [exact Hd|]. split; [exact Ht|exact Hc].
  - exact (H4 4%nat 0 Sample.empty eq_refl).
Defined.

(** A failure of the class "bytes, expected" is not of the class private
    or removed, and yet it is not raised to the outer loop: the first
    undownloaded item is skipped with a warning and the loop goes on. And
    a failure of the class private, met when every pending item has its
    media file, removes nothing from the pending list: the round ends with
    an exception for the outer loop. *)
Lemma too_short_failure_is_not_propagated :
  let not_downloaded := [0%nat; 1%nat; 2%nat; 3%nat] in
  let urls := (fun video => Sample.watch_url (Video.id (deref Sample.world video)))
                <$> not_downloaded in
  let msg := "ERROR: Did not get any data blocks; 10 bytes, expected 20" in
  (failure (Sample.engine_too_short (fetches Sample.world) urls)
     = Some (DownloadError msg) /\
   is_private_or_removed msg = false /\
   (exists w',
      fetch_round Sample.clock Sample.watch_url Sample.engine_too_short
        not_downloaded Sample.world = Again [1%nat; 2%nat; 3%nat] w' /\
      trace w' = [Fetch urls; Skipped 0%nat true]) /\
   forall w1,
     fetch_round Sample.clock Sample.watch_url Sample.engine_too_short
       not_downloaded Sample.world <> Done (Raise (DownloadError msg)) w1) /\
  (is_private_or_removed "ERROR: [youtube] c: Private video. Sign in" = true /\
   exists w1,
     fetch_round Sample.clock Sample.watch_url Sample.engine_private
       not_downloaded Sample.world
     = Done (Raise (Exception
         "We expected to skip a video and return it but nothing to skip was found")) w1).
Proof.
  cbn zeta. split.
  - split; [reflexivity|]. split; [vm_compute; reflexivity|]. split.
    + eexists. split; [vm_compute; reflexivity|]. reflexivity.
    + intros w1. vm_compute. discriminate.
  - split; [vm_compute; reflexivity|]. eexists. vm_compute. reflexivity.
Qed.

(** The sample version-1 document has a video: where
    [Video._new_empty()] raises, its migration ends with that exception
    and leaves a version-2 document; where it returns, the video gets its
    "deleted" history. The version-1 document without videos migrates to
    version 3 either way. *)
Lemma migrate_v1_to_current_witness :
  (exists enc',
     Migrate._migrate_archive Sample.clock ErrMsgReturns Sample.new_empty_broken
       1 ARCHIVE_COMPAT Sample.v1
       = Some (Migrate.Raised (NameError "Channel") enc') /\
     enc' !! "version" = Some (JNum 2) /\
     enc' !! "videos" = Sample.v1 !! "videos") /\
  (exists out,
     Migrate._migrate_archive Sample.clock ErrMsgReturns Sample.new_empty_broken
       1 ARCHIVE_COMPAT Sample.v1_empty = Some (Migrate.Returned out) /\
     out !! "id" = None /\
     out !! "url" = Some (JStr "https://www.youtube.com/channel/UCabc") /\
     out !! "version" = Some (JNum 3)) /\
  (exists out videos',
     Migrate._migrate_archive Sample.clock ErrMsgReturns Migrate.NewEmptyReturns
       1 ARCHIVE_COMPAT Sample.v1 = Some (Migrate.Returned out) /\
     out !! "videos" = Some (JList videos') /\
     videos' !! 0%nat
       = Some (JDict {[ "id" := JStr "a"; "uploaded" := JNum 30;
                        "deleted" := JDict {[ "history" :=
                          JList [JList [JNum 1700000000; JBool false]] ]} ]})).
Proof.
  split; [|split].
  - destruct (migrate_v1_to_current Sample.clock ErrMsgReturns Sample.new_empty_broken
                Sample.v1 "UCabc" [JDict {[ "id" := JStr "a"; "uploaded" := JNum 30 ]}])
      as (_ & _ & Hraise).
    + vm_compute. reflexivity.
    + vm_compute. reflexivity.
    + reflexivity.
    + destruct (Hraise (NameError "Channel") eq_refl ltac:(discriminate))
        as (Hm & Hv & _ & _ & Hvs).
      eexists. split; [exact Hm|]. split; [exact Hv|]. rewrite Hvs.
      vm_compute. reflexivity.
  - destruct (migrate_v1_to_current Sample.clock ErrMsgReturns Sample.new_empty_broken
                Sample.v1_empty "UCabc" [])
      as (_ & Hret & _).
    + vm_compute. reflexivity.
    + vm_compute. reflexivity.
    + reflexivity.
    + destruct (Hret (or_intror eq_refl))
        as (enc2 & t & out & videos' & _ & _ & Hm & _ & Hid & Hurl & _ & _ & Hv & _).
      exists out. split; [exact Hm|]. split; [exact Hid|]. split; [exact Hurl|exact Hv].
  - destruct (migrate_v1_to_current Sample.clock ErrMsgReturns Migrate.NewEmptyReturns
                Sample.v1 "UCabc" [JDict {[ "id" := JStr "a"; "uploaded" := JNum 30 ]}])
      as (_ & Hret & _).
    + vm_compute. reflexivity.
    + vm_compute. reflexivity.
    + reflexivity.
    + destruct (Hret (or_introl eq_refl))
        as (enc2 & t & out & videos' & _ & _ & Hm & _ & _ & _ & _ & _ & _ & Hvs & _ & Hk & _).
      exists out, videos'. split; [exact Hm|]. split; [exact Hvs|].
      rewrite (Hk 0%nat {[ "id" := JStr "a"; "uploaded" := JNum 30 ]} eq_refl).
      vm_compute. reflexivity.
Defined.

(** The sample document of version 7 ends the process with status 1 and is
    left as it was. *)
Lemma unknown_version_is_fatal_witness :
  exists code,
    Migrate._migrate_archive Sample.clock ErrMsgReturns Sample.new_empty_broken
      7 ARCHIVE_COMPAT Sample.v7 = Some (Migrate.Exited code Sample.v7) /\
    Migrate.load_encoded Sample.clock ErrMsgReturns Sample.new_empty_broken Sample.v7
      = Some (Migrate.Exited code Sample.v7) /\
    code = 1.
Proof.
  destruct (unknown_version_is_fatal Sample.clock ErrMsgReturns Sample.new_empty_broken
              7 Sample.v7)
    as (code & Hm & Hl & Hc).
  - unfold ARCHIVE_COMPAT. lia.
  - lia.
  - lia.
  - exists code. split; [exact Hm|]. split; [|exact (Hc eq_refl)].
    apply Hl. vm_compute. reflexivity.
Defined.

(** Migrating the version-1 document without videos and then migrating or
    loading the result does not change it any more, also where
    [Video._new_empty()] raises. *)
Lemma migration_idempotent_at_target_witness :
  exists out,
    Migrate._migrate_archive Sample.clock ErrMsgReturns Sample.new_empty_broken
      1 ARCHIVE_COMPAT Sample.v1_empty = Some (Migrate.Returned out) /\
    out !! "version" = Some (JNum ARCHIVE_COMPAT) /\
    Migrate._migrate_archive Sample.clock ErrMsgReturns Sample.new_empty_broken
      ARCHIVE_COMPAT ARCHIVE_COMPAT out = Some (Migrate.Returned out) /\
    Migrate.load_encoded Sample.clock ErrMsgReturns Sample.new_empty_broken out
      = Some (Migrate.Returned out).
Proof.
  destruct (migration_idempotent_at_target Sample.clock ErrMsgReturns
              Sample.new_empty_broken) as (_ & H2 & H3).
  destruct (H3 Sample.v1_empty "UCabc" []) as [out Hm].
  - vm_compute. reflexivity.
  - vm_compute. reflexivity.
  - reflexivity.
  - right. reflexivity.
  - exists out. split; [exact Hm|]. exact (H2 Sample.v1_empty out Hm).
Defined.

(** * Further properties of the schema migration *)

Ltac z_cases :=
  repeat match goal with
         | |- context [Z.eqb ?a ?b] => destruct (Z.eqb_spec a b); try lia
         end.

Section MigrateMore.
Import Migrate.
Variable clock : nat -> Z.
Variable em : err_msg_behaviour.
Variable ne : new_empty_behaviour.

(** The step from version 2 over a whole document. *)
Lemma v2_to_v3_records encoded vs ls ss :
  encoded !! "videos" = Some (JList vs) ->
  encoded !! "livestreams" = Some (JList ls) ->
  encoded !! "shorts" = Some (JList ss) ->
  ne = NewEmptyReturns \/ vs ++ ls ++ ss = [] ->
  forallb is_record (vs ++ ls ++ ss) = true ->
  exists vs' ls' ss',
    v2_to_v3 clock ne 0 encoded
      = (<["shorts" := JList ss']> (<["livestreams" := JList ls']>
           (<["videos" := JList vs']> encoded)),
         (length vs + length ls + length ss)%nat, None) /\
    stamped clock 0 vs vs' /\
    stamped clock (length vs) ls ls' /\
    stamped clock (length vs + length ls) ss ss'.
Proof.
  intros Hv Hl Hs Hne Hrec. unfold v2_to_v3.
  rewrite !forallb_app in Hrec.
  apply andb_prop in Hrec as [Hrv Hrec]. apply andb_prop in Hrec as [Hrl Hrs].
  assert (Hnv : ne = NewEmptyReturns \/ vs = []).
  { destruct Hne as [?|Hn]; [by left|right]. by apply app_eq_nil in Hn as [? _]. }
  assert (Hnl : ne = NewEmptyReturns \/ ls = []).
  { destruct Hne as [?|Hn]; [by left|right].
    apply app_eq_nil in Hn as [_ Hn]. by apply app_eq_nil in Hn as [? _]. }
  assert (Hns : ne = NewEmptyReturns \/ ss = []).
  { destruct Hne as [?|Hn]; [by left|right].
    apply app_eq_nil in Hn as [_ Hn]. by apply app_eq_nil in Hn as [_ ?]. }
  destruct (add_deleted_in_records clock ne "videos" 0 encoded vs Hv Hnv Hrv)
    as (vs' & -> & Hsv).
  destruct (add_deleted_in_records clock ne "livestreams" (0 + length vs)
              (<["videos" := JList vs']> encoded) ls) as (ls' & -> & Hsl);
    [by simplify_map_eq|done|done|].
  destruct (add_deleted_in_records clock ne "shorts" (0 + length vs + length ls)
              (<["livestreams" := JList ls']> (<["videos" := JList vs']> encoded)) ss)
    as (ss' & -> & Hss); [by simplify_map_eq|done|done|].
  exists vs', ls', ss'. done.
Qed.

(** When [Video._new_empty()] raises, the step from version 2 stops at the
    first item of the three collections and has written nothing. *)
Lemma v2_to_v3_raises encoded vs ls ss e :
  encoded !! "videos" = Some (JList vs) ->
  encoded !! "livestreams" = Some (JList ls) ->
  encoded !! "shorts" = Some (JList ss) ->
  ne = NewEmptyRaises e ->
  vs ++ ls ++ ss <> [] ->
  v2_to_v3 clock ne 0 encoded = (encoded, 0%nat, Some e).
Proof.
  intros Hv Hl Hs Hne Hsome. unfold v2_to_v3.
  destruct vs as [|v vs].
  2:{ by rewrite (add_deleted_in_raises clock ne "videos" 0 encoded e (v :: vs)). }
  rewrite add_deleted_in_empty by done.
  destruct ls as [|v ls].
  2:{ by rewrite (add_deleted_in_raises clock ne "livestreams" 0 encoded e (v :: ls)). }
  rewrite add_deleted_in_empty by done.
  destruct ss as [|v ss]; [done|].
  by rewrite (add_deleted_in_raises clock ne "shorts" 0 encoded e (v :: ss)).
Qed.

(** The step from version 2 on a document whose three collections are
    lists calls [Video._new_empty()] for the first item it meets. If the
    call returns and the items are records, or if there is no item, the
    migration returns a version-3 document: every record of every
    collection has got a "deleted" history of one snapshot holding false,
    the clock read once per record in the order videos, livestreams,
    shorts, and every other field of the document is unchanged. If the
    call raises and there is an item, the migration ends with its
    exception and the document is exactly as it was, still at version
    2. *)
Theorem migrate_v2_to_current encoded vs ls ss :
  encoded !! "videos" = Some (JList vs) ->
  encoded !! "livestreams" = Some (JList ls) ->
  encoded !! "shorts" = Some (JList ss) ->
  (ne = NewEmptyReturns \/ vs ++ ls ++ ss = [] ->
   forallb is_record (vs ++ ls ++ ss) = true ->
   exists out vs' ls' ss',
     _migrate_archive clock em ne 2 ARCHIVE_COMPAT encoded = Some (Returned out) /\
     out !! "version" = Some (JNum 3) /\
     out !! "videos" = Some (JList vs') /\
     out !! "livestreams" = Some (JList ls') /\
     out !! "shorts" = Some (JList ss') /\
     stamped clock 0 vs vs' /\
     stamped clock (length vs) ls ls' /\
     stamped clock (length vs + length ls) ss ss' /\
     (forall key, key ∉ ["version"; "videos"; "livestreams"; "shorts"] ->
        out !! key = encoded !! key)) /\
  (forall e, ne = NewEmptyRaises e -> vs ++ ls ++ ss <> [] ->
     _migrate_archive clock em ne 2 ARCHIVE_COMPAT encoded = Some (Raised e encoded)).
Proof.
  intros Hv Hl Hs. split.
  - intros Hne Hrec.
    destruct (v2_to_v3_records encoded vs ls ss Hv Hl Hs Hne Hrec)
      as (vs' & ls' & ss' & H2 & Hsv & Hsl & Hss).
    eexists _, vs', ls', ss'. split.
    { unfold _migrate_archive, migrate_depth, ARCHIVE_COMPAT. cbn [migrate_step].
      z_cases. rewrite H2. change (2 + 1) with 3. z_cases. reflexivity. }
    split; [by simplify_map_eq|]. split; [by simplify_map_eq|].
    split; [by simplify_map_eq|]. split; [by simplify_map_eq|].
    split; [done|]. split; [done|]. split; [done|].
    intros key Hkey.
    repeat (apply not_elem_of_cons in Hkey as [? Hkey]).
    by simplify_map_eq.
  - intros e Hne Hsome.
    unfold _migrate_archive, migrate_depth, ARCHIVE_COMPAT. cbn [migrate_step].
    z_cases. by rewrite (v2_to_v3_raises encoded vs ls ss e).
Qed.

(** A version-1 document without an "id", or whose "id" is not a string,
    makes the migration raise KeyError, respectively TypeError, before
    anything is written: the dictionary is as it was. *)
Theorem migrate_v1_without_id encoded :
  (encoded !! "id" = None ->
   _migrate_archive clock em ne 1 ARCHIVE_COMPAT encoded
     = Some (Raised (KeyError "id") encoded)) /\
  (forall v, encoded !! "id" = Some v -> (forall s, v <> JStr s) ->
   _migrate_archive clock em ne 1 ARCHIVE_COMPAT encoded
     = Some (Raised TypeError encoded)).
Proof.
  split.
  - intros Hid. unfold _migrate_archive, migrate_depth, ARCHIVE_COMPAT.
    cbn [migrate_step]. z_cases. unfold v1_to_v2. by rewrite Hid.
  - intros v Hid Hv. unfold _migrate_archive, migrate_depth, ARCHIVE_COMPAT.
    cbn [migrate_step]. z_cases. unfold v1_to_v2. rewrite Hid.
    destruct v; try done. by destruct (Hv s).
Qed.

(** A failure in the second step leaves the work done so far in place. A
    version-1 document with an "id" but no "videos" ends with KeyError
    "videos" as a version-2 document: the id is replaced by the url and
    the empty collections are there. So does a version-1 document that
    has a video when [Video._new_empty()] raises: it ends with that
    exception as a version-2 document, its videos untouched. A version-2
    document whose videos are records and that has no "livestreams" ends
    with KeyError "livestreams" and its version still the stored one; its
    videos already carry the "deleted" history when there are any and
    [Video._new_empty()] returned for them. *)
Theorem migration_failure_is_partial encoded :
  (forall id,
     encoded !! "id" = Some (JStr id) -> encoded !! "videos" = None ->
     exists enc',
       _migrate_archive clock em ne 1 ARCHIVE_COMPAT encoded
         = Some (Raised (KeyError "videos") enc') /\
       enc' !! "version" = Some (JNum 2) /\
       enc' !! "id" = None /\
       enc' !! "url" = Some (JStr (channel_url_prefix +:+ id)) /\
       enc' !! "livestreams" = Some (JList []) /\
       enc' !! "shorts" = Some (JList [])) /\
  (forall id video videos e,
     encoded !! "id" = Some (JStr id) ->
     encoded !! "videos" = Some (JList (video :: videos)) ->
     ne = NewEmptyRaises e ->
     exists enc',
       _migrate_archive clock em ne 1 ARCHIVE_COMPAT encoded = Some (Raised e enc') /\
       enc' !! "version" = Some (JNum 2) /\
       enc' !! "id" = None /\
       enc' !! "url" = Some (JStr (channel_url_prefix +:+ id)) /\
       enc' !! "livestreams" = Some (JList []) /\
       enc' !! "shorts" = Some (JList []) /\
       enc' !! "videos" = Some (JList (video :: videos))) /\
  (forall vs,
     encoded !! "videos" = Some (JList vs) -> forallb is_record vs = true ->
     ne = NewEmptyReturns \/ vs = [] ->
     encoded !! "livestreams" = None ->
     exists vs',
       _migrate_archive clock em ne 2 ARCHIVE_COMPAT encoded
         = Some (Raised (KeyError "livestreams") (<["videos" := JList vs']> encoded)) /\
       stamped clock 0 vs vs').
Proof.
  split; [|split].
  - intros id Hid Hv. eexists. split.
    + unfold _migrate_archive, migrate_depth, ARCHIVE_COMPAT. cbn [migrate_step].
      z_cases. unfold v1_to_v2. rewrite Hid. change (1 + 1) with 2. z_cases.
      unfold v2_to_v3. rewrite add_deleted_in_missing by (by simplify_map_eq).
      reflexivity.
    + repeat split; by simplify_map_eq.
  - intros id video videos e Hid Hv Hne. eexists. split.
    + unfold _migrate_archive, migrate_depth, ARCHIVE_COMPAT. cbn [migrate_step].
      z_cases. unfold v1_to_v2. rewrite Hid. change (1 + 1) with 2. z_cases.
      unfold v2_to_v3.
      rewrite (add_deleted_in_raises clock ne "videos" 0 _ e (video :: videos));
        [reflexivity|done|by simplify_map_eq|done].
    + repeat split; by simplify_map_eq.
  - intros vs Hv Hrec Hne Hl.
    destruct (add_deleted_in_records clock ne "videos" 0 encoded vs Hv Hne Hrec)
      as (vs' & Heq & Hsv).
    exists vs'. split; [|done].
    unfold _migrate_archive, migrate_depth, ARCHIVE_COMPAT. cbn [migrate_step].
    z_cases. unfold v2_to_v3. rewrite Heq.
    rewrite add_deleted_in_missing by (by simplify_map_eq). reflexivity.
Qed.

(** The recursion of the migration ends within three calls, whatever the
    versions and the document: with three calls or more allowed the result
    is there and does not depend on the bound. *)
Theorem migration_terminates expected cur encoded fuel :
  (migrate_depth <= fuel)%nat ->
  exists o,
    migrate_step clock em ne fuel expected 0 cur encoded = Some o /\
    _migrate_archive clock em ne cur expected encoded = Some o.
Proof.
  intros Hfuel.
  destruct (migrate_step_fuel clock em ne expected 0 cur encoded) as [o Ho].
  exists o. split; [by apply Ho|]. unfold _migrate_archive. by apply Ho.
Qed.

(** Loading always ends, and whenever it hands a document on to the
    decoder the document's "version" is 3: it was stored so, or the
    document went through the steps from version 1 or 2 (a stored [true]
    counts as 1). *)
Theorem load_yields_current_version encoded :
  (exists o, load_encoded clock em ne encoded = Some o) /\
  (forall out,
     load_encoded clock em ne encoded = Some (Returned out) ->
     out !! "version" = Some (JNum ARCHIVE_COMPAT) /\
     (encoded !! "version" = Some (JNum ARCHIVE_COMPAT) /\ out = encoded \/
      encoded !! "version" = Some (JNum 1) \/
      encoded !! "version" = Some (JNum 2) \/
      encoded !! "version" = Some (JBool true))).
Proof.
  split.
  - unfold load_encoded. destruct (encoded !! "version") as [[| b | n | | |]|];
      try by eexists.
    + destruct (migrate_step_fuel clock em ne ARCHIVE_COMPAT 0 (Z.b2z b) encoded) as [o Ho].
      exists o. unfold _migrate_archive. by apply Ho.
    + destruct (n =? ARCHIVE_COMPAT); [by eexists|].
      destruct (migrate_step_fuel clock em ne ARCHIVE_COMPAT 0 n encoded) as [o Ho].
      exists o. unfold _migrate_archive. by apply Ho.
  - intros out. unfold load_encoded.
    destruct (encoded !! "version") as [[| b | n | | |]|] eqn:Hv; try done.
    + unfold unknown_version. by destruct em.
    + intros Hm. apply migrate_returns_version in Hm as [Hout Hcur];
        [|by destruct b].
      split; [done|]. destruct b; cbn in Hcur; [auto|lia].
    + destruct (Z.eqb_spec n ARCHIVE_COMPAT) as [->|Hne].
      * intros [= <-]. split; [done|]. by left.
      * intros Hm. apply migrate_returns_version in Hm as [Hout [->| ->]]; auto.
    + unfold unknown_version. by destruct em.
    + unfold unknown_version. by destruct em.
    + unfold unknown_version. by destruct em.
Qed.

End MigrateMore.

(** * Further properties of the archive operations *)

(** *** DownloadConfig.submit *)

(** Submitting a configuration is idempotent and leaves [skip_metadata]
    and [format] alone. With no maximum given the maxima stay unset; with
    one given, every maximum is set afterwards: a given one keeps its value
    and a missing one becomes 0. Downloads are switched off exactly when
    they were already or when the three maxima are then 0. *)
Theorem submit_normalises config :
  submit (submit config) = submit config /\
  skip_metadata (submit config) = skip_metadata config /\
  format (submit config) = format config /\
  (max_videos config = None -> max_livestreams config = None ->
   max_shorts config = None ->
   submit config = config) /\
  ((max_videos config <> None \/ max_livestreams config <> None
    \/ max_shorts config <> None) ->
   max_videos (submit config) = Some (default 0 (max_videos config)) /\
   max_livestreams (submit config) = Some (default 0 (max_livestreams config)) /\
   max_shorts (submit config) = Some (default 0 (max_shorts config))) /\
  skip_download (submit config)
    = (skip_download config
       || (is_zero (max_videos (submit config))
           && is_zero (max_livestreams (submit config))
           && is_zero (max_shorts (submit config))))%bool.
Proof.
  destruct config as [[mv|] [ml|] [ms|] sd sm fmt]; unfold submit; cbn;
    repeat match goal with
           | |- context [Z.eqb ?a 0] => destruct (Z.eqb_spec a 0); cbn
           end;
    repeat split; try done; try (intros; discriminate);
    try (by destruct sd); try (by rewrite ?orb_true_r, ?orb_false_r).
  all: by destruct H as [?|[?|?]].
Qed.

(** Once a maximum is given for one category only, the submitted
    configuration curates that category alone: the other two, whose maxima
    became 0, contribute nothing. *)
Theorem single_maximum_excludes_others w config m :
  (max_videos config = Some m -> max_livestreams config = None ->
   max_shorts config = None ->
   _curate (submit config) w = curate_list w (videos (self w)) (Some m)) /\
  (max_videos config = None -> max_livestreams config = Some m ->
   max_shorts config = None ->
   _curate (submit config) w = curate_list w (livestreams (self w)) (Some m)) /\
  (max_videos config = None -> max_livestreams config = None ->
   max_shorts config = Some m ->
   _curate (submit config) w = curate_list w (shorts (self w)) (Some m)).
Proof.
  assert (Hzero : forall l, curate_list w l (Some 0) = Ok []).
  { intros l. rewrite curate_list_capped.
    replace (Z.to_nat _) with 0%nat by lia. by rewrite take_0. }
  destruct config as [mv ml ms sd sm fmt]. cbn.
  split; [|split]; intros -> -> ->; unfold submit; cbn;
    destruct (m =? 0); cbn; unfold _curate; cbn; rewrite !Hzero;
    rewrite curate_list_capped; by rewrite ?app_nil_r.
Qed.

(** *** _curate and _skip_video *)

Lemma filter_sublist {A} (f : A -> bool) (l : list A) : List.filter f l `sublist_of` l.
Proof.
  induction l as [|a l IH]; cbn; [constructor|].
  destruct (f a); by constructor.
Qed.

Lemma filter_Forall_true {A} (f : A -> bool) (l : list A) :
  Forall (fun a => f a = true) (List.filter f l).
Proof.
  apply Forall_forall. intros a Ha. apply list_elem_of_In in Ha.
  by apply List.filter_In in Ha as [_ Ha].
Qed.

Lemma filter_length_le {A} (f : A -> bool) (l : list A) :
  (length (List.filter f l) <= length l)%nat.
Proof. apply sublist_length, filter_sublist. Qed.

Lemma curate_list_spec w l maximum :
  exists c,
    curate_list w l maximum = Ok c /\
    c `sublist_of` l /\
    Forall (fun a => downloaded w a = false) c /\
    (length c <= allowance maximum (length l))%nat /\
    (maximum = None -> c = List.filter (fun a => negb (downloaded w a)) l).
Proof.
  destruct maximum as [m|].
  - eexists. split; [apply curate_list_capped|]. split; [|split; [|split]].
    + etrans; [apply filter_sublist|apply sublist_take].
    + eapply Forall_impl; [apply filter_Forall_true|].
      cbn. intros a Ha. by apply negb_true_iff.
    + etrans; [apply filter_length_le|]. rewrite length_take. cbn. lia.
    + done.
  - eexists. split; [reflexivity|]. split; [apply filter_sublist|]. split; [|split].
    + eapply Forall_impl; [apply filter_Forall_true|].
      cbn. intros a Ha. by apply negb_true_iff.
    + apply filter_length_le.
    + done.
Qed.

Lemma curate_selects_undownloaded_aux config w :
  exists l, _curate config w = Ok l /\ l `sublist_of` all_videos (self w).
Proof.
  unfold _curate, all_videos.
  destruct (curate_list_spec w (videos (self w)) (max_videos config))
    as (l1 & -> & Hs1 & _).
  destruct (curate_list_spec w (livestreams (self w)) (max_livestreams config))
    as (l2 & -> & Hs2 & _).
  destruct (curate_list_spec w (shorts (self w)) (max_shorts config))
    as (l3 & -> & Hs3 & _).
  exists (l1 ++ l2 ++ l3). split; [done|]. by repeat apply sublist_app.
Qed.

(** Curation never raises, whatever the maxima: the indices it reads are
    always in range. Its result is a sublist of the three collections
    taken in the order videos, livestreams, shorts, so the items keep
    their order and none is invented or repeated; no item of the result
    has a media file; a category yields no more items than its maximum
    allows; and with no maximum at all the result is every item without a
    media file. *)
Theorem curate_selects_undownloaded config w :
  exists l,
    _curate config w = Ok l /\
    l `sublist_of` all_videos (self w) /\
    Forall (fun a => downloaded w a = false) l /\
    (length l <= allowance (max_videos config) (length (videos (self w)))
                 + allowance (max_livestreams config) (length (livestreams (self w)))
                 + allowance (max_shorts config) (length (shorts (self w))))%nat /\
    (max_videos config = None -> max_livestreams config = None ->
     max_shorts config = None ->
     l = List.filter (fun a => negb (downloaded w a)) (all_videos (self w))).
Proof.
  unfold _curate, all_videos.
  destruct (curate_list_spec w (videos (self w)) (max_videos config))
    as (l1 & -> & Hs1 & Hd1 & Hn1 & He1).
  destruct (curate_list_spec w (livestreams (self w)) (max_livestreams config))
    as (l2 & -> & Hs2 & Hd2 & Hn2 & He2).
  destruct (curate_list_spec w (shorts (self w)) (max_shorts config))
    as (l3 & -> & Hs3 & Hd3 & Hn3 & He3).
  exists (l1 ++ l2 ++ l3). split; [done|]. split; [|split; [|split]].
  - by repeat apply sublist_app.
  - by repeat apply Forall_app_2.
  - rewrite !length_app. lia.
  - intros H1 H2 H3. rewrite !List.filter_app.
    by rewrite (He1 H1), (He2 H2), (He3 H3).
Qed.

(** Skipping returns the first item without a media file together with
    the items after it: every item before it has a media file. It raises
    exactly when no item is left without a media file, the empty list
    included, and it never ends the process. *)
Theorem skip_video_first_undownloaded w videos :
  match _skip_video w videos with
  | Ok (rest, video) =>
      exists pre, videos = pre ++ video :: rest /\
                  downloaded w video = false /\
                  Forall (fun b => downloaded w b = true) pre
  | Raise e =>
      e = Exception
            "We expected to skip a video and return it but nothing to skip was found" /\
      Forall (fun b => downloaded w b = true) videos
  | Exit _ => False
  end.
Proof.
  induction videos as [|a l IH]; cbn [_skip_video]; [done|].
  destruct (downloaded w a) eqn:Ha; cbn [negb].
  - destruct (_skip_video w l) as [[rest video]|e|code]; [| |done].
    + destruct IH as (pre & -> & Hv & Hpre).
      exists (a :: pre). split; [done|]. split; [done|]. by constructor.
    + destruct IH as [-> Hall]. split; [done|]. by constructor.
  - exists []. split; [done|]. split; [done|]. constructor.
Qed.

(** *** download *)

Section DownloadMore.
Variable clock : nat -> Z.
Variable em : err_msg_behaviour.
Variable watch_url : string -> string.
Variable ydl_download : nat -> list string -> fetched.

Lemma set_deleted_same v : Video.set_deleted (Video.deleted v) v = v.
Proof. by destruct v. Qed.

Lemma set_deleted_twice d d' v :
  Video.set_deleted d (Video.set_deleted d' v) = Video.set_deleted d v.
Proof. by destruct v. Qed.

Lemma download_preserves_refl w : download_preserves w w.
Proof.
  unfold download_preserves. repeat split; try done.
  - by exists []; rewrite app_nil_r.
  - by exists []; rewrite app_nil_r.
  - apply set_deleted_same.
Qed.

Lemma download_preserves_trans w1 w2 w3 :
  download_preserves w1 w2 -> download_preserves w2 w3 -> download_preserves w1 w3.
Proof.
  intros (Hh & Hv & Hl & Hs & Ha & Hm & Hf & [t Ht] & [l Hd] & Hobj)
         (Hh' & Hv' & Hl' & Hs' & Ha' & Hm' & Hf' & [t' Ht'] & [l' Hd'] & Hobj').
  unfold download_preserves.
  split; [congruence|]. split; [congruence|]. split; [congruence|].
  split; [congruence|]. split; [congruence|]. split; [by etrans|]. split; [lia|].
  split; [exists (t ++ t'); by rewrite Ht', Ht, app_assoc|].
  split; [exists (l ++ l'); by rewrite Hd', Hd, app_assoc|].
  intros a. destruct (Hobj a) as [H1 H2]. destruct (Hobj' a) as [H1' H2']. split.
  - rewrite <- H1 at 2. rewrite <- H1'. by rewrite set_deleted_twice.
  - intros Hc. rewrite H2' by (by rewrite H2). by apply H2.
Qed.

Lemma log_preserves e w : download_preserves w (log e w).
Proof.
  unfold download_preserves. cbn. repeat split; try done.
  - by exists [e].
  - by exists []; rewrite app_nil_r.
  - apply set_deleted_same.
Qed.

Lemma fetch_preserves urls w : download_preserves w (fetch ydl_download urls w).2.
Proof.
  unfold download_preserves, fetch. cbn. repeat split; try done.
  - set_solver.
  - lia.
  - by eexists.
  - by exists []; rewrite app_nil_r.
  - apply set_deleted_same.
Qed.

Lemma flag_preserves a w :
  current (Video.deleted (deref w a)) = false ->
  download_preserves w (mark_deleted clock a (report_deleted a w)).
Proof.
  intros Hc. unfold download_preserves, mark_deleted, report_deleted, deref. cbn.
  rewrite length_insert. repeat split; try done.
  - by exists []; rewrite app_nil_r.
  - by eexists.
  - destruct (decide (a0 = a)) as [->|Hne].
    + destruct (decide (a < length (heap w))%nat) as [Hlt|Hge].
      * rewrite list_lookup_total_insert_eq by done.
        rewrite set_deleted_twice. apply set_deleted_same.
      * rewrite list_insert_ge by lia. apply set_deleted_same.
    + rewrite list_lookup_total_insert_ne by done. apply set_deleted_same.
  - destruct (decide (a0 = a)) as [->|Hne].
    + unfold deref in Hc. congruence.
    + by rewrite list_lookup_total_insert_ne.
Qed.

Lemma newly_deleted_nil w w' :
  download_preserves w w' ->
  Reporter.deleted (reporter (self w')) = Reporter.deleted (reporter (self w)) ->
  newly_deleted w w' [].
Proof.
  intros _ Hd. split; [by rewrite app_nil_r|]. split; [constructor|].
  intros a Ha. by apply elem_of_nil in Ha.
Qed.

Lemma preserves_all_videos w w' :
  download_preserves w w' -> all_videos (self w') = all_videos (self w).
Proof. intros (_ & Hv & Hl & Hs & _). unfold all_videos. by rewrite Hv, Hl, Hs. Qed.

Lemma preserves_flag w w' a :
  download_preserves w w' ->
  current (Video.deleted (deref w a)) = true ->
  current (Video.deleted (deref w' a)) = true.
Proof.
  intros (_ & _ & _ & _ & _ & _ & _ & _ & _ & Hobj) Hc.
  destruct (Hobj a) as [_ H]. by rewrite H.
Qed.

Lemma newly_deleted_app w1 w2 w3 l1 l2 :
  download_preserves w1 w2 -> download_preserves w2 w3 ->
  newly_deleted w1 w2 l1 -> newly_deleted w2 w3 l2 ->
  newly_deleted w1 w3 (l1 ++ l2).
Proof.
  intros Hp1 Hp2 (Hd1 & Hn1 & Ha1) (Hd2 & Hn2 & Ha2).
  split; [by rewrite Hd2, Hd1, app_assoc|]. split.
  - apply NoDup_app. split; [done|]. split; [|done].
    intros a Hin1 Hin2.
    destruct (Ha1 a Hin1) as (_ & _ & Ht). destruct (Ha2 a Hin2) as (_ & Hf & _).
    congruence.
  - intros a [Hin|Hin]%elem_of_app.
    + destruct (Ha1 a Hin) as (Hall & Hf & Ht). split; [done|]. split; [done|].
      by eapply preserves_flag.
    + destruct (Ha2 a Hin) as (Hall & Hf & Ht).
      split; [by rewrite <- (preserves_all_videos w1 w2)|]. split; [|done].
      destruct (current (Video.deleted (deref w1 a))) eqn:Hc; [|done].
      apply (preserves_flag w1 w2 a Hp1) in Hc. congruence.
Qed.

Lemma id_preserved w w' a :
  download_preserves w w' -> Video.id (deref w' a) = Video.id (deref w a).
Proof.
  intros (_ & _ & _ & _ & _ & _ & _ & _ & _ & Hobj).
  destruct (Hobj a) as [H _]. rewrite <- H. by destruct (deref w' a).
Qed.

(** One round: what it keeps, what it reports, and that it makes one
    fetch call. *)
Lemma fetch_round_keeps not_downloaded w :
  live w (all_videos (self w)) ->
  (forall a, a ∈ not_downloaded -> a ∈ all_videos (self w)) ->
  match fetch_round clock watch_url ydl_download not_downloaded w with
  | Done r w' =>
      (forall code, r <> Exit code) /\
      download_preserves w w' /\ fetches w' = S (fetches w) /\
      exists l, newly_deleted w w' l
  | Again rest w' =>
      (length rest < length not_downloaded)%nat /\
      (forall a, a ∈ rest -> a ∈ not_downloaded) /\
      download_preserves w w' /\ fetches w' = S (fetches w) /\
      exists l, newly_deleted w w' l
  end.
Proof.
  intros Hlive Hsub. unfold fetch_round.
  set (urls := _ <$> not_downloaded).
  pose proof (fetch_preserves urls w) as Hp1.
  assert (Hf1 : fetches (fetch ydl_download urls w).2 = S (fetches w)) by done.
  assert (Hd1 : Reporter.deleted (reporter (self (fetch ydl_download urls w).2))
                = Reporter.deleted (reporter (self w))) by done.
  assert (Hh1 : heap (fetch ydl_download urls w).2 = heap w) by done.
  destruct (fetch ydl_download urls w) as [[e|] w1] eqn:Hfetch; cbn [fst snd] in *.
  2:{ split; [done|]. split; [done|]. split; [done|].
      exists []. by apply newly_deleted_nil. }
  assert (Hdone : forall r : result unit, (forall code, r <> Exit code) ->
            (forall code, r <> Exit code) /\
            download_preserves w w1 /\ fetches w1 = S (fetches w) /\
            exists l, newly_deleted w w1 l).
  { intros r Hr. split; [done|]. split; [done|]. split; [done|].
    exists []. by apply newly_deleted_nil. }
  destruct e as [key| | |msg|msg|msg|name]; try by apply Hdone.
  destruct (is_private_or_removed msg).
  - destruct (_skip_video w1 not_downloaded) as [[rest video]|e|code] eqn:Hs.
    + pose proof (_skip_video_shorter _ _ _ _ Hs) as Hshort.
      apply _skip_video_Ok in Hs as (pre & Hnd & _ & _).
      assert (Hrest : forall a, a ∈ rest -> a ∈ not_downloaded).
      { intros a Ha. rewrite Hnd. apply elem_of_app. right. by right. }
      assert (Hvideo : video ∈ all_videos (self w)).
      { apply Hsub. rewrite Hnd. apply elem_of_app. right. left. }
      pose proof (log_preserves (Skipped video false) w1) as Hp2.
      destruct (current (Video.deleted (deref (log (Skipped video false) w1) video)))
        eqn:Hcur; cbn [negb].
      * split; [done|]. split; [done|]. split; [by eapply download_preserves_trans|].
        split; [done|]. exists []. apply newly_deleted_nil.
        -- by eapply download_preserves_trans.
        -- done.
      * pose proof (flag_preserves video _ Hcur) as Hp3.
        split; [done|]. split; [done|].
        split; [eapply download_preserves_trans; [|exact Hp3];
                by eapply download_preserves_trans|].
        split; [done|]. exists [video]. split; [cbn; by rewrite Hd1|].
        split; [apply NoDup_singleton|].
        intros a Ha. apply list_elem_of_singleton in Ha as ->.
        split; [done|]. split.
        -- unfold deref in *. cbn in Hcur. by rewrite Hh1 in Hcur.
        -- unfold mark_deleted, deref. cbn.
           rewrite list_lookup_total_insert_eq.
           ++ cbn. apply current_update.
           ++ rewrite Hh1. by apply Hlive.
    + by apply Hdone.
    + by apply _skip_video_no_exit in Hs.
  - destruct (is_too_short msg); [|by apply Hdone].
    destruct (_skip_video w1 not_downloaded) as [[rest video]|e|code] eqn:Hs.
    + pose proof (_skip_video_shorter _ _ _ _ Hs) as Hshort.
      apply _skip_video_Ok in Hs as (pre & Hnd & _ & _).
      split; [done|]. split.
      { intros a Ha. rewrite Hnd. apply elem_of_app. right. by right. }
      pose proof (log_preserves (Skipped video true) w1) as Hp2.
      split; [by eapply download_preserves_trans|]. split; [done|].
      exists []. apply newly_deleted_nil; [by eapply download_preserves_trans|done].
    + by apply Hdone.
    + by apply _skip_video_no_exit in Hs.
Qed.

(** The rounds of one attempt. *)
Lemma fetch_loop_keeps fuel not_downloaded w :
  (length not_downloaded < fuel)%nat ->
  live w (all_videos (self w)) ->
  (forall a, a ∈ not_downloaded -> a ∈ all_videos (self w)) ->
  exists r w' l,
    fetch_loop clock watch_url ydl_download fuel not_downloaded w = Some (r, w') /\
    (forall code, r <> Exit code) /\
    download_preserves w w' /\
    (fetches w < fetches w' <= fetches w + length not_downloaded + 1)%nat /\
    newly_deleted w w' l.
Proof.
  revert not_downloaded w.
  induction fuel as [|fuel IH]; intros nd w Hlen Hlive Hsub; [lia|].
  cbn [fetch_loop].
  pose proof (fetch_round_keeps nd w Hlive Hsub) as Hr.
  destruct (fetch_round clock watch_url ydl_download nd w) as [r w'|rest w'].
  - destruct Hr as (Hne & Hp & Hf & l & Hl). exists r, w', l.
    split; [done|]. split; [done|]. split; [done|]. split; [lia|done].
  - destruct Hr as (Hshort & Hrest & Hp & Hf & l & Hl).
    pose proof (preserves_all_videos w w' Hp) as Hall.
    destruct (IH rest w') as (r & w'' & l' & -> & Hne & Hp' & Hf' & Hl').
    + lia.
    + intros a Ha. rewrite Hall in Ha. destruct Hp as (-> & _). by apply Hlive.
    + intros a Ha. rewrite Hall. auto.
    + exists r, w'', (l ++ l'). split; [done|]. split; [done|].
      split; [by eapply download_preserves_trans|]. split; [lia|].
      by eapply newly_deleted_app.
Qed.

Lemma attempt_keeps config w :
  live w (all_videos (self w)) ->
  exists r w' l,
    attempt clock watch_url ydl_download config w = Some (r, w') /\
    (forall code, r <> Exit code) /\
    download_preserves w w' /\
    (fetches w' <= fetches w + length (all_videos (self w)) + 1)%nat /\
    newly_deleted w w' l.
Proof.
  intros Hlive. unfold attempt.
  destruct (curate_selects_undownloaded_aux config w) as (nd & -> & Hsub).
  pose proof (log_preserves (Curated nd) w) as Hp0.
  destruct (length nd =? 0)%nat.
  - exists (Ok tt), (log (Curated nd) w), []. split; [done|]. split; [done|].
    split; [done|]. split; [cbn; lia|]. by apply newly_deleted_nil.
  - destruct (fetch_loop_keeps (S (length nd)) nd (log (Curated nd) w))
      as (r & w' & l & -> & Hne & Hp & Hf & Hl).
    + lia.
    + done.
    + intros a Ha. cbn. by eapply elem_of_sublist.
    + apply sublist_length in Hsub.
      exists r, w', l. split; [done|]. split; [done|].
      split; [by eapply download_preserves_trans|].
      split; [cbn in Hf; lia|].
      destruct Hl as (Hd & Hn & Ha). by split.
Qed.

Lemma download_loop_keeps remaining i config w :
  live w (all_videos (self w)) ->
  exists r w' l,
    download_loop clock em watch_url ydl_download remaining i config w = Some (r, w') /\
    download_preserves w w' /\
    (fetches w' <= fetches w + remaining * (length (all_videos (self w)) + 1))%nat /\
    newly_deleted w w' l.
Proof.
  revert i w. induction remaining as [|remaining IH]; intros i w Hlive.
  - exists (Ok tt), w, []. split; [done|]. split; [apply download_preserves_refl|].
    split; [lia|]. apply newly_deleted_nil; [apply download_preserves_refl|done].
  - cbn [download_loop].
    destruct (attempt_keeps config w Hlive) as (r & w1 & l & -> & Hne & Hp & Hf & Hl).
    destruct r as [[]|e|code].
    + exists (Ok tt), w1, l. split; [done|]. split; [done|]. split; [lia|done].
    + unfold _err_dl. destruct (negb (i =? 4)).
      * pose proof (log_preserves (Sleep 5) w1) as Hp2.
        pose proof (preserves_all_videos w w1 Hp) as Hall.
        destruct (IH (i + 1) (log (Sleep 5) w1)) as (r & w2 & l2 & -> & Hp3 & Hf3 & Hl3).
        { intros a Ha. cbn in *. rewrite Hall in Ha. destruct Hp as (-> & _).
          by apply Hlive. }
        exists r, w2, (l ++ l2). split; [done|].
        split; [eapply download_preserves_trans; [exact Hp|];
                by eapply download_preserves_trans|].
        split; [cbn in Hf3; rewrite Hall in Hf3; lia|].
        eapply newly_deleted_app; [exact Hp| |exact Hl|].
        -- by eapply download_preserves_trans.
        -- destruct Hl3 as (Hd3 & Hn3 & Ha3). by split.
      * exists (match em with ErrMsgReturns => Exit 1 | ErrMsgExits c => Exit c end), w1, l.
        split; [by destruct em|]. split; [done|]. split; [lia|done].
    + by destruct (Hne code).
Qed.

(** Whatever the fetch engine does and however the download ends, it
    leaves the three collections and the "added" bucket as they were,
    allocates no object and changes no object except for its deletion
    history; a deletion flag that is true keeps its history; media files
    are only added, and the "deleted" bucket and the events are only
    appended to. *)
Theorem download_keeps_archive config w :
  live w (all_videos (self w)) ->
  exists r w',
    download clock em watch_url ydl_download config w = Some (r, w') /\
    download_preserves w w' /\
    (forall a, Video.id (deref w' a) = Video.id (deref w a)) /\
    (forall a, Video.known_not_deleted (deref w' a) = Video.known_not_deleted (deref w a)).
Proof.
  intros Hlive.
  destruct (download_loop_keeps 5 0 config w Hlive) as (r & w' & l & Hd & Hp & _).
  exists r, w'. split; [exact Hd|]. split; [done|]. split.
  - intros a. by apply id_preserved.
  - intros a. destruct Hp as (_ & _ & _ & _ & _ & _ & _ & _ & _ & Hobj).
    destruct (Hobj a) as [H _]. rewrite <- H. by destruct (deref w' a).
Qed.

(** The items a download appends to the "deleted" bucket are items of the
    collections, each appended once, whose deletion flag was not true
    before the download and is true after it. *)
Theorem download_reports_each_deletion_once config w :
  live w (all_videos (self w)) ->
  exists r w' l,
    download clock em watch_url ydl_download config w = Some (r, w') /\
    Reporter.deleted (reporter (self w')) = Reporter.deleted (reporter (self w)) ++ l /\
    NoDup l /\
    forall a, a ∈ l ->
      a ∈ all_videos (self w) /\
      current (Video.deleted (deref w a)) = false /\
      current (Video.deleted (deref w' a)) = true.
Proof.
  intros Hlive.
  destruct (download_loop_keeps 5 0 config w Hlive) as (r & w' & l & Hd & _ & _ & Hl).
  exists r, w', l. split; [exact Hd|]. exact Hl.
Qed.

(** A download calls the fetch engine at most five times the number of
    items of the archive plus one: an attempt makes at most one call more
    than it has items to fetch. *)
Theorem download_bounds_fetch_calls config w :
  live w (all_videos (self w)) ->
  exists r w',
    download clock em watch_url ydl_download config w = Some (r, w') /\
    (fetches w <= fetches w'
     <= fetches w + 5 * (length (all_videos (self w)) + 1))%nat.
Proof.
  intros Hlive.
  destruct (download_loop_keeps 5 0 config w Hlive) as (r & w' & l & Hd & Hp & Hf & _).
  exists r, w'. split; [exact Hd|]. split; [|exact Hf].
  by destruct Hp as (_ & _ & _ & _ & _ & _ & Hle & _).
Qed.

(** When the first call of the fetch engine succeeds, the download is one
    attempt and one call: the engine is given the locators of all curated
    items, in the order of curation, and the operation returns normally
    with the archive as it was. *)
Theorem download_first_fetch_succeeds config w l :
  _curate config w = Ok l ->
  l <> [] ->
  let urls := (fun video => watch_url (Video.id (deref w video))) <$> l in
  failure (ydl_download (fetches w) urls) = None ->
  exists w',
    download clock em watch_url ydl_download config w = Some (Ok tt, w') /\
    heap w' = heap w /\ self w' = self w /\
    fetches w' = S (fetches w) /\
    media w' = media w ∪ list_to_set (written (ydl_download (fetches w) urls)) /\
    trace w' = trace w ++ [Curated l; Fetch urls].
Proof.
  intros Hcur Hne urls Hok. destruct l as [|a l]; [done|]. eexists. split.
  - unfold download. cbn [download_loop]. unfold attempt. rewrite Hcur.
    cbn [length Nat.eqb fetch_loop].
    unfold fetch_round, fetch.
    change (deref (log (Curated (a :: l)) w)) with (deref w).
    change (fetches (log (Curated (a :: l)) w)) with (fetches w).
    fold urls. rewrite Hok. reflexivity.
  - cbn. by rewrite <- app_assoc.
Qed.

End DownloadMore.
(** *** metadata, _download_metadata and _parse_metadata *)

Section MetadataMore.
Variable clock : nat -> Z.
Variable em : err_msg_behaviour.
Variable extract_info : nat -> result (list TopEntry).

Lemma after_delays_trace k w :
  trace (after_delays k w) = trace w ++ replicate k (Sleep 5) /\
  heap (after_delays k w) = heap w /\ self (after_delays k w) = self w /\
  media (after_delays k w) = media w /\ fetches (after_delays k w) = fetches w.
Proof.
  induction k as [|k (IH & Hh & Hs & Hm & Hf)].
  - cbn. by rewrite app_nil_r.
  - change (after_delays (S k) w) with (log (Sleep 5) (after_delays k w)).
    unfold log at 1. cbn [trace heap self media fetches]. rewrite IH.
    split; [|done]. rewrite <- app_assoc. f_equal.
    change (replicate k (Sleep 5) ++ [Sleep 5] = replicate (S k) (Sleep 5)).
    by rewrite <- replicate_cons_app.
Qed.

Lemma download_metadata_retries_aux w :
  exists k r,
    (k <= 2)%nat /\
    _download_metadata em extract_info w = (r, after_delays k w) /\
    (forall j, (j < k)%nat -> exists e, extract_info j = Raise e) /\
    match extract_info k with
    | Ok res => r = Ok (Some res)
    | Exit code => r = Exit code
    | Raise _ => k = 2%nat /\ r = Exit (exit_code em)
    end.
Proof.
  unfold _download_metadata. cbn [_download_metadata_loop].
  destruct (extract_info 0) as [res0|e0|c0] eqn:H0.
  { exists 0%nat, (Ok (Some res0)). rewrite H0. repeat split; try done; try lia. }
  2:{ exists 0%nat, (Exit c0). rewrite H0. repeat split; try done; try lia. }
  cbn [_err_dl Nat.eqb negb].
  destruct (extract_info 1) as [res1|e1|c1] eqn:H1.
  { exists 1%nat, (Ok (Some res1)). rewrite H1. repeat split; try done; try lia.
    intros [|j] Hj; [by eexists|lia]. }
  2:{ exists 1%nat, (Exit c1). rewrite H1. repeat split; try done; try lia.
      intros [|j] Hj; [by eexists|lia]. }
  cbn [_err_dl Nat.eqb negb].
  destruct (extract_info 2) as [res2|e2|c2] eqn:H2.
  { exists 2%nat, (Ok (Some res2)). rewrite H2. repeat split; try done; try lia.
    intros [|[|j]] Hj; [by eexists..|lia]. }
  2:{ exists 2%nat, (Exit c2). rewrite H2. repeat split; try done; try lia.
      intros [|[|j]] Hj; [by eexists..|lia]. }
  exists 2%nat, (Exit (exit_code em)). rewrite H2. split; [lia|]. split.
  - unfold _err_dl, exit_code. cbn. by destruct em.
  - split; [|done]. intros [|[|j]] Hj; [by eexists..|lia].
Qed.

(** The metadata download makes at most three calls of the extraction
    engine. It returns the result of the first call that does not raise,
    after one delay of five seconds for each call that raised before it;
    when the three calls raise it ends the process after two delays. It
    never raises, never returns nothing, and touches nothing but the
    sequence of events. *)
Theorem download_metadata_retries w :
  exists k r,
    (k <= 2)%nat /\
    _download_metadata em extract_info w = (r, after_delays k w) /\
    (forall j, (j < k)%nat -> exists e, extract_info j = Raise e) /\
    match extract_info k with
    | Ok res => r = Ok (Some res)
    | Exit code => r = Exit code
    | Raise _ => k = 2%nat /\ r = Exit (exit_code em)
    end.
Proof. apply download_metadata_retries_aux. Qed.

(** A refresh from the source either parses the first result the
    extraction engine gives, in the state reached after the delays of the
    failed calls, or, when the three calls raise, ends the process with
    the archive as it was. *)
Theorem metadata_parses_first_result w :
  (forall k res,
     (k <= 2)%nat ->
     (forall j, (j < k)%nat -> exists e, extract_info j = Raise e) ->
     extract_info k = Ok res ->
     metadata clock em extract_info w
       = _parse_metadata clock em res (after_delays k w)) /\
  ((forall j, (j <= 2)%nat -> exists e, extract_info j = Raise e) ->
   exists w',
     metadata clock em extract_info w = (Exit (exit_code em), w') /\
     heap w' = heap w /\ self w' = self w /\ media w' = media w).
Proof.
  split.
  - intros k res Hk Hfail Hok.
    destruct (download_metadata_retries_aux w) as (k' & r & Hk' & Hd & Hfail' & Hr).
    assert (k' = k) as ->.
    { destruct (Nat.lt_trichotomy k' k) as [Hlt|[->|Hgt]]; [|done|].
      - destruct (Hfail k' Hlt) as [e He]. rewrite He in Hr. lia.
      - destruct (Hfail' k Hgt) as [e He]. congruence. }
    rewrite Hok in Hr. subst r. unfold metadata. by rewrite Hd.
  - intros Hfail.
    destruct (download_metadata_retries_aux w) as (k' & r & Hk' & Hd & Hfail' & Hr).
    destruct (Hfail k' Hk') as [e He]. rewrite He in Hr. destruct Hr as [-> ->].
    exists (after_delays 2 w). unfold metadata. rewrite Hd.
    split; [done|]. by destruct (after_delays_trace 2 w) as (_ & -> & -> & -> & _).
Qed.

End MetadataMore.
(** *** _parse_metadata: normalization *)

Section RefreshMore.
Variable clock : nat -> Z.
Variable em : err_msg_behaviour.

Lemma normalize_groups_failure groups acc r :
  normalize_groups em groups acc = r ->
  (forall n, r <> Ok n) ->
  r = Raise (KeyError "entries") \/ exists code, r = Exit code /\ em = ErrMsgExits code.
Proof.
  revert acc. induction groups as [|g rest IH]; intros [[vs ls] ss] Hr Hne.
  - cbn in Hr. subst r. by destruct (Hne (vs, ls, ss)).
  - cbn [normalize_groups] in Hr.
    repeat case_decide.
    1-3: destruct (entries g); [by eapply IH|left; by subst r].
    destruct em as [|code]; [by eapply IH|].
    right. exists code. by subst r.
Qed.

(** A refresh that does not return normally has changed nothing: the
    document is normalized before anything is merged. It raises IndexError
    exactly on a document without entries; otherwise it raises KeyError
    "entries", for a group of a known kind without that key, or ends the
    process, which it does only when [_err_msg] does. *)
Theorem refresh_fails_before_merging res w :
  (res = [] <-> (_parse_metadata clock em res w).1 = Raise IndexError) /\
  (forall r w',
     _parse_metadata clock em res w = (r, w') -> r <> Ok tt ->
     w' = w /\
     (r = Raise IndexError \/ r = Raise (KeyError "entries")
      \/ exists code, r = Exit code /\ em = ErrMsgExits code)).
Proof.
  unfold _parse_metadata, normalize. split.
  - split; [by intros ->|].
    destruct res as [|first rest]; [done|].
    destruct (entries first); [|done].
    destruct (normalize_groups em (first :: rest) ([], [], [])) as [n|e|code] eqn:Hn;
      [done| |done].
    cbn. intros [= ->].
    destruct (normalize_groups_failure _ _ _ Hn ltac:(done)) as [Hk|(code & Hc & _)];
      done.
  - intros r w'. destruct res as [|first rest].
    { intros [= <- <-] _. split; [done|]. by left. }
    destruct (entries first).
    2:{ intros [= <- <-] Hne. done. }
    destruct (normalize_groups em (first :: rest) ([], [], [])) as [n|e|code] eqn:Hn.
    + intros [= <- <-] Hne. done.
    + intros [= <- <-] _. split; [done|]. right.
      destruct (normalize_groups_failure _ _ _ Hn ltac:(done)) as [Hk|(code & Hc & _)];
        [injection Hk as ->; by left|done].
    + intros [= <- <-] _. split; [done|]. right.
      destruct (normalize_groups_failure _ _ _ Hn ltac:(done)) as [Hk|(code' & Hc & Hem)];
        [done|].
      injection Hc as ->. right. by exists code'.
Qed.

Lemma last_of_kind_other kind g rest default :
  kind_of_title (entry_title (top g)) <> kind ->
  last_of_kind kind (g :: rest) default = last_of_kind kind rest default.
Proof. intros Hne. cbn [last_of_kind]. by rewrite decide_False. Qed.

Lemma last_of_kind_same kind g rest default es :
  kind_of_title (entry_title (top g)) = kind -> entries g = Some es ->
  last_of_kind kind (g :: rest) default = last_of_kind kind rest es.
Proof.
  intros Hk He. cbn [last_of_kind]. rewrite decide_True by done.
  rewrite He. cbn. by rewrite app_nil_r.
Qed.

(** In a nested document whose groups are all of a known kind and carry
    their "entries", each category is given the entries of the last group
    of its kind, and none when there is no such group: an earlier group of
    the same kind is dropped, not merged with the later one. *)
Theorem normalize_takes_last_group groups vs ls ss :
  Forall known_group groups ->
  normalize_groups em groups (vs, ls, ss)
    = Ok (last_of_kind "videos" groups vs,
          last_of_kind "live" groups ls,
          last_of_kind "shorts" groups ss).
Proof.
  revert vs ls ss. induction groups as [|g rest IH]; intros vs ls ss Hk; [done|].
  apply Forall_cons in Hk as [[Hkind Hent] Hrest].
  destruct (entries g) as [es|] eqn:He; [|done].
  cbn [normalize_groups]. rewrite He.
  repeat (apply elem_of_cons in Hkind as [Hkind|Hkind]);
    [| | |by apply elem_of_nil in Hkind].
  - rewrite decide_True by done. rewrite IH by done.
    rewrite (last_of_kind_same "videos" g rest vs es) by done.
    rewrite !last_of_kind_other by (by rewrite Hkind). done.
  - rewrite decide_False by (by rewrite Hkind). rewrite decide_True by done.
    rewrite IH by done.
    rewrite (last_of_kind_same "live" g rest ls es) by done.
    rewrite !last_of_kind_other by (by rewrite Hkind). done.
  - rewrite decide_False by (by rewrite Hkind).
    rewrite decide_False by (by rewrite Hkind). rewrite decide_True by done.
    rewrite IH by done.
    rewrite (last_of_kind_same "shorts" g rest ss es) by done.
    rewrite !last_of_kind_other by (by rewrite Hkind). done.
Qed.

End RefreshMore.
(** *** _parse_metadata_videos_comp and _report_deleted *)

Section MergeMore.
Variable clock : nat -> Z.
Variable em : err_msg_behaviour.

Lemma ids_ext w w' (l : list addr) :
  (forall a, a ∈ l -> Video.id (deref w' a) = Video.id (deref w a)) ->
  (fun a => Video.id (deref w' a)) <$> l = (fun a => Video.id (deref w a)) <$> l.
Proof.
  intros H. apply list_fmap_ext. intros i a Ha. apply H.
  by eapply list_elem_of_lookup_2.
Qed.

Lemma merge_entry_cases k entry w :
  let w' := merge_entry clock k entry w in
  (w' = w) \/
  (exists video,
     find_by_id w (entry_id entry) (bucket_of k (self w)) = Some video /\
     self w' = self w /\
     heap w' = <[video := Video.update (now clock w) entry (deref w video)]> (heap w)) \/
  (find_by_id w (entry_id entry) (bucket_of k (self w)) = None /\
   no_formats entry = false /\
   heap w' = heap w ++ [Video.new (now clock w) entry] /\
   bucket_of k (self w') = bucket_of k (self w) ++ [length (heap w)]).
Proof.
  cbn zeta. unfold merge_entry. destruct (no_formats entry); [by left|].
  destruct (find_by_id _ _ _) as [video|] eqn:Hf.
  - right. left. by exists video.
  - right. right. split; [done|]. split; [done|]. split; [done|]. by destruct k.
Qed.

Lemma update_keeps now entry v :
  Video.id (Video.update now entry v) = Video.id v /\
  Video.uploaded (Video.update now entry v) = Video.uploaded v.
Proof. done. Qed.

(** An update in place changes neither identifiers nor upload times. *)
Lemma insert_update_keeps w video now entry a :
  Video.id ((<[video := Video.update now entry (deref w video)]> (heap w)) !!! a)
    = Video.id (deref w a) /\
  Video.uploaded ((<[video := Video.update now entry (deref w video)]> (heap w)) !!! a)
    = Video.uploaded (deref w a).
Proof.
  unfold deref. destruct (decide (video = a)) as [->|Hne].
  - destruct (decide (a < length (heap w))%nat) as [Hlt|Hge].
    + by rewrite list_lookup_total_insert_eq.
    + by rewrite list_insert_ge by lia.
  - by rewrite list_lookup_total_insert_ne.
Qed.

Lemma merge_entry_unique k entry w :
  live w (bucket_of k (self w)) ->
  unique_ids w (bucket_of k (self w)) ->
  let w' := merge_entry clock k entry w in
  live w' (bucket_of k (self w')) /\ unique_ids w' (bucket_of k (self w')).
Proof.
  intros Hlive Huniq. cbn zeta.
  destruct (merge_entry_cases k entry w) as [->|[(video & Hf & Hs & Hh)|(Hf & _ & Hh & Hb)]].
  - done.
  - rewrite Hs. split.
    + intros a Ha. rewrite Hh, length_insert. by apply Hlive.
    + unfold unique_ids. rewrite (ids_ext w); [done|].
      intros a _. unfold deref at 1. rewrite Hh. apply insert_update_keeps.
  - rewrite Hb. split.
    + intros a Ha. rewrite Hh, length_app. cbn.
      apply elem_of_app in Ha as [Ha|Ha]; [apply Hlive in Ha; lia|].
      apply list_elem_of_singleton in Ha as ->. lia.
    + unfold unique_ids. rewrite fmap_app. cbn [fmap list_fmap].
      rewrite (ids_ext w).
      2:{ intros a Ha. unfold deref at 1. rewrite Hh.
          rewrite lookup_total_app_l by (by apply Hlive). done. }
      unfold deref at 2. rewrite Hh.
      rewrite lookup_total_app_r by done. rewrite Nat.sub_diag. cbn.
      apply NoDup_app. split; [done|]. split; [|apply NoDup_singleton].
      intros id Hin Hnew. apply list_elem_of_singleton in Hnew as ->.
      apply list_elem_of_fmap in Hin as (a & Hid & Ha).
      by apply (proj1 (find_by_id_None w (entry_id entry) _) Hf a).
Qed.

Lemma merge_entries_unique k i w :
  live w (bucket_of k (self w)) ->
  unique_ids w (bucket_of k (self w)) ->
  let w' := merge_entries clock k i w in
  live w' (bucket_of k (self w')) /\ unique_ids w' (bucket_of k (self w')).
Proof.
  revert w. induction i as [|entry i IH]; intros w Hlive Huniq; [done|].
  cbn [merge_entries].
  destruct (merge_entry_unique k entry w Hlive Huniq) as [Hl Hu]. by apply IH.
Qed.

(** If the identifiers of a collection are pairwise distinct before the
    entries of its category are merged they are so after: an item is only
    created for an identifier the collection does not hold, and updating
    and sorting keep identifiers. The addresses of the collection stay
    live. *)
Theorem merge_keeps_ids_unique i k w :
  live w (bucket_of k (self w)) ->
  unique_ids w (bucket_of k (self w)) ->
  let w' := _parse_metadata_videos_comp clock i k w in
  live w' (bucket_of k (self w')) /\ unique_ids w' (bucket_of k (self w')).
Proof.
  intros Hlive Huniq. cbn zeta. unfold _parse_metadata_videos_comp.
  destruct (merge_entries_unique k i w Hlive Huniq) as [Hl Hu].
  set (w1 := merge_entries clock k i w) in *.
  unfold set_self. cbn [self heap]. rewrite bucket_of_set_bucket, decide_True by done.
  split.
  - intros a Ha. apply Hl. by rewrite <- (sort_newest_perm w1).
  - unfold unique_ids in *.
    change (fun a => Video.id (deref _ a)) with (fun a => Video.id (deref w1 a)).
    by rewrite (sort_newest_perm w1).
Qed.

Lemma present_found w l id :
  present w l id <-> exists a, find_by_id w id l = Some a.
Proof.
  split.
  - intros (a & Ha & Hid). destruct (find_by_id w id l) as [b|] eqn:Hf; [by exists b|].
    by destruct (proj1 (find_by_id_None w id l) Hf a Ha).
  - intros [a Hf]. apply find_by_id_Some in Hf as (pre & post & -> & Hid & _).
    exists a. split; [|done]. apply elem_of_app. right. left.
Qed.

Lemma merge_entry_keeps_present k entry w id :
  live w (bucket_of k (self w)) ->
  present w (bucket_of k (self w)) id ->
  present (merge_entry clock k entry w) (bucket_of k (self (merge_entry clock k entry w))) id.
Proof.
  intros Hlive (a & Ha & Hid).
  destruct (merge_entry_cases k entry w) as [->|[(video & Hf & Hs & Hh)|(Hf & _ & Hh & Hb)]].
  - by exists a.
  - exists a. rewrite Hs. split; [done|]. unfold deref at 1. rewrite Hh.
    rewrite <- Hid. apply insert_update_keeps.
  - exists a. rewrite Hb. split; [apply elem_of_app; by left|].
    unfold deref at 1. rewrite Hh. rewrite lookup_total_app_l by (by apply Hlive). done.
Qed.

Lemma merge_entry_makes_present k entry w :
  no_formats entry = false ->
  present (merge_entry clock k entry w)
    (bucket_of k (self (merge_entry clock k entry w))) (entry_id entry).
Proof.
  intros Hfmt.
  destruct (merge_entry_cases k entry w) as [Hw|[(video & Hf & Hs & Hh)|(Hf & _ & Hh & Hb)]].
  - unfold merge_entry in *. rewrite Hfmt in *.
    destruct (find_by_id w (entry_id entry) (bucket_of k (self w))) as [video|] eqn:Hf.
    + rewrite Hw. apply present_found. by exists video.
    + apply (f_equal (fun w => length (heap w))) in Hw. cbn in Hw.
      rewrite length_app in Hw. cbn in Hw. lia.
  - apply find_by_id_Some in Hf as (pre & post & Hl & Hid & _).
    exists video. rewrite Hs. split; [rewrite Hl; apply elem_of_app; right; left|].
    unfold deref at 1. rewrite Hh. rewrite <- Hid. apply insert_update_keeps.
  - exists (length (heap w)). rewrite Hb. split; [apply elem_of_app; right; left|].
    unfold deref. rewrite Hh. rewrite lookup_total_app_r by done.
    by rewrite Nat.sub_diag.
Qed.

Lemma merge_entry_live k entry w :
  live w (bucket_of k (self w)) ->
  live (merge_entry clock k entry w) (bucket_of k (self (merge_entry clock k entry w))).
Proof.
  intros Hlive.
  destruct (merge_entry_cases k entry w) as [->|[(video & Hf & Hs & Hh)|(Hf & _ & Hh & Hb)]].
  - done.
  - rewrite Hs. intros a Ha. rewrite Hh, length_insert. by apply Hlive.
  - rewrite Hb. intros a Ha. rewrite Hh, length_app. cbn.
    apply elem_of_app in Ha as [Ha|Ha]; [apply Hlive in Ha; lia|].
    apply list_elem_of_singleton in Ha as ->. lia.
Qed.

Lemma merge_entries_live k i w :
  live w (bucket_of k (self w)) ->
  live (merge_entries clock k i w) (bucket_of k (self (merge_entries clock k i w))).
Proof.
  revert w. induction i as [|entry i IH]; intros w Hlive; [done|].
  cbn [merge_entries]. by apply IH, merge_entry_live.
Qed.

Lemma merge_entries_keeps_present k i w id :
  live w (bucket_of k (self w)) ->
  present w (bucket_of k (self w)) id ->
  present (merge_entries clock k i w) (bucket_of k (self (merge_entries clock k i w))) id.
Proof.
  revert w. induction i as [|entry i IH]; intros w Hlive Hp; [done|].
  cbn [merge_entries]. apply IH; [by apply merge_entry_live|].
  by apply merge_entry_keeps_present.
Qed.

Lemma merge_entries_present k i w id :
  live w (bucket_of k (self w)) ->
  id ∈ observed_ids i ->
  present (merge_entries clock k i w) (bucket_of k (self (merge_entries clock k i w))) id.
Proof.
  revert w. induction i as [|entry i IH]; intros w Hlive Hid.
  { by apply elem_of_nil in Hid. }
  cbn [merge_entries]. rewrite observed_ids_cons in Hid.
  destruct (no_formats entry) eqn:Hfmt.
  - apply IH; [by apply merge_entry_live|done].
  - apply elem_of_cons in Hid as [->|Hid].
    + apply merge_entries_keeps_present; [by apply merge_entry_live|].
      by apply merge_entry_makes_present.
    + apply IH; [by apply merge_entry_live|done].
Qed.

Lemma present_perm w l l' id : l ≡ₚ l' -> present w l id -> present w l' id.
Proof. intros Hp (a & Ha & Hid). exists a. by rewrite <- Hp. Qed.

Lemma comp_present k i w id :
  live w (bucket_of k (self w)) ->
  id ∈ observed_ids i ->
  let w' := _parse_metadata_videos_comp clock i k w in
  present w' (bucket_of k (self w')) id.
Proof.
  intros Hlive Hid. cbn zeta. unfold _parse_metadata_videos_comp.
  pose proof (merge_entries_present k i w id Hlive Hid) as Hp.
  set (w1 := merge_entries clock k i w) in *.
  unfold set_self. cbn [self]. rewrite bucket_of_set_bucket, decide_True by done.
  destruct Hp as (a & Ha & Ha'). exists a. split; [|done].
  by rewrite (sort_newest_perm w1).
Qed.

(** Merging entries whose identifiers are all held by the collection only
    updates: the channel and the size of the heap stay as they are, and so
    do identifiers and upload times. *)
Lemma merge_entries_only_updates k i w :
  (forall id, id ∈ observed_ids i -> present w (bucket_of k (self w)) id) ->
  let w' := merge_entries clock k i w in
  self w' = self w /\ length (heap w') = length (heap w) /\
  forall a, Video.id (deref w' a) = Video.id (deref w a) /\
            Video.uploaded (deref w' a) = Video.uploaded (deref w a).
Proof.
  revert w. induction i as [|entry i IH]; intros w Hall; [done|].
  cbn zeta. cbn [merge_entries].
  assert (Hstep : self (merge_entry clock k entry w) = self w /\
                  length (heap (merge_entry clock k entry w)) = length (heap w) /\
                  forall a,
                    Video.id (deref (merge_entry clock k entry w) a) = Video.id (deref w a) /\
                    Video.uploaded (deref (merge_entry clock k entry w) a)
                      = Video.uploaded (deref w a)).
  { destruct (merge_entry_cases k entry w)
      as [->|[(video & Hf & Hs & Hh)|(Hf & Hfmt & _)]].
    - done.
    - split; [done|]. split; [by rewrite Hh, length_insert|].
      intros a. unfold deref at 1 3. rewrite Hh. apply insert_update_keeps.
    - exfalso. destruct (Hall (entry_id entry)) as (a & Ha & Hid).
      { rewrite observed_ids_cons, Hfmt. left. }
      by apply (proj1 (find_by_id_None w (entry_id entry) _) Hf a). }
  destruct Hstep as (Hs & Hl & Hk).
  destruct (IH (merge_entry clock k entry w)) as (Hs' & Hl' & Hk').
  - intros id Hid. destruct (Hall id) as (a & Ha & Ha').
    { rewrite observed_ids_cons. destruct (no_formats entry); [done|by right]. }
    exists a. rewrite Hs. split; [done|]. by rewrite (proj1 (Hk a)).
  - split; [congruence|]. split; [congruence|].
    intros a. destruct (Hk a) as [<- <-]. apply Hk'.
Qed.

Lemma sorted_weaken {A} (R R' : A -> A -> Prop) (l : list A) :
  (forall a b, R a b -> R' a b) -> StronglySorted R l -> StronglySorted R' l.
Proof.
  intros HR. induction 1 as [|a l Hs IH Hall]; constructor; [done|].
  eapply Forall_impl; [exact Hall|]. cbn. auto.
Qed.

(** Merging the same entries a second time adds nothing: every entry
    finds the item that the first pass found or created for its
    identifier, so the channel, that is its three collections in their
    order and both buckets, and the number of objects are as the first
    pass left them. *)
Theorem second_merge_adds_nothing i k w :
  live w (bucket_of k (self w)) ->
  let w1 := _parse_metadata_videos_comp clock i k w in
  let w2 := _parse_metadata_videos_comp clock i k w1 in
  self w2 = self w1 /\ length (heap w2) = length (heap w1).
Proof.
  intros Hlive. cbn zeta.
  assert (Hp : forall id, id ∈ observed_ids i ->
             present (_parse_metadata_videos_comp clock i k w)
               (bucket_of k (self (_parse_metadata_videos_comp clock i k w))) id).
  { intros id Hid. by apply comp_present. }
  assert (Hsorted : StronglySorted
            (newest_first (_parse_metadata_videos_comp clock i k w))
            (bucket_of k (self (_parse_metadata_videos_comp clock i k w)))).
  { unfold _parse_metadata_videos_comp, set_self. cbn [self].
    rewrite bucket_of_set_bucket, decide_True by done.
    apply (sort_newest_sorted (merge_entries clock k i w)). }
  set (w1 := _parse_metadata_videos_comp clock i k w) in *.
  destruct (merge_entries_only_updates k i w1 Hp) as (Hs & Hl & Hk).
  unfold _parse_metadata_videos_comp at 1 2. unfold set_self. cbn [self heap].
  split; [|done]. rewrite Hs.
  rewrite sort_newest_id.
  - by destruct k, (self w1).
  - eapply sorted_weaken; [|exact Hsorted].
    unfold newest_first. intros a b Hab.
    by rewrite (proj2 (Hk a)), (proj2 (Hk b)).
Qed.

Lemma merge_adds_refl w : merge_adds w w.
Proof.
  split; [by rewrite Nat.sub_diag, app_nil_r|]. intros a Ha. lia.
Qed.

Lemma merge_adds_trans w1 w2 w3 :
  merge_preserves w1 w2 -> merge_preserves w2 w3 ->
  merge_adds w1 w2 -> merge_adds w2 w3 -> merge_adds w1 w3.
Proof.
  intros (Hl1 & _) (Hl2 & _ & _ & Hk2) [Ha1 Hf1] [Ha2 Hf2]. split.
  - rewrite Ha2, Ha1, <- app_assoc. f_equal.
    replace (length (heap w3) - length (heap w1))%nat
      with ((length (heap w2) - length (heap w1)) + (length (heap w3) - length (heap w2)))%nat
      by lia.
    rewrite seq_app.
    by replace (length (heap w1) + (length (heap w2) - length (heap w1)))%nat
      with (length (heap w2)) by lia.
  - intros a Ha. destruct (decide (a < length (heap w2))%nat) as [Hlt|Hge].
    + destruct (Hk2 a Hlt) as (_ & _ & _ & Hmono). apply Hmono, Hf1. lia.
    + apply Hf2. lia.
Qed.

Lemma merge_entry_adds k entry w : merge_adds w (merge_entry clock k entry w).
Proof.
  unfold merge_entry. destruct (no_formats entry); [apply merge_adds_refl|].
  destruct (find_by_id _ _ _) as [video|].
  - split.
    + cbn. by rewrite length_insert, Nat.sub_diag, app_nil_r.
    + cbn. rewrite length_insert. intros a Ha. lia.
  - split.
    + cbn. rewrite length_app. cbn.
      replace (length (heap w) + 1 - length (heap w))%nat with 1%nat by lia.
      by destruct k.
    + cbn. rewrite length_app. cbn. intros a Ha.
      assert (a = length (heap w)) as -> by lia.
      unfold deref. cbn. rewrite lookup_total_app_r by done.
      by rewrite Nat.sub_diag.
Qed.

Lemma merge_entries_adds k i w : merge_adds w (merge_entries clock k i w).
Proof.
  revert w. induction i as [|entry i IH]; intros w; cbn [merge_entries].
  - apply merge_adds_refl.
  - eapply merge_adds_trans;
      [apply merge_entry_preserves|apply merge_entries_preserves
      |apply merge_entry_adds|apply IH].
Qed.

Lemma comp_adds i k w : merge_adds w (_parse_metadata_videos_comp clock i k w).
Proof.
  destruct (merge_entries_adds k i w) as [Ha Hf].
  unfold _parse_metadata_videos_comp. split; [|done].
  cbn. rewrite <- Ha. by destruct k.
Qed.

Lemma merge_all_adds n w : merge_adds w (merge_all clock n w).
Proof.
  destruct n as [[vs ls] ss]. unfold merge_all, _parse_metadata_videos.
  set (w1 := _parse_metadata_videos_comp clock vs Videos w).
  set (w2 := _parse_metadata_videos_comp clock ls Livestreams w1).
  assert (H12 : merge_adds w w2).
  { apply (merge_adds_trans w w1 w2); try apply comp_preserves; apply comp_adds. }
  apply (merge_adds_trans w w2); try apply comp_preserves; try apply comp_adds; try done.
  eapply merge_preserves_trans; apply comp_preserves.
Qed.

(** A refresh that returns appends to the "added" bucket exactly the
    addresses of the objects it allocates, in order; these items are in
    the collections, are marked as observed and are not appended to the
    "deleted" bucket by the sweep of the same refresh, which only reports
    items the archive held before. *)
Theorem refresh_never_deletes_what_it_adds res w w' :
  well_formed w ->
  _parse_metadata clock em res w = (Ok tt, w') ->
  exists la ld,
    Reporter.added (reporter (self w')) = Reporter.added (reporter (self w)) ++ la /\
    Reporter.deleted (reporter (self w')) = Reporter.deleted (reporter (self w)) ++ ld /\
    la = seq (length (heap w)) (length la) /\
    length (heap w') = (length (heap w) + length la)%nat /\
    (forall a, a ∈ la ->
       a ∈ all_videos (self w') /\ (a ∉ ld) /\
       Video.known_not_deleted (deref w' a) = true) /\
    (forall a, a ∈ ld -> a ∈ all_videos (self w)).
Proof.
  intros Hwf. unfold _parse_metadata.
  destruct (normalize em res) as [n|e|code]; [|done..]. intros [= <-].
  pose proof (merge_all_preserves clock n w) as Hm.
  pose proof (merge_all_adds n w) as [Hadd Hflag].
  set (w1 := merge_all clock n w) in *.
  assert (Hwf1 : well_formed w1) by by eapply merge_preserves_well_formed.
  destruct Hwf1 as [Hnd1 Hlt1]. destruct Hwf as [Hnd Hlt].
  destruct Hm as (Hlen & Hdel & Hperm & Hkeep).
  destruct (sweep_all_frame clock w1) as [Hlen2 Hall2].
  exists (seq (length (heap w)) (length (heap w1) - length (heap w))),
         (List.filter (unseen_undeleted w1) (all_videos (self w1))).
  rewrite length_seq. split.
  { rewrite sweep_all_loop.
    destruct (report_deleted_loop_frame clock (all_videos (self w1)) w1)
      as (_ & _ & _ & _ & -> & _). done. }
  split.
  { rewrite sweep_all_loop, report_deleted_loop_bucket by done. by rewrite Hdel. }
  split; [done|]. split; [rewrite Hlen2; lia|]. split.
  - intros a Ha. apply elem_of_seq in Ha.
    assert (Hk : Video.known_not_deleted (deref w1 a) = true) by (apply Hflag; lia).
    assert (Hu : unseen_undeleted w1 a = false).
    { unfold unseen_undeleted. rewrite Hk. by rewrite andb_false_r. }
    split; [|split].
    + rewrite Hall2, Hperm. apply elem_of_app. right. apply elem_of_seq. lia.
    + intros Hin. apply list_elem_of_In, List.filter_In in Hin as [_ Hin]. congruence.
    + rewrite sweep_all_loop, report_deleted_loop_skip by done. done.
  - intros a Ha. apply list_elem_of_In, List.filter_In in Ha as [Ha Hu].
    apply list_elem_of_In in Ha. rewrite Hperm in Ha.
    apply elem_of_app in Ha as [Ha|Ha]; [done|].
    apply elem_of_seq in Ha.
    unfold unseen_undeleted in Hu. rewrite Hflag in Hu by lia.
    by rewrite andb_false_r in Hu.
Qed.

Lemma report_deleted_loop_nothing l w :
  (forall a, a ∈ l -> unseen_undeleted w a = false) ->
  report_deleted_loop clock l w = w.
Proof.
  induction l as [|a l IH]; intros Hdone; [done|].
  cbn [report_deleted_loop].
  rewrite report_deleted_one_skip by (apply Hdone; left).
  apply IH. intros b Hb. apply Hdone. by right.
Qed.

(** Sweeping twice is sweeping once: after a sweep no item is left
    unmarked with a deletion flag that is not true, so a second sweep
    leaves the whole state as it is. *)
Theorem sweep_is_idempotent w :
  live w (all_videos (self w)) ->
  sweep_all clock (sweep_all clock w) = sweep_all clock w.
Proof.
  intros Hlive.
  destruct (sweep_all_frame clock w) as [Hlen Hall].
  rewrite (sweep_all_loop clock (sweep_all clock w)). rewrite Hall.
  assert (Hdone : forall a, a ∈ all_videos (self w) ->
            unseen_undeleted (sweep_all clock w) a = false).
  { intros a Ha. rewrite sweep_all_loop.
    destruct (unseen_undeleted w a) eqn:Hu.
    - destruct (report_deleted_loop_marks clock (all_videos (self w)) w a Ha
                  (Hlive a Ha) Hu) as (Hc & _).
      unfold unseen_undeleted. by rewrite Hc.
    - rewrite <- Hu. apply unseen_undeleted_ext.
      by apply report_deleted_loop_skip. }
  by apply report_deleted_loop_nothing.
Qed.

Lemma comp_live i k w :
  live w (bucket_of k (self w)) ->
  live (_parse_metadata_videos_comp clock i k w)
    (bucket_of k (self (_parse_metadata_videos_comp clock i k w))).
Proof.
  intros Hlive. pose proof (merge_entries_live k i w Hlive) as Hl.
  unfold _parse_metadata_videos_comp, set_self. cbn [self heap].
  rewrite bucket_of_set_bucket, decide_True by done.
  intros a Ha. apply Hl. by rewrite <- (sort_newest_perm (merge_entries clock k i w)).
Qed.

Lemma report_deleted_one_id video w a :
  Video.id (deref (report_deleted_one clock video w) a) = Video.id (deref w a).
Proof.
  rewrite report_deleted_one_unfold. destruct (unseen_undeleted w video); [|done].
  unfold mark_deleted, deref. cbn.
  destruct (decide (video = a)) as [->|Hne].
  - destruct (decide (a < length (heap w))%nat) as [Hlt|Hge].
    + by rewrite list_lookup_total_insert_eq.
    + by rewrite list_insert_ge by lia.
  - by rewrite list_lookup_total_insert_ne.
Qed.

Lemma report_deleted_loop_id l w a :
  Video.id (deref (report_deleted_loop clock l w) a) = Video.id (deref w a).
Proof.
  revert w. induction l as [|b l IH]; intros w; cbn [report_deleted_loop]; [done|].
  rewrite IH. apply report_deleted_one_id.
Qed.

Lemma search_in_present w l id :
  present w l id ->
  exists a, search_in w id l = Ok a /\ a ∈ l /\ Video.id (deref w a) = id.
Proof.
  intros [a Hf]%present_found.
  apply find_by_id_Some in Hf as (pre & post & -> & Hid & Hpre).
  exists a. split; [by apply search_in_first|]. split; [|done].
  apply elem_of_app. right. left.
Qed.

(** After a refresh, every entry of the ordinary videos that has a format
    can be looked up: searching for its identifier returns an item of the
    videos collection that carries this identifier. *)
Theorem refresh_then_search res n w :
  live w (all_videos (self w)) ->
  normalize em res = Ok n ->
  let w' := (_parse_metadata clock em res w).2 in
  forall id, id ∈ observed_ids (entries_of Videos n) ->
    exists a, search id w' = Ok a /\ a ∈ videos (self w') /\ Video.id (deref w' a) = id.
Proof.
  intros Hlive Hn. cbn zeta. unfold _parse_metadata. rewrite Hn. cbn [snd].
  intros id Hid. destruct n as [[vs ls] ss]. cbn in Hid.
  unfold merge_all, _parse_metadata_videos.
  set (w1 := _parse_metadata_videos_comp clock vs Videos w).
  set (w2 := _parse_metadata_videos_comp clock ls Livestreams w1).
  set (w3 := _parse_metadata_videos_comp clock ss Shorts w2).
  assert (Hlv : live w (bucket_of Videos (self w))).
  { intros a Ha. apply Hlive. unfold all_videos. apply elem_of_app. by left. }
  pose proof (comp_present Videos vs w id Hlv Hid) as (a & Ha & Haid).
  pose proof (comp_live vs Videos w Hlv) as Hl1. fold w1 in Ha, Haid, Hl1.
  assert (Hv2 : videos (self w2) = videos (self w1))
    by apply (comp_other_bucket clock Livestreams Videos ls w1 ltac:(done)).
  assert (Hv3 : videos (self w3) = videos (self w2))
    by apply (comp_other_bucket clock Shorts Videos ss w2 ltac:(done)).
  pose proof (comp_preserves clock ls Livestreams w1) as (Hlen2 & _ & _ & Hk2).
  pose proof (comp_preserves clock ss Shorts w2) as (Hlen3 & _ & _ & Hk3).
  fold w2 in Hlen2, Hk2. fold w3 in Hlen3, Hk3.
  assert (Halt : (a < length (heap w1))%nat) by by apply Hl1.
  destruct (Hk2 a Halt) as (Hid2 & _). destruct (Hk3 a ltac:(lia)) as (Hid3 & _).
  destruct (search_in_present (sweep_all clock w3) (videos (self (sweep_all clock w3))) id)
    as (b & Hs & Hb & Hbid).
  { exists a. rewrite sweep_all_loop.
    destruct (report_deleted_loop_frame clock (all_videos (self w3)) w3) as (_ & -> & _).
    split; [by rewrite Hv3, Hv2|].
    rewrite report_deleted_loop_id. congruence. }
  exists b. done.
Qed.

End MergeMore.
(** *** Well-formedness *)

Section WellFormedMore.
Variable clock : nat -> Z.
Variable em : err_msg_behaviour.
Variable watch_url : string -> string.
Variable ydl_download : nat -> list string -> fetched.

(** The collections of a well-formed archive, distinct and live objects,
    stay so through a refresh, whatever the document and however the
    refresh ends, and through a download, whatever the fetch engine
    does. *)
Theorem archive_stays_well_formed w :
  well_formed w ->
  (forall res, well_formed (_parse_metadata clock em res w).2) /\
  (forall config r w',
     download clock em watch_url ydl_download config w = Some (r, w') ->
     well_formed w').
Proof.
  intros Hwf. split.
  - intros res. unfold _parse_metadata.
    destruct (normalize em res) as [n|e|code]; [|done..]. cbn [snd].
    pose proof (merge_all_preserves clock n w) as Hm.
    assert (Hwf1 : well_formed (merge_all clock n w))
      by by eapply merge_preserves_well_formed.
    destruct (sweep_all_frame clock (merge_all clock n w)) as [Hlen Hall].
    destruct Hwf1 as [Hnd Hlt]. split; rewrite Hall; [done|].
    intros a Ha. rewrite Hlen. auto.
  - intros config r w' Hd. destruct Hwf as [Hnd Hlt].
    destruct (download_loop_keeps clock em watch_url ydl_download 5 0 config w Hlt)
      as (r0 & w0 & l & Hd0 & Hp & _).
    unfold download in Hd. rewrite Hd0 in Hd. injection Hd as <- <-.
    pose proof (preserves_all_videos w w0 Hp) as Hall.
    destruct Hp as (Hlen & _). split; rewrite Hall; [done|].
    intros a Ha. rewrite Hlen. auto.
Qed.

End WellFormedMore.
(** *** _to_dict, _from_dict and load *)

Section CodecMore.
Variable Video_to_dict : Video.t -> json.
Variable Video_from_dict : json -> result Video.t.

Lemma decode_all_encoded w h l :
  (forall a, a ∈ l -> exists v, Video_from_dict (Video_to_dict (deref w a)) = Ok v) ->
  exists dv,
    decode_all Video_from_dict h ((fun a => Video_to_dict (deref w a)) <$> l)
      = Ok (h ++ dv, seq (length h) (length l)) /\
    Forall2 (fun a v => Video_from_dict (Video_to_dict (deref w a)) = Ok v) l dv.
Proof.
  revert h. induction l as [|a l IH]; intros h Hall.
  - exists []. cbn. by rewrite app_nil_r.
  - destruct (Hall a) as [v Hv]; [left|].
    destruct (IH (h ++ [v])) as (dv & Hd & Hf).
    { intros b Hb. apply Hall. by right. }
    exists (v :: dv). cbn [fmap list_fmap decode_all]. rewrite Hv, Hd. split.
    + rewrite <- app_assoc. cbn. rewrite length_app. cbn.
      by replace (length h + 1)%nat with (S (length h)) by lia.
    + by constructor.
Qed.

(** Decoding the dictionary of a channel gives the channel back: the same
    version and url, empty buckets, and in each collection the decoded
    items of the original collection in their order, allocated one after
    the other, provided each item can be decoded from its own
    dictionary. *)
Theorem to_dict_from_dict_round_trip w h :
  (forall a, a ∈ all_videos (self w) ->
     exists v, Video_from_dict (Video_to_dict (deref w a)) = Ok v) ->
  let decoded := Forall2 (fun a v => Video_from_dict (Video_to_dict (deref w a)) = Ok v) in
  exists dv dl ds c,
    _from_dict Video_from_dict (_to_dict Video_to_dict w) h
      = Some (Ok (h ++ dv ++ dl ++ ds, c)) /\
    version c = version (self w) /\ url c = url (self w) /\
    reporter c = Reporter.mk [] [] /\
    decoded (videos (self w)) dv /\
    decoded (livestreams (self w)) dl /\
    decoded (shorts (self w)) ds /\
    videos c = seq (length h) (length dv) /\
    livestreams c = seq (length h + length dv) (length dl) /\
    shorts c = seq (length h + length dv + length dl) (length ds).
Proof.
  intros Hall. cbn zeta. unfold all_videos in Hall.
  destruct (decode_all_encoded w h (videos (self w))) as (dv & Hdv & Hfv).
  { intros a Ha. apply Hall. apply elem_of_app. by left. }
  destruct (decode_all_encoded w (h ++ dv) (livestreams (self w))) as (dl & Hdl & Hfl).
  { intros a Ha. apply Hall. apply elem_of_app. right. apply elem_of_app. by left. }
  destruct (decode_all_encoded w ((h ++ dv) ++ dl) (shorts (self w))) as (ds & Hds & Hfs).
  { intros a Ha. apply Hall. apply elem_of_app. right. apply elem_of_app. by right. }
  exists dv, dl, ds. eexists. split.
  - unfold _from_dict, _to_dict, decode_key.
    rewrite lookup_insert_eq.
    rewrite (lookup_insert_ne _ "version" "url") by done. rewrite lookup_insert_eq.
    rewrite !(lookup_insert_ne _ _ "videos") by done. rewrite lookup_insert_eq.
    rewrite Hdv.
    rewrite !(lookup_insert_ne _ _ "livestreams") by done. rewrite lookup_insert_eq.
    rewrite Hdl.
    rewrite !(lookup_insert_ne _ _ "shorts") by done. rewrite lookup_insert_eq.
    rewrite Hds. rewrite <- !app_assoc. reflexivity.
  - cbn. rewrite !length_app.
    rewrite (Forall2_length _ _ _ Hfv), (Forall2_length _ _ _ Hfl),
      (Forall2_length _ _ _ Hfs).
    repeat split; try done; f_equal; lia.
Qed.

End CodecMore.

Section LoadMore.
Variable clock : nat -> Z.
Variable em : err_msg_behaviour.
Variable ne : Migrate.new_empty_behaviour.
Variable Video_from_dict : json -> result Video.t.

Lemma load_encoded_version encoded out :
  Migrate.load_encoded clock em ne encoded = Some (Migrate.Returned out) ->
  out !! "version" = Some (JNum ARCHIVE_COMPAT).
Proof.
  unfold Migrate.load_encoded.
  destruct (encoded !! "version") as [[| b | n | | |]|] eqn:Hv; try done.
  - unfold Migrate.unknown_version. by destruct em.
  - intros Hm. apply migrate_returns_version in Hm as [Hout Hcur]; [done|by destruct b].
  - destruct (Z.eqb_spec n ARCHIVE_COMPAT) as [->|Hne].
    + by intros [= <-].
    + intros Hm. by apply migrate_returns_version in Hm as [Hout _].
  - unfold Migrate.unknown_version. by destruct em.
  - unfold Migrate.unknown_version. by destruct em.
  - unfold Migrate.unknown_version. by destruct em.
Qed.

(** A channel that was loaded has the version of the code: whatever
    document is stored, if the version check and the migration hand a
    document to the decoder and the decoder returns a channel, the
    channel's version is 3. *)
Theorem loaded_channel_has_current_version encoded out h h' c :
  Migrate.load_encoded clock em ne encoded = Some (Migrate.Returned out) ->
  _from_dict Video_from_dict out h = Some (Ok (h', c)) ->
  version c = ARCHIVE_COMPAT.
Proof.
  intros Hl Hd. apply load_encoded_version in Hl.
  unfold _from_dict in Hd. rewrite Hl in Hd.
  destruct (out !! "url") as [u|]; [|done].
  destruct (decode_key _ "videos" out h) as [[[h1 vs]|e|code]|]; try done.
  destruct (decode_key _ "livestreams" out h1) as [[[h2 ls]|e|code]|]; try done.
  destruct (decode_key _ "shorts" out h2) as [[[h3 ss]|e|code]|]; try done.
  destruct u; try done. by injection Hd as <- <-.
Qed.

End LoadMore.
(** *** The merge of a category, as a whole *)

Section MergeWhole.
Variable clock : nat -> Z.

Lemma merge_entry_grows k entry w :
  let w' := merge_entry clock k entry w in
  bucket_of k (self w')
    = bucket_of k (self w) ++ seq (length (heap w)) (length (heap w') - length (heap w)) /\
  (length (heap w) <= length (heap w'))%nat.
Proof.
  cbn zeta.
  destruct (merge_entry_cases clock k entry w)
    as [->|[(video & Hf & Hs & Hh)|(Hf & _ & Hh & Hb)]].
  - rewrite Nat.sub_diag. cbn. by rewrite app_nil_r.
  - rewrite Hs, Hh, length_insert, Nat.sub_diag. cbn. by rewrite app_nil_r.
  - rewrite Hb, Hh, length_app. cbn.
    replace (length (heap w) + 1 - length (heap w))%nat with 1%nat by lia.
    split; [done|lia].
Qed.

Lemma merge_entries_grows k i w :
  let w' := merge_entries clock k i w in
  bucket_of k (self w')
    = bucket_of k (self w) ++ seq (length (heap w)) (length (heap w') - length (heap w)) /\
  (length (heap w) <= length (heap w'))%nat.
Proof.
  cbn zeta. revert w. induction i as [|entry i IH]; intros w; cbn [merge_entries].
  - rewrite Nat.sub_diag. cbn. by rewrite app_nil_r.
  - destruct (merge_entry_grows k entry w) as [Hb1 Hl1]. cbn zeta in Hb1, Hl1.
    destruct (IH (merge_entry clock k entry w)) as [Hb2 Hl2].
    set (w1 := merge_entry clock k entry w) in *.
    set (w' := merge_entries clock k i w1) in *.
    split; [|lia]. rewrite Hb2, Hb1, <- app_assoc. f_equal.
    replace (length (heap w') - length (heap w))%nat
      with ((length (heap w1) - length (heap w))
            + (length (heap w') - length (heap w1)))%nat by lia.
    rewrite seq_app. f_equal. f_equal. lia.
Qed.

(** An entry with a format leaves an item with its identifier in the
    collection, marked as observed. *)
Lemma merge_entry_marks k entry w :
  no_formats entry = false ->
  live w (bucket_of k (self w)) ->
  let w' := merge_entry clock k entry w in
  exists a, a ∈ bucket_of k (self w') /\
            Video.id (deref w' a) = entry_id entry /\
            Video.known_not_deleted (deref w' a) = true.
Proof.
  intros Hfmt Hlive. cbn zeta. unfold merge_entry. rewrite Hfmt.
  destruct (find_by_id w (entry_id entry) (bucket_of k (self w))) as [video|] eqn:Hf.
  - apply find_by_id_Some in Hf as (pre & post & Hl & Hid & _).
    assert (Hin : video ∈ bucket_of k (self w)).
    { rewrite Hl. apply elem_of_app. right. left. }
    exists video. split; [done|]. unfold deref at 1 3. cbn [heap tick set_heap].
    rewrite list_lookup_total_insert_eq by (by apply Hlive). done.
  - exists (length (heap w)). cbn. split.
    + destruct k; cbn; apply elem_of_app; right; left.
    + unfold deref. cbn. rewrite lookup_total_app_r by done.
      by rewrite Nat.sub_diag.
Qed.

(** A merge keeps the items of the collection, their identifiers and
    their marks. *)
Lemma merge_entries_keeps_mark k i w a :
  (a < length (heap w))%nat ->
  a ∈ bucket_of k (self w) ->
  Video.known_not_deleted (deref w a) = true ->
  let w' := merge_entries clock k i w in
  a ∈ bucket_of k (self w') /\
  Video.id (deref w' a) = Video.id (deref w a) /\
  Video.known_not_deleted (deref w' a) = true.
Proof.
  intros Hlt Hin Hmark. cbn zeta.
  destruct (merge_entries_grows k i w) as [Hb _]. cbn zeta in Hb.
  destruct (merge_entries_preserves clock k i w) as (_ & _ & _ & Hkeep).
  destruct (Hkeep a Hlt) as (Hid & _ & _ & Hm).
  split; [rewrite Hb; apply elem_of_app; by left|]. split; [done|by apply Hm].
Qed.

Lemma merge_entries_marks k i w id :
  live w (bucket_of k (self w)) ->
  id ∈ observed_ids i ->
  let w' := merge_entries clock k i w in
  exists a, a ∈ bucket_of k (self w') /\
            Video.id (deref w' a) = id /\
            Video.known_not_deleted (deref w' a) = true.
Proof.
  cbn zeta. revert w. induction i as [|entry i IH]; intros w Hlive Hid.
  { by apply elem_of_nil in Hid. }
  cbn [merge_entries]. rewrite observed_ids_cons in Hid.
  pose proof (merge_entry_live clock k entry w Hlive) as Hlive1.
  destruct (no_formats entry) eqn:Hfmt; [by apply IH|].
  apply elem_of_cons in Hid as [->|Hid]; [|by apply IH].
  destruct (merge_entry_marks k entry w Hfmt Hlive) as (a & Ha & Hida & Hm).
  destruct (merge_entries_keeps_mark k i (merge_entry clock k entry w) a)
    as (Ha' & Hid' & Hm'); [by apply Hlive1|done|done|].
  exists a. split; [done|]. split; [by rewrite Hid'|done].
Qed.

(** The items a merge creates carry identifiers of entries with a format
    that no item of the collection had. *)
Lemma merge_entries_fresh k i w a :
  live w (bucket_of k (self w)) ->
  let w' := merge_entries clock k i w in
  (length (heap w) <= a < length (heap w'))%nat ->
  Video.id (deref w' a) ∈ observed_ids i /\
  forall b, b ∈ bucket_of k (self w) -> Video.id (deref w b) <> Video.id (deref w' a).
Proof.
  cbn zeta. revert w. induction i as [|entry i IH]; intros w Hlive Ha.
  { cbn in Ha. lia. }
  cbn [merge_entries] in Ha |- *.
  pose proof (merge_entry_live clock k entry w Hlive) as Hlive1.
  rewrite observed_ids_cons.
  destruct (merge_entry_cases clock k entry w)
    as [Hw|[(video & Hf & Hs & Hh)|(Hf & Hfmt & Hh & Hb)]].
  - rewrite Hw in *. destruct (IH w Hlive Ha) as [Hin Hnew].
    split; [|done]. destruct (no_formats entry); [done|by right].
  - assert (Hlen : length (heap (merge_entry clock k entry w)) = length (heap w)).
    { by rewrite Hh, length_insert. }
    destruct (IH (merge_entry clock k entry w) Hlive1) as [Hin Hnew]; [lia|].
    split; [destruct (no_formats entry); [done|by right]|].
    intros b Hb Heq.
    destruct (merge_entry_keeps_present clock k entry w (Video.id (deref w b)) Hlive)
      as (c & Hc & Hidc); [by exists b|].
    apply (Hnew c Hc). congruence.
  - rewrite Hfmt.
    assert (Hlen : length (heap (merge_entry clock k entry w)) = S (length (heap w))).
    { rewrite Hh, length_app. cbn. lia. }
    destruct (decide (a = length (heap w))) as [->|Hne].
    + destruct (merge_entries_preserves clock k i (merge_entry clock k entry w))
        as (_ & _ & _ & Hkeep).
      destruct (Hkeep (length (heap w))) as (Hid & _); [lia|].
      assert (Hnew : Video.id (deref (merge_entry clock k entry w) (length (heap w)))
                     = entry_id entry).
      { unfold deref. rewrite Hh, lookup_total_app_r by done.
        by rewrite Nat.sub_diag. }
      rewrite Hid, Hnew. split; [left|].
      intros b Hbin. by apply (proj1 (find_by_id_None w (entry_id entry) _) Hf).
    + destruct (IH (merge_entry clock k entry w) Hlive1) as [Hin Hnew]; [lia|].
      split; [by right|].
      intros b Hbin Heq.
      destruct (merge_entry_keeps_present clock k entry w (Video.id (deref w b)) Hlive)
        as (c & Hc & Hidc); [by exists b|].
      apply (Hnew c Hc). congruence.
Qed.

(** C9. An entry with no "formats" key or an empty formats list is skipped
    by the merge: the state is left exactly as it was, so no item is
    created or updated and nothing is added to the "added" bucket, and
    merging a list of entries is merging the entries that have a format.
    An entry with a format updates the first item of the collection that
    has its identifier, leaving the channel's lists and buckets as they
    were; when no item has its identifier, a new item is appended to the
    collection and to the "added" bucket, once. The entries are merged
    one after the other, each in the state the one before it left. After
    the entries of a category are merged the collection is sorted newest
    first, holding the same items: the items it held before and the
    items created, which are the ones appended to the "added" bucket,
    each for an identifier of an entry with a format that no item of the
    collection had; and every entry with a format has an item with its
    identifier in the collection, marked as observed. *)
Theorem merge_skips_entries_without_formats k :
  (forall entry w, no_formats entry = true -> merge_entry clock k entry w = w) /\
  (forall i w,
     _parse_metadata_videos_comp clock i k w
       = _parse_metadata_videos_comp clock
           (List.filter (fun entry => negb (no_formats entry)) i) k w) /\
  (forall entry w video pre post,
     no_formats entry = false ->
     bucket_of k (self w) = pre ++ video :: post ->
     Video.id (deref w video) = entry_id entry ->
     (forall b, b ∈ pre -> Video.id (deref w b) <> entry_id entry) ->
     let w' := merge_entry clock k entry w in
     heap w' = <[video := Video.update (now clock w) entry (deref w video)]> (heap w) /\
     self w' = self w) /\
  (forall entry w,
     no_formats entry = false ->
     (forall b, b ∈ bucket_of k (self w) -> Video.id (deref w b) <> entry_id entry) ->
     let w' := merge_entry clock k entry w in
     let video := length (heap w) in
     heap w' = heap w ++ [Video.new (now clock w) entry] /\
     bucket_of k (self w') = bucket_of k (self w) ++ [video] /\
     (forall k', k' <> k -> bucket_of k' (self w') = bucket_of k' (self w)) /\
     Reporter.added (reporter (self w'))
       = Reporter.added (reporter (self w)) ++ [video] /\
     Reporter.deleted (reporter (self w')) = Reporter.deleted (reporter (self w))) /\
  (forall i w,
     let w1 := merge_entries clock k i w in
     let w' := _parse_metadata_videos_comp clock i k w in
     heap w' = heap w1 /\
     StronglySorted (newest_first w') (bucket_of k (self w')) /\
     bucket_of k (self w') ≡ₚ bucket_of k (self w1)) /\
  (forall entry i1 i2 w,
     merge_entries clock k [entry] w = merge_entry clock k entry w /\
     merge_entries clock k (i1 ++ i2) w
       = merge_entries clock k i2 (merge_entries clock k i1 w)) /\
  (forall i w,
     live w (bucket_of k (self w)) ->
     let w' := _parse_metadata_videos_comp clock i k w in
     let created := seq (length (heap w)) (length (heap w') - length (heap w)) in
     bucket_of k (self w') ≡ₚ bucket_of k (self w) ++ created /\
     Reporter.added (reporter (self w')) = Reporter.added (reporter (self w)) ++ created /\
     (forall a, a ∈ created ->
        Video.id (deref w' a) ∈ observed_ids i /\
        forall b, b ∈ bucket_of k (self w) ->
                  Video.id (deref w b) <> Video.id (deref w' a)) /\
     (forall id, id ∈ observed_ids i ->
        exists a, a ∈ bucket_of k (self w') /\
                  Video.id (deref w' a) = id /\
                  Video.known_not_deleted (deref w' a) = true)).
Proof.
  split; [|split; [|split; [|split; [|split; [|split]]]]].
  - intros entry w Hfmt. unfold merge_entry. by rewrite Hfmt.
  - intros i w. unfold _parse_metadata_videos_comp.
    by rewrite <- merge_entries_filter.
  - intros entry w video pre post Hfmt Hl Hid Hpre. cbn zeta.
    unfold merge_entry. rewrite Hfmt.
    rewrite (proj2 (find_by_id_Some w (entry_id entry) _ video)); [done|].
    by exists pre, post.
  - intros entry w Hfmt Hnone. cbn zeta.
    unfold merge_entry. rewrite Hfmt.
    rewrite (proj2 (find_by_id_None w (entry_id entry) _)) by done.
    cbn. split; [done|]. split; [by destruct k|].
    split; [|by destruct k]. intros k' Hk'. by destruct k, k'.
  - intros i w. cbn zeta. unfold _parse_metadata_videos_comp.
    set (w1 := merge_entries clock k i w).
    split; [done|]. unfold set_self. cbn [self].
    rewrite bucket_of_set_bucket, decide_True by done. split.
    + apply (sort_newest_sorted w1).
    + apply sort_newest_perm.
  - intros entry i1 i2 w. split; [done|].
    revert w. induction i1 as [|e i1 IH]; intros w; [done|].
    cbn [app merge_entries]. apply IH.
  - intros i w Hlive. cbn zeta.
    destruct (merge_entries_grows k i w) as [Hb Hle]. cbn zeta in Hb.
    destruct (comp_adds clock i k w) as [Hadd _].
    unfold _parse_metadata_videos_comp in *.
    set (w1 := merge_entries clock k i w) in *.
    unfold set_self in *. cbn [self heap] in *.
    rewrite bucket_of_set_bucket, decide_True by done.
    split; [by rewrite sort_newest_perm, Hb|]. split; [done|]. split.
    + intros a Ha. apply elem_of_seq in Ha.
      apply (merge_entries_fresh k i w a Hlive). fold w1. lia.
    + intros id Hid.
      destruct (merge_entries_marks k i w id Hlive Hid) as (a & Ha & Hida & Hm).
      exists a. split; [by rewrite sort_newest_perm|done].
Qed.

End MergeWhole.

(** * The further statements at the sample data *)

Lemma sample_world_live : live Sample.world (all_videos (self Sample.world)).
Proof. exact (proj2 sample_world_well_formed). Qed.

Lemma sample_videos_live : live Sample.world (bucket_of Videos (self Sample.world)).
Proof.
  intros a Ha. apply sample_world_live. unfold all_videos. apply elem_of_app. by left.
Qed.

Lemma sample_videos_unique : unique_ids Sample.world (bucket_of Videos (self Sample.world)).
Proof. apply (bool_decide_unpack _). vm_compute. reflexivity. Qed.

Lemma migrate_v2_to_current_witness :
  Migrate._migrate_archive Sample.clock ErrMsgReturns Sample.new_empty_broken
    2 ARCHIVE_COMPAT Sample.v2
    = Some (Migrate.Raised (NameError "Channel") Sample.v2) /\
  (exists out,
     Migrate._migrate_archive Sample.clock ErrMsgReturns Sample.new_empty_broken
       2 ARCHIVE_COMPAT Sample.v2_empty = Some (Migrate.Returned out) /\
     out !! "version" = Some (JNum 3) /\
     out !! "url" = Sample.v2_empty !! "url") /\
  (exists out vs',
     Migrate._migrate_archive Sample.clock ErrMsgReturns Migrate.NewEmptyReturns
       2 ARCHIVE_COMPAT Sample.v2 = Some (Migrate.Returned out) /\
     out !! "videos" = Some (JList vs') /\
     stamped Sample.clock 0 [JDict {[ "id" := JStr "a" ]}] vs').
Proof.
  split; [|split].
  - destruct (migrate_v2_to_current Sample.clock ErrMsgReturns Sample.new_empty_broken
                Sample.v2 [JDict {[ "id" := JStr "a" ]}]
                [JDict {[ "id" := JStr "x" ]}] [JDict {[ "id" := JStr "s" ]}])
      as [_ Hraise]; [vm_compute; reflexivity ..|].
    apply (Hraise (NameError "Channel")); [reflexivity|discriminate].
  - destruct (migrate_v2_to_current Sample.clock ErrMsgReturns
                Sample.new_empty_broken Sample.v2_empty [] [] [])
      as [Hret _]; [vm_compute; reflexivity ..|].
    destruct Hret
      as (out & vs' & ls' & ss' & Hm & Hv & _ & _ & _ & _ & _ & _ & Hother).
    + right. reflexivity.
    + reflexivity.
    + exists out. split; [exact Hm|]. split; [exact Hv|]. apply Hother.
      intros Hin. repeat (apply elem_of_cons in Hin as [Hin|Hin]; [discriminate|]).
      by apply elem_of_nil in Hin.
  - destruct (migrate_v2_to_current Sample.clock ErrMsgReturns
                Migrate.NewEmptyReturns Sample.v2 [JDict {[ "id" := JStr "a" ]}]
                [JDict {[ "id" := JStr "x" ]}] [JDict {[ "id" := JStr "s" ]}])
      as [Hret _]; [vm_compute; reflexivity ..|].
    destruct Hret as (out & vs' & ls' & ss' & Hm & _ & Hvs & _ & _ & Hst & _).
    + left. reflexivity.
    + reflexivity.
    + exists out, vs'. split; [exact Hm|]. split; [exact Hvs|exact Hst].
Defined.

Lemma migrate_v1_without_id_witness :
  Migrate._migrate_archive Sample.clock ErrMsgReturns Sample.new_empty_broken
    1 ARCHIVE_COMPAT {[ "version" := JNum 1 ]}
    = Some (Migrate.Raised (KeyError "id") {[ "version" := JNum 1 ]}) /\
  Migrate._migrate_archive Sample.clock ErrMsgReturns Sample.new_empty_broken
    1 ARCHIVE_COMPAT {[ "id" := JNum 5 ]}
    = Some (Migrate.Raised TypeError {[ "id" := JNum 5 ]}).
Proof.
  split.
  - apply (proj1 (migrate_v1_without_id Sample.clock ErrMsgReturns
                    Sample.new_empty_broken {[ "version" := JNum 1 ]})).
    reflexivity.
  - apply (proj2 (migrate_v1_without_id Sample.clock ErrMsgReturns
                    Sample.new_empty_broken {[ "id" := JNum 5 ]})
             (JNum 5)).
    + reflexivity.
    + intros s. discriminate.
Defined.

Lemma migration_failure_is_partial_witness :
  (exists enc',
     Migrate._migrate_archive Sample.clock ErrMsgReturns Sample.new_empty_broken
       1 ARCHIVE_COMPAT {[ "id" := JStr "UCabc" ]}
       = Some (Migrate.Raised (KeyError "videos") enc') /\
     enc' !! "version" = Some (JNum 2) /\
     enc' !! "id" = None) /\
  (exists enc',
     Migrate._migrate_archive Sample.clock ErrMsgReturns Sample.new_empty_broken
       1 ARCHIVE_COMPAT Sample.v1
       = Some (Migrate.Raised (NameError "Channel") enc') /\
     enc' !! "version" = Some (JNum 2) /\
     enc' !! "id" = None) /\
  (exists vs',
     Migrate._migrate_archive Sample.clock ErrMsgReturns Sample.new_empty_broken
       2 ARCHIVE_COMPAT {[ "version" := JNum 2; "videos" := JList [] ]}
       = Some (Migrate.Raised (KeyError "livestreams")
                 (<["videos" := JList vs']>
                    {[ "version" := JNum 2; "videos" := JList [] ]})) /\
     stamped Sample.clock 0 [] vs').
Proof.
  split; [|split].
  - destruct (proj1 (migration_failure_is_partial Sample.clock ErrMsgReturns
                       Sample.new_empty_broken {[ "id" := JStr "UCabc" ]}) "UCabc")
      as (enc' & Hm & Hv & Hid & _).
    + reflexivity.
    + reflexivity.
    + exists enc'. split; [exact Hm|]. split; [exact Hv|exact Hid].
  - destruct (proj1 (proj2 (migration_failure_is_partial Sample.clock ErrMsgReturns
                       Sample.new_empty_broken Sample.v1))
                "UCabc" (JDict {[ "id" := JStr "a"; "uploaded" := JNum 30 ]}) []
                (NameError "Channel"))
      as (enc' & Hm & Hv & Hid & _).
    + vm_compute. reflexivity.
    + vm_compute. reflexivity.
    + reflexivity.
    + exists enc'. split; [exact Hm|]. split; [exact Hv|exact Hid].
  - apply (proj2 (proj2 (migration_failure_is_partial Sample.clock ErrMsgReturns
                       Sample.new_empty_broken
                       {[ "version" := JNum 2; "videos" := JList [] ]})) []).
    + vm_compute. reflexivity.
    + reflexivity.
    + right. reflexivity.
    + vm_compute. reflexivity.
Defined.

Lemma migration_terminates_witness :
  exists o,
    Migrate.migrate_step Sample.clock ErrMsgReturns Sample.new_empty_broken
      7 ARCHIVE_COMPAT 0 1 Sample.v1 = Some o /\
    Migrate._migrate_archive Sample.clock ErrMsgReturns Sample.new_empty_broken
      1 ARCHIVE_COMPAT Sample.v1 = Some o.
Proof.
  apply (migration_terminates Sample.clock ErrMsgReturns Sample.new_empty_broken
           ARCHIVE_COMPAT 1 Sample.v1 7).
  unfold Migrate.migrate_depth. lia.
Defined.

Lemma load_yields_current_version_witness :
  exists out,
    Migrate.load_encoded Sample.clock ErrMsgReturns Sample.new_empty_broken
      Sample.v1_empty = Some (Migrate.Returned out) /\
    out !! "version" = Some (JNum ARCHIVE_COMPAT).
Proof.
  pose proof (proj2 (load_yields_current_version Sample.clock ErrMsgReturns
                       Sample.new_empty_broken Sample.v1_empty))
    as H.
  eexists. split; [vm_compute; reflexivity|].
  refine (proj1 (H _ _)). vm_compute. reflexivity.
Defined.

Lemma submit_normalises_witness :
  max_videos (submit (Sample.config (Some 5))) = Some 5 /\
  max_livestreams (submit (Sample.config (Some 5))) = Some 0 /\
  max_shorts (submit (Sample.config (Some 5))) = Some 0.
Proof.
  destruct (submit_normalises (Sample.config (Some 5))) as (_ & _ & _ & _ & H & _).
  apply H. left. discriminate.
Defined.

Lemma single_maximum_excludes_others_witness :
  _curate (submit (Sample.config (Some 2))) Sample.world
    = curate_list Sample.world (videos (self Sample.world)) (Some 2).
Proof.
  apply (proj1 (single_maximum_excludes_others Sample.world (Sample.config (Some 2)) 2));
    reflexivity.
Defined.

Lemma curate_selects_undownloaded_witness :
  exists l,
    _curate (Sample.config None) Sample.world = Ok l /\
    l = List.filter (fun a => negb (downloaded Sample.world a))
          (all_videos (self Sample.world)).
Proof.
  destruct (curate_selects_undownloaded (Sample.config None) Sample.world)
    as (l & Hl & _ & _ & _ & Hall).
  exists l. split; [exact Hl|]. apply Hall; reflexivity.
Defined.

Lemma download_keeps_archive_witness :
  exists r w',
    download Sample.clock ErrMsgReturns Sample.watch_url Sample.engine_removed
      (Sample.config None) Sample.world = Some (r, w') /\
    download_preserves Sample.world w'.
Proof.
  destruct (download_keeps_archive Sample.clock ErrMsgReturns Sample.watch_url
              Sample.engine_removed (Sample.config None) Sample.world sample_world_live)
    as (r & w' & Hd & Hp & _).
  exists r, w'. split; [exact Hd|exact Hp].
Defined.

Lemma download_reports_each_deletion_once_witness :
  exists r w' l,
    download Sample.clock ErrMsgReturns Sample.watch_url Sample.engine_removed
      (Sample.config None) Sample.world = Some (r, w') /\
    Reporter.deleted (reporter (self w'))
      = Reporter.deleted (reporter (self Sample.world)) ++ l /\
    NoDup l.
Proof.
  destruct (download_reports_each_deletion_once Sample.clock ErrMsgReturns
              Sample.watch_url Sample.engine_removed (Sample.config None) Sample.world
              sample_world_live)
    as (r & w' & l & Hd & Hb & Hn & _).
  exists r, w', l. split; [exact Hd|]. split; [exact Hb|exact Hn].
Defined.

Lemma download_bounds_fetch_calls_witness :
  exists r w',
    download Sample.clock ErrMsgReturns Sample.watch_url Sample.engine_down
      (Sample.config None) Sample.world = Some (r, w') /\
    (fetches w' <= 25)%nat.
Proof.
  destruct (download_bounds_fetch_calls Sample.clock ErrMsgReturns Sample.watch_url
              Sample.engine_down (Sample.config None) Sample.world sample_world_live)
    as (r & w' & Hd & _ & Hf).
  exists r, w'. split; [exact Hd|]. exact Hf.
Defined.

Lemma download_first_fetch_succeeds_witness :
  exists w',
    download Sample.clock ErrMsgReturns Sample.watch_url Sample.engine_ok
      (Sample.config None) Sample.world = Some (Ok tt, w') /\
    self w' = self Sample.world /\
    fetches w' = 1%nat.
Proof.
  destruct (download_first_fetch_succeeds Sample.clock ErrMsgReturns Sample.watch_url
              Sample.engine_ok (Sample.config None) Sample.world
              [0%nat; 1%nat; 2%nat; 3%nat])
    as (w' & Hd & _ & Hs & Hf & _).
  - vm_compute. reflexivity.
  - discriminate.
  - reflexivity.
  - exists w'. split; [exact Hd|]. split; [exact Hs|exact Hf].
Defined.

Lemma download_metadata_retries_witness :
  exists k r,
    (k <= 2)%nat /\
    _download_metadata ErrMsgReturns Sample.extract_third Sample.world
      = (r, after_delays k Sample.world).
Proof.
  destruct (download_metadata_retries ErrMsgReturns Sample.extract_third Sample.world)
    as (k & r & Hk & Hd & _).
  exists k, r. split; [exact Hk|exact Hd].
Defined.

Lemma metadata_parses_first_result_witness :
  metadata Sample.clock ErrMsgReturns Sample.extract_third Sample.world
    = _parse_metadata Sample.clock ErrMsgReturns
        [mkTopEntry (Sample.entry "a" 30 (Some ["mp4"])) None]
        (after_delays 2 Sample.world) /\
  exists w',
    metadata Sample.clock ErrMsgReturns Sample.extract_never Sample.world
      = (Exit 1, w') /\
    self w' = self Sample.world.
Proof.
  split.
  - apply (proj1 (metadata_parses_first_result Sample.clock ErrMsgReturns
                    Sample.extract_third Sample.world) 2%nat).
    + lia.
    + intros [|[|j]] Hj; [by eexists..|lia].
    + reflexivity.
  - destruct (proj2 (metadata_parses_first_result Sample.clock ErrMsgReturns
                       Sample.extract_never Sample.world))
      as (w' & Hm & _ & Hs & _).
    + intros j Hj. by eexists.
    + exists w'. split; [exact Hm|exact Hs].
Defined.

Lemma refresh_fails_before_merging_witness :
  (_parse_metadata Sample.clock ErrMsgReturns [] Sample.world).1 = Raise IndexError /\
  (_parse_metadata Sample.clock (ErrMsgExits 2) Sample.nested Sample.world).2
    = Sample.world.
Proof.
  split.
  - apply (proj1 (refresh_fails_before_merging Sample.clock ErrMsgReturns [] Sample.world)).
    reflexivity.
  - apply (proj2 (refresh_fails_before_merging Sample.clock (ErrMsgExits 2)
                    Sample.nested Sample.world) (Exit 2)).
    + vm_compute. reflexivity.
    + discriminate.
Defined.

Lemma normalize_takes_last_group_witness :
  normalize_groups ErrMsgReturns
    [ Sample.group "Some channel - Videos" [Sample.entry "a" 30 (Some ["mp4"])];
      Sample.group "Some channel - Videos" [Sample.entry "b" 20 (Some ["mp4"])] ]
    ([], [], [])
  = Ok ([Sample.entry "b" 20 (Some ["mp4"])], [], []).
Proof.
  apply (normalize_takes_last_group ErrMsgReturns
    [ Sample.group "Some channel - Videos" [Sample.entry "a" 30 (Some ["mp4"])];
      Sample.group "Some channel - Videos" [Sample.entry "b" 20 (Some ["mp4"])] ]
    [] [] []).
  repeat constructor; try discriminate.
Defined.

Lemma merge_keeps_ids_unique_witness :
  let w' := _parse_metadata_videos_comp Sample.clock
              [Sample.entry "b" 20 (Some ["mp4"]); Sample.entry "n" 50 (Some ["mp4"])]
              Videos Sample.world in
  unique_ids w' (bucket_of Videos (self w')).
Proof.
  apply (merge_keeps_ids_unique Sample.clock
           [Sample.entry "b" 20 (Some ["mp4"]); Sample.entry "n" 50 (Some ["mp4"])]
           Videos Sample.world sample_videos_live sample_videos_unique).
Defined.

Lemma second_merge_adds_nothing_witness :
  let i := [Sample.entry "b" 20 (Some ["mp4"]); Sample.entry "n" 50 (Some ["mp4"])] in
  let w1 := _parse_metadata_videos_comp Sample.clock i Videos Sample.world in
  let w2 := _parse_metadata_videos_comp Sample.clock i Videos w1 in
  self w2 = self w1 /\ length (heap w2) = length (heap w1).
Proof.
  apply (second_merge_adds_nothing Sample.clock
           [Sample.entry "b" 20 (Some ["mp4"]); Sample.entry "n" 50 (Some ["mp4"])]
           Videos Sample.world sample_videos_live).
Defined.

Lemma refresh_never_deletes_what_it_adds_witness :
  let res := [mkTopEntry (Sample.entry "n" 50 (Some ["mp4"])) None] in
  let w' := (_parse_metadata Sample.clock ErrMsgReturns res Sample.world).2 in
  exists la ld,
    Reporter.added (reporter (self w')) = Reporter.added (reporter (self Sample.world)) ++ la /\
    Reporter.deleted (reporter (self w'))
      = Reporter.deleted (reporter (self Sample.world)) ++ ld /\
    forall a, a ∈ la -> a ∉ ld.
Proof.
  cbn zeta.
  destruct (refresh_never_deletes_what_it_adds Sample.clock ErrMsgReturns
              [mkTopEntry (Sample.entry "n" 50 (Some ["mp4"])) None] Sample.world
              (_parse_metadata Sample.clock ErrMsgReturns
                 [mkTopEntry (Sample.entry "n" 50 (Some ["mp4"])) None] Sample.world).2
              sample_world_well_formed)
    as (la & ld & Ha & Hd & _ & _ & Hla & _).
  - vm_compute. reflexivity.
  - exists la, ld. split; [exact Ha|]. split; [exact Hd|].
    intros a Hin. apply (Hla a Hin).
Defined.

Lemma sweep_is_idempotent_witness :
  sweep_all Sample.clock (sweep_all Sample.clock Sample.world)
    = sweep_all Sample.clock Sample.world.
Proof. apply (sweep_is_idempotent Sample.clock Sample.world sample_world_live). Defined.

Lemma refresh_then_search_witness :
  let w' := (_parse_metadata Sample.clock ErrMsgReturns
               [mkTopEntry (Sample.entry "n" 50 (Some ["mp4"])) None] Sample.world).2 in
  exists a, search "n" w' = Ok a /\ Video.id (deref w' a) = "n".
Proof.
  cbn zeta.
  destruct (refresh_then_search Sample.clock ErrMsgReturns
              [mkTopEntry (Sample.entry "n" 50 (Some ["mp4"])) None]
              ([Sample.entry "n" 50 (Some ["mp4"])], [], []) Sample.world
              sample_world_live eq_refl "n")
    as (a & Hs & _ & Hid).
  - cbn. left.
  - exists a. split; [exact Hs|exact Hid].
Defined.

Lemma archive_stays_well_formed_witness :
  well_formed (_parse_metadata Sample.clock ErrMsgReturns Sample.nested Sample.world).2.
Proof.
  apply (proj1 (archive_stays_well_formed Sample.clock ErrMsgReturns Sample.watch_url
                  Sample.engine_down Sample.world sample_world_well_formed)).
Defined.

Lemma to_dict_from_dict_round_trip_witness :
  exists dv dl ds c,
    _from_dict Sample.video_from_dict (_to_dict Sample.video_to_dict Sample.world) []
      = Some (Ok ([] ++ dv ++ dl ++ ds, c)) /\
    version c = 3 /\
    videos c = seq 0 (length dv).
Proof.
  destruct (to_dict_from_dict_round_trip Sample.video_to_dict Sample.video_from_dict
              Sample.world [])
    as (dv & dl & ds & c & Hd & Hv & _ & _ & _ & _ & _ & Hvs & _).
  - intros a Ha. cbn in Ha.
    repeat (apply elem_of_cons in Ha as [->|Ha]);
      try (by apply elem_of_nil in Ha); eexists; vm_compute; reflexivity.
  - exists dv, dl, ds, c. split; [exact Hd|]. split; [exact Hv|exact Hvs].
Defined.

Lemma loaded_channel_has_current_version_witness :
  exists out h' c,
    Migrate.load_encoded Sample.clock ErrMsgReturns Sample.new_empty_broken
      Sample.v1_empty = Some (Migrate.Returned out) /\
    _from_dict Sample.video_from_dict out [] = Some (Ok (h', c)) /\
    version c = ARCHIVE_COMPAT.
Proof.
  eexists _, _, _. split; [vm_compute; reflexivity|]. split; [vm_compute; reflexivity|].
  eapply (loaded_channel_has_current_version Sample.clock ErrMsgReturns
            Sample.new_empty_broken Sample.video_from_dict Sample.v1_empty _ [] _ _).
  - vm_compute. reflexivity.
  - vm_compute. reflexivity.
Defined.

(** An entry without formats leaves the sample archive as it is; an entry
    for "b" updates the object at address 1; an entry for an unknown
    identifier adds an object at address 4. Merging the entries for "b"
    and for "n" into the videos of the sample archive leaves an item for
    "n" in the collection, marked as observed, and the items created are
    the ones added to the bucket. *)
Lemma merge_skips_entries_without_formats_witness :
  let i := [Sample.entry "b" 20 (Some ["mp4"]); Sample.entry "n" 50 (Some ["mp4"])] in
  let w' := _parse_metadata_videos_comp Sample.clock i Videos Sample.world in
  merge_entry Sample.clock Videos (Sample.entry "b" 20 (Some [])) Sample.world
    = Sample.world /\
  self (merge_entry Sample.clock Videos (Sample.entry "b" 20 (Some ["mp4"])) Sample.world)
    = self Sample.world /\
  Reporter.added (reporter (self
    (merge_entry Sample.clock Videos (Sample.entry "n" 50 (Some ["mp4"])) Sample.world)))
    = [4%nat] /\
  Reporter.added (reporter (self w'))
    = Reporter.added (reporter (self Sample.world))
      ++ seq (length (heap Sample.world)) (length (heap w') - length (heap Sample.world)) /\
  exists a, a ∈ bucket_of Videos (self w') /\
            Video.id (deref w' a) = "n" /\
            Video.known_not_deleted (deref w' a) = true.
Proof.
  cbn zeta.
  destruct (merge_skips_entries_without_formats Sample.clock Videos)
    as (H1 & _ & H3 & H4 & _ & _ & H7).
  split; [|split; [|split; [|split]]].
  - apply H1. reflexivity.
  - apply (H3 (Sample.entry "b" 20 (Some ["mp4"])) Sample.world 1%nat [0%nat] [2%nat]).
    + reflexivity.
    + reflexivity.
    + reflexivity.
    + intros b Hb. apply list_elem_of_singleton in Hb as ->. vm_compute. discriminate.
  - apply (H4 (Sample.entry "n" 50 (Some ["mp4"])) Sample.world).
    + reflexivity.
    + intros b Hb. cbn in Hb.
      repeat (apply elem_of_cons in Hb as [->|Hb]); try (vm_compute; discriminate).
      by apply elem_of_nil in Hb.
  - exact (proj1 (proj2 (H7 [Sample.entry "b" 20 (Some ["mp4"]);
                             Sample.entry "n" 50 (Some ["mp4"])]
                           Sample.world sample_videos_live))).
  - apply (proj2 (proj2 (proj2 (H7 [Sample.entry "b" 20 (Some ["mp4"]);
                                    Sample.entry "n" 50 (Some ["mp4"])]
                                  Sample.world sample_videos_live)))).
    cbn. right. left.
Defined.
